(** * GaiaNet chatbot backend: request validation, redaction, rate limiting

    A shallow embedding of [gaianet-chatbot/backend/app.py]: the request
    validator and content sanitizer, the sensitive-data filter, the
    in-memory rate limiter and the two chat entry points, followed by the
    properties of the specification that are settled against them.

    Conventions of the embedding.
    - Text is a sequence of 8-bit code points (U+0000 to U+00FF).  On that
      range the classes [\w], [\s], [\d], the case folding of
      [re.IGNORECASE] and [str.strip] are given exactly as CPython gives
      them for [str] patterns.
    - A Python exception is a value of [exn]; a function that can raise
      returns [result].
    - The clock, the process environment, the upstream provider, the
      constructor of its client and what [request.args] gives when the
      stream generator runs are explicit arguments. *)

From Stdlib Require Import ZArith QArith Lqa List Ascii String Floats Lia Bool.
From Stdlib Require Import DecimalString.
From stdpp Require Import gmap strings list fin_maps.

Open Scope string_scope.

(** ** Characters *)

Module Chars.

Definition code (c : ascii) : nat := nat_of_ascii c.

Definition between (lo hi : nat) (c : ascii) : bool :=
  Nat.leb lo (code c) && Nat.leb (code c) hi.

Definition in_range (lo hi c : ascii) : bool := between (code lo) (code hi) c.

(** [\d]: the decimal digits (category Nd); below U+0100 these are 0-9. *)
Definition is_digit (c : ascii) : bool := in_range "0" "9" c.

(** [Py_UNICODE_ISALNUM] below U+0100: the ASCII letters and digits, the
    Latin-1 letters, and the Latin-1 superscripts and fractions. *)
Definition is_alnum (c : ascii) : bool :=
  in_range "a" "z" c || in_range "A" "Z" c || is_digit c
  || Nat.eqb (code c) 170 || between 178 179 c || Nat.eqb (code c) 181
  || between 185 186 c || between 188 190 c
  || between 192 214 c || between 216 246 c || between 248 255 c.

(** [\w] *)
Definition is_word (c : ascii) : bool := is_alnum c || Ascii.eqb c "_".

(** [\s] and [str.isspace] below U+0100. *)
Definition is_space (c : ascii) : bool :=
  between 9 13 c || between 28 32 c || Nat.eqb (code c) 133 || Nat.eqb (code c) 160.

(** [Py_UNICODE_TOLOWER] and [Py_UNICODE_TOUPPER] below U+0100 (the three
    letters whose upper case lies above U+00FF or is two letters long
    are left alone: the program upper-cases ASCII names only). *)
Definition lower (c : ascii) : ascii :=
  if in_range "A" "Z" c || (between 192 222 c && negb (Nat.eqb (code c) 215))
  then ascii_of_nat (code c + 32) else c.

Definition upper (c : ascii) : ascii :=
  if in_range "a" "z" c || (between 224 254 c && negb (Nat.eqb (code c) 247))
  then ascii_of_nat (code c - 32) else c.

End Chars.
Export Chars.

Definition dquote : ascii := "034"%char.

Definition text := list ascii.

Definition chars (s : string) : text := list_ascii_of_string s.
Definition str (t : text) : string := string_of_list_ascii t.

(** ** Regular expressions of the [re] module

    Only the constructs the program's patterns use.  Unbounded repetition
    is applied to single-character atoms in every pattern of the program;
    the one repeated group, [(?:...){3}], has a fixed count. *)

Module Re.

Inductive cls_item :=
| CRange (lo hi : ascii)   (* a-z *)
| CChar (c : ascii)        (* a single character, escaped or not *)
| CWord                    (* \w *)
| CSpace                   (* \s *)
| CDigit.                  (* \d *)

Inductive atom :=
| Lit (c : ascii)                 (* a literal character *)
| ILit (c : ascii)                (* a literal under re.IGNORECASE *)
| Dot                             (* . under re.DOTALL *)
| OneOf (items : list cls_item)   (* [...] *)
| NoneOf (items : list cls_item). (* [^...] *)

Inductive regex :=
| Eps
| Chr (a : atom)
| Seq (r1 r2 : regex)
| Rep (a : atom) (lo : nat) (hi : option nat)      (* a{lo,hi}, a*, a+, a? (greedy) *)
| RepLazy (a : atom) (lo : nat) (hi : option nat)  (* a*?, a+? *)
| Times (n : nat) (r : regex)                      (* (?:r){n} *)
| WordB                                            (* \b *)
| Bol                                              (* ^ *)
| Eol.                                             (* $ *)

Definition item_has (i : cls_item) (c : ascii) : bool :=
  match i with
  | CRange lo hi => in_range lo hi c
  | CChar x => Ascii.eqb c x
  | CWord => is_word c
  | CSpace => is_space c
  | CDigit => is_digit c
  end.

Definition accepts (a : atom) (c : ascii) : bool :=
  match a with
  | Lit x => Ascii.eqb c x
  | ILit x => Ascii.eqb (lower c) (lower x)
  | Dot => true
  | OneOf items => existsb (fun i => item_has i c) items
  | NoneOf items => negb (existsb (fun i => item_has i c) items)
  end.

(** [\b]: exactly one of the characters around the position is a word
    character; the outside of the text counts as a non-word character. *)
Definition word_boundary (prev : option ascii) (s : text) : bool :=
  xorb (match prev with Some c => is_word c | None => false end)
       (match s with c :: _ => is_word c | [] => false end).

(** The matcher is a backtracking one, in continuation-passing style: the
    continuation receives the character before the current position and
    the rest of the text, and answers with the rest of the text after the
    whole match.  Alternatives are tried in the order the [re] engine
    tries them, and the first success is the result. *)
Definition kont := option ascii -> text -> option text.

Fixpoint rep_greedy (a : atom) (lo : nat) (hi : option nat) (k : kont)
    (prev : option ascii) (s : text) {struct s} : option text :=
  let stop := match lo with O => k prev s | S _ => None end in
  match hi, s with
  | Some O, _ => stop
  | _, [] => stop
  | _, c :: s' =>
      if accepts a c then
        match rep_greedy a (Nat.pred lo) (option_map Nat.pred hi) k (Some c) s' with
        | Some rest => Some rest
        | None => stop
        end
      else stop
  end.

Fixpoint rep_lazy (a : atom) (lo : nat) (hi : option nat) (k : kont)
    (prev : option ascii) (s : text) {struct s} : option text :=
  let more :=
    match hi, s with
    | Some O, _ => None
    | _, [] => None
    | _, c :: s' =>
        if accepts a c
        then rep_lazy a (Nat.pred lo) (option_map Nat.pred hi) k (Some c) s'
        else None
    end in
  match lo with
  | O => match k prev s with Some rest => Some rest | None => more end
  | S _ => more
  end.

Fixpoint exec (r : regex) (k : kont) (prev : option ascii) (s : text) : option text :=
  match r with
  | Eps => k prev s
  | Chr a =>
      match s with
      | c :: s' => if accepts a c then k (Some c) s' else None
      | [] => None
      end
  | Seq r1 r2 => exec r1 (exec r2 k) prev s
  | Rep a lo hi => rep_greedy a lo hi k prev s
  | RepLazy a lo hi => rep_lazy a lo hi k prev s
  | Times n r1 => Nat.iter n (exec r1) k prev s
  | WordB => if word_boundary prev s then k prev s else None
  | Bol => match prev with None => k prev s | Some _ => None end
  | Eol =>
      match s with
      | [] => k prev s
      | [c] => if Ascii.eqb c "010" then k prev s else None
      | _ => None
      end
  end.

(** The length of the match that starts at the current position. *)
Definition match_at (r : regex) (prev : option ascii) (s : text) : option nat :=
  option_map (fun rest => List.length s - List.length rest)
             (exec r (fun _ rest => Some rest) prev s).

(** The same, for a match that has to consume something: what the engine
    looks for at a position where it has just found an empty match. *)
Definition match_at_nonempty (r : regex) (prev : option ascii) (s : text) : option nat :=
  option_map (fun rest => List.length s - List.length rest)
             (exec r (fun _ rest =>
                        if Nat.eqb (List.length rest) (List.length s) then None else Some rest)
                   prev s).

(** One scan from left to right gives the non-overlapping matches.  [skip]
    counts the characters of the current match still to pass.  An empty
    match is reported, and a longer match is then looked for at the same
    position (Python 3.7 and later). *)
Inductive piece :=
| Keep (c : ascii)        (* a character outside every match *)
| Found (m : text).       (* a match *)

Fixpoint scan (r : regex) (prev : option ascii) (s : text) (skip : nat) : list piece :=
  match skip, s with
  | S n, c :: s' => scan r (Some c) s' n
  | S _, [] => []
  | O, [] =>
      match match_at r prev [] with
      | Some _ => [Found []]
      | None => []
      end
  | O, c :: s' =>
      match match_at r prev s with
      | Some (S n) => Found (firstn (S n) s) :: scan r (Some c) s' n
      | Some O =>
          Found [] ::
          match match_at_nonempty r prev s with
          | Some (S n) => Found (firstn (S n) s) :: scan r (Some c) s' n
          | _ => Keep c :: scan r (Some c) s' 0
          end
      | None => Keep c :: scan r (Some c) s' 0
      end
  end.

(** [re.match]: a match at the start of the text. *)
Definition re_match (r : regex) (s : string) : bool :=
  match match_at r None (chars s) with Some _ => true | None => false end.

(** [re.finditer], each match as its [group()]. *)
Definition finditer (r : regex) (s : string) : list string :=
  flat_map (fun p => match p with Found m => [str m] | Keep _ => [] end)
           (scan r None (chars s) 0).

(** [re.sub] with a replacement that holds no backslash. *)
Definition sub (r : regex) (repl : string) (s : string) : string :=
  str (flat_map (fun p => match p with Found _ => chars repl | Keep c => [c] end)
                (scan r None (chars s) 0)).

(** A literal string under [re.IGNORECASE]. *)
Definition ilits (s : string) : regex :=
  fold_right (fun c r => Seq (Chr (ILit c)) r) Eps (chars s).

Definition seqs (rs : list regex) : regex := fold_right Seq Eps rs.

End Re.
Import Re.

(** ** Python values and exceptions *)

Set Warnings "-register-all".

Inductive pyval :=
| PNone
| PBool (b : bool)
| PInt (z : Z)
| PFloat (f : float)
| PStr (s : string)
| PList (l : list pyval)
| PDict (d : list (string * pyval)).   (* the items, keys distinct *)

(** The exception classes that occur; [OtherException] is any class that
    derives from none of the others. *)
Inductive exn_class :=
| ValueError | RuntimeError | TypeError | AttributeError | IndexError
| BadRequestError | NotFoundError | InternalServerError | OtherException.

(** An exception: its class and [str(e)]. *)
Record exn := Exn { exn_cls : exn_class; exn_msg : string }.

Inductive result (A : Type) :=
| Ok (a : A)
| Raise (e : exn).
Arguments Ok {A} a.
Arguments Raise {A} e.

Definition bind {A B} (m : result A) (f : A -> result B) : result B :=
  match m with
  | Ok a => f a
  | Raise e => Raise e
  end.

Notation "x <- m ;; k" := (bind m (fun x => k))
  (at level 100, m at next level, right associativity).

(** [str.strip()], [str.lower()], [str.upper()] *)
Fixpoint lstrip (t : text) : text :=
  match t with
  | c :: t' => if is_space c then lstrip t' else t
  | [] => []
  end.
Definition strip (s : string) : string :=
  str (rev (lstrip (rev (lstrip (chars s))))).
Definition str_lower (s : string) : string := str (map lower (chars s)).
Definition str_upper (s : string) : string := str (map upper (chars s)).

(** [needle in hay] for two strings. *)
Fixpoint prefix_of (p t : text) : bool :=
  match p, t with
  | [], _ => true
  | a :: p', b :: t' => Ascii.eqb a b && prefix_of p' t'
  | _ :: _, [] => false
  end.
Fixpoint occurs (p t : text) : bool :=
  prefix_of p t || match t with [] => false | _ :: t' => occurs p t' end.
Definition contains (needle hay : string) : bool := occurs (chars needle) (chars hay).

Definition join (sep : string) (l : list string) : string :=
  match l with
  | [] => ""
  | x :: l' => fold_left (fun acc y => acc ++ sep ++ y) l' x
  end.

(** [str(n)] for an integer. *)
Definition Z_to_string (z : Z) : string := NilZero.string_of_int (Z.to_int z).

(** [repr(s)] for a string. *)
Definition hex_digit (n : nat) : ascii := nth n (chars "0123456789abcdef") "0"%char.
Definition printable (c : ascii) : bool :=
  between 32 126 c || (between 161 255 c && negb (Nat.eqb (code c) 173)).
Definition repr_char (quote c : ascii) : text :=
  if Ascii.eqb c quote || Ascii.eqb c "\" then ["\"%char; c]
  else if Ascii.eqb c "009" then chars "\t"
  else if Ascii.eqb c "010" then chars "\n"
  else if Ascii.eqb c "013" then chars "\r"
  else if printable c then [c]
  else ["\"%char; "x"%char; hex_digit (code c / 16); hex_digit (code c mod 16)].
Definition py_repr (s : string) : string :=
  let t := chars s in
  let quote :=
    if existsb (Ascii.eqb "'") t && negb (existsb (Ascii.eqb dquote) t)
    then dquote else "'"%char in
  str (quote :: flat_map (repr_char quote) t ++ [quote]).

(** [int(s)] for a string: surrounding white space, a sign, decimal digits
    with single underscores between them.  The white space [int] skips is
    that of C's [isspace], and U+0085 and U+00A0, which it turns into
    spaces first; U+001C to U+001F, which [str.strip] removes, it does
    not skip. *)
Definition is_int_space (c : ascii) : bool :=
  between 9 13 c || Nat.eqb (code c) 32 || Nat.eqb (code c) 133 || Nat.eqb (code c) 160.
Fixpoint int_lstrip (t : text) : text :=
  match t with
  | c :: t' => if is_int_space c then int_lstrip t' else t
  | [] => []
  end.
Fixpoint int_digits (t : text) (acc : Z) (after_digit : bool) : option Z :=
  match t with
  | [] => if after_digit then Some acc else None
  | c :: t' =>
      if is_digit c then int_digits t' (10 * acc + Z.of_nat (code c - 48)) true
      else if Ascii.eqb c "_" && after_digit then
        match t' with
        | d :: _ => if is_digit d then int_digits t' acc false else None
        | [] => None
        end
      else None
  end.
Definition int_literal (s : string) : option Z :=
  match rev (int_lstrip (rev (int_lstrip (chars s)))) with
  | "-"%char :: t => option_map Z.opp (int_digits t 0 false)
  | "+"%char :: t => int_digits t 0 false
  | t => int_digits t 0 false
  end.
Definition py_int (s : string) : result Z :=
  match int_literal s with
  | Some z => Ok z
  | None => Raise (Exn ValueError ("invalid literal for int() with base 10: " ++ py_repr s))
  end.

(** [os.environ] and [os.getenv(name, default)]. *)
Definition getenv (env : gmap string string) (name default : string) : string :=
  match env !! name with
  | Some v => v
  | None => default
  end.

(** The name of a value's type, as error messages give it. *)
Definition type_name (v : pyval) : string :=
  match v with
  | PNone => "NoneType"
  | PBool _ => "bool"
  | PInt _ => "int"
  | PFloat _ => "float"
  | PStr _ => "str"
  | PList _ => "list"
  | PDict _ => "dict"
  end.

(** [d.get(k)] and [k in d] for a dict with string keys. *)
Fixpoint dict_get (d : list (string * pyval)) (k : string) : option pyval :=
  match d with
  | [] => None
  | (k', v) :: d' => if String.eqb k k' then Some v else dict_get d' k
  end.

(** [len(v)] *)
Definition py_len (v : pyval) : result Z :=
  match v with
  | PStr s => Ok (Z.of_nat (String.length s))
  | PList l => Ok (Z.of_nat (List.length l))
  | PDict d => Ok (Z.of_nat (List.length d))
  | _ => Raise (Exn TypeError ("object of type '" ++ type_name v ++ "' has no len()"))
  end.

(** Truth value of a JSON value. *)
Definition truthy (v : pyval) : bool :=
  match v with
  | PNone => false
  | PBool b => b
  | PInt z => negb (Z.eqb z 0)
  | PFloat f => negb (PrimFloat.eqb f 0%float)
  | PStr s => negb (String.eqb s "")
  | PList l => match l with [] => false | _ => true end
  | PDict d => match d with [] => false | _ => true end
  end.

(** ** Request validator: [RequestValidator] *)

Module Sanitizer.

(** The pattern [<script[^>]*>.*?</script>] with [re.IGNORECASE | re.DOTALL] *)
Definition script_re : regex :=
  seqs [ ilits "<script"; Rep (NoneOf [CChar ">"]) 0 None; Chr (ILit ">");
         RepLazy Dot 0 None; ilits "</script>" ].

(** The pattern [javascript:] with [re.IGNORECASE] *)
Definition javascript_re : regex := ilits "javascript:".

(** The pattern [[^\w\s\.\,\!\?\-\(\)...]+], whose class ends with the
    escaped single quote and the escaped double quote. *)
Definition allowed_items : list cls_item :=
  [CWord; CSpace; CChar "."; CChar ","; CChar "!"; CChar "?"; CChar "-";
   CChar "("; CChar ")"; CChar "'"; CChar dquote].
Definition special_re : regex := Rep (NoneOf allowed_items) 1 None.

Definition sanitize_content (content : string) : string :=
  let content := sub script_re "" content in
  let content := sub javascript_re "" content in
  let content := sub special_re "" content in
  strip content.

End Sanitizer.
Import Sanitizer.

Record RequestValidator := {
  max_message_length : Z;
  max_messages : Z;
  allowed_roles : list string
}.

(** [RequestValidator.__init__] *)
Definition RequestValidator_init (env : gmap string string) : result RequestValidator :=
  n <- py_int (getenv env "MAX_MESSAGE_LENGTH" "10000");;
  Ok {| max_message_length := n;
        max_messages := 100;
        allowed_roles := ["user"; "assistant"; "system"] |}.

Record validated_message := { vm_role : string; vm_content : string }.

(** The dictionary [validated]: its four possible keys. *)
Record validated_request := {
  v_model : string;
  v_messages : list validated_message;
  v_max_tokens : option pyval;
  v_temperature : option pyval
}.

(** The pattern [^[a-zA-Z0-9_-]+$] *)
Definition model_re : regex :=
  seqs [ Bol;
         Rep (OneOf [CRange "a" "z"; CRange "A" "Z"; CRange "0" "9";
                     CChar "_"; CChar "-"]) 1 None;
         Eol ].

Section Validation.

(** [repr] of a float is the interpreter's own (the shortest decimal that
    reads back as the same float); it only shows in the text of an error
    message. *)
Variable float_repr : float -> string.

(** [str(v)] as an f-string formats it; inside a list or dict, [repr(v)]. *)
Fixpoint py_repr_val (v : pyval) : string :=
  match v with
  | PNone => "None"
  | PBool b => if b then "True" else "False"
  | PInt z => Z_to_string z
  | PFloat f => float_repr f
  | PStr s => py_repr s
  | PList l => "[" ++ join ", " (map py_repr_val l) ++ "]"
  | PDict d =>
      "{" ++ join ", " (map (fun kv => py_repr (fst kv) ++ ": " ++ py_repr_val (snd kv)) d) ++ "}"
  end.
Definition py_str (v : pyval) : string :=
  match v with
  | PStr s => s
  | _ => py_repr_val v
  end.

Variable rv : RequestValidator.

Definition validate_model (model : pyval) : result string :=
  match model with
  | PStr m =>
      if negb (re_match model_re m)
      then Raise (Exn ValueError "Invalid model name format")
      else Ok m
  | _ => Raise (Exn TypeError "expected string or bytes-like object")
  end.

(** [role not in self.allowed_roles]: hashing comes first. *)
Definition validate_role (role : pyval) : result string :=
  match role with
  | PList _ | PDict _ =>
      Raise (Exn TypeError ("unhashable type: '" ++ type_name role ++ "'"))
  | PStr r =>
      if existsb (String.eqb r) (allowed_roles rv) then Ok r
      else Raise (Exn ValueError ("Invalid role: " ++ py_str role))
  | _ => Raise (Exn ValueError ("Invalid role: " ++ py_str role))
  end.

Definition validate_content (content : pyval) : result string :=
  n <- py_len content;;
  if Z.ltb (max_message_length rv) n
  then Raise (Exn ValueError
                ("Message too long (max: " ++ Z_to_string (max_message_length rv) ++ ")"))
  else match content with
       | PStr c => Ok (sanitize_content c)
       | _ => Raise (Exn TypeError "expected string or bytes-like object")
       end.

(** The body of the loop over the messages. *)
Definition validate_message (msg : pyval) : result validated_message :=
  match msg with
  | PDict d =>
      role <- validate_role (default PNone (dict_get d "role"));;
      sanitized_content <- validate_content (default (PStr "") (dict_get d "content"));;
      Ok {| vm_role := role; vm_content := sanitized_content |}
  | _ => Raise (Exn ValueError "Message must be a dictionary")
  end.

Fixpoint validate_messages (msgs : list pyval) : result (list validated_message) :=
  match msgs with
  | [] => Ok []
  | msg :: rest =>
      m <- validate_message msg;;
      ms <- validate_messages rest;;
      Ok (m :: ms)
  end.

(** [isinstance(v, int)], with the integer: [bool] is a subclass of [int]. *)
Definition as_int (v : pyval) : option Z :=
  match v with
  | PInt z => Some z
  | PBool b => Some (if b then 1 else 0)%Z
  | _ => None
  end.

Definition validate_max_tokens (max_tokens : pyval) : result pyval :=
  match as_int max_tokens with
  | Some z =>
      if Z.ltb z 1 || Z.ltb 4096 z
      then Raise (Exn ValueError "Invalid max_tokens value")
      else Ok max_tokens
  | None => Raise (Exn ValueError "Invalid max_tokens value")
  end.

Definition validate_temperature (temp : pyval) : result pyval :=
  let bad :=
    match temp with
    | PFloat f => PrimFloat.ltb f 0%float || PrimFloat.ltb 2%float f
    | _ => match as_int temp with
           | Some z => Z.ltb z 0 || Z.ltb 2 z
           | None => true
           end
    end in
  if bad then Raise (Exn ValueError "Invalid temperature value") else Ok temp.

Definition validate_optional (f : pyval -> result pyval) (v : option pyval)
  : result (option pyval) :=
  match v with
  | Some x => y <- f x;; Ok (Some y)
  | None => Ok None
  end.

Definition validate_chat_request (request_data : list (string * pyval))
  : result validated_request :=
  model <- validate_model (default (PStr "") (dict_get request_data "model"));;
  messages <-
    match default (PList []) (dict_get request_data "messages") with
    | PList msgs =>
        if Z.ltb (max_messages rv) (Z.of_nat (List.length msgs))
        then Raise (Exn ValueError
               ("Invalid messages format or too many messages (max: "
                ++ Z_to_string (max_messages rv) ++ ")"))
        else validate_messages msgs
    | _ => Raise (Exn ValueError
               ("Invalid messages format or too many messages (max: "
                ++ Z_to_string (max_messages rv) ++ ")"))
    end;;
  max_tokens <- validate_optional validate_max_tokens (dict_get request_data "max_tokens");;
  temperature <- validate_optional validate_temperature (dict_get request_data "temperature");;
  Ok {| v_model := model; v_messages := messages;
        v_max_tokens := max_tokens; v_temperature := temperature |}.

End Validation.



(** ** Sensitive-data filter: [DataPrivacyFilter] *)

Module Privacy.

Definition digits (n : nat) : regex := Rep (OneOf [CDigit]) n (Some n).

(** [\b(?:\d{4}[-\s]?){3}\d{4}\b] *)
Definition credit_card_re : regex :=
  seqs [ WordB;
         Times 3 (Seq (digits 4) (Rep (OneOf [CChar "-"; CSpace]) 0 (Some 1)));
         digits 4; WordB ].

(** [\b\d{3}-\d{2}-\d{4}\b] *)
Definition ssn_re : regex :=
  seqs [ WordB; digits 3; Chr (Lit "-"); digits 2; Chr (Lit "-"); digits 4; WordB ].

(** [\b[A-Za-z0-9._%+-]+@[A-Za-z0-9.-]+\.[A-Z|a-z]{2,}\b] *)
Definition email_re : regex :=
  seqs [ WordB;
         Rep (OneOf [CRange "A" "Z"; CRange "a" "z"; CRange "0" "9";
                     CChar "."; CChar "_"; CChar "%"; CChar "+"; CChar "-"]) 1 None;
         Chr (Lit "@");
         Rep (OneOf [CRange "A" "Z"; CRange "a" "z"; CRange "0" "9";
                     CChar "."; CChar "-"]) 1 None;
         Chr (Lit ".");
         Rep (OneOf [CRange "A" "Z"; CChar "|"; CRange "a" "z"]) 2 None;
         WordB ].

(** [\b\d{3}-\d{3}-\d{4}\b] *)
Definition phone_re : regex :=
  seqs [ WordB; digits 3; Chr (Lit "-"); digits 3; Chr (Lit "-"); digits 4; WordB ].

(** [[A-Za-z0-9]{32,}] *)
Definition api_key_re : regex :=
  Rep (OneOf [CRange "A" "Z"; CRange "a" "z"; CRange "0" "9"]) 32 None.

(** [(?i)password[:\s=]+[^\s]+] *)
Definition password_re : regex :=
  seqs [ ilits "password";
         Rep (OneOf [CChar ":"; CSpace; CChar "="]) 1 None;
         Rep (NoneOf [CSpace]) 1 None ].

(** [(?i)token[:\s=]+[^\s]+] *)
Definition token_re : regex :=
  seqs [ ilits "token";
         Rep (OneOf [CChar ":"; CSpace; CChar "="]) 1 None;
         Rep (NoneOf [CSpace]) 1 None ].

(** [self.patterns], in insertion order (the order [dict.items()] gives). *)
Definition patterns : list (string * regex) :=
  [ ("credit_card", credit_card_re);
    ("ssn", ssn_re);
    ("email", email_re);
    ("phone", phone_re);
    ("api_key", api_key_re);
    ("password", password_re);
    ("token", token_re) ].

Definition detect_sensitive_data (text : string) : list (string * string) :=
  flat_map (fun '(data_type, pattern) =>
              map (fun m => (data_type, m)) (finditer pattern text))
           patterns.

(** The replacement [f"[REDACTED_{data_type.upper()}]"]. *)
Definition placeholder (data_type : string) : string :=
  "[REDACTED_" ++ str_upper data_type ++ "]".

Definition redact_sensitive_data (text : string) : string :=
  fold_left (fun redacted '(data_type, pattern) =>
               sub pattern (placeholder data_type) redacted)
            patterns text.

(** [validate_request_privacy], on validated messages. *)
Fixpoint privacy_violations (i : Z) (messages : list validated_message) : list string :=
  match messages with
  | [] => []
  | message :: rest =>
      let sensitive_data := detect_sensitive_data (vm_content message) in
      match sensitive_data with
      | [] => privacy_violations (i + 1) rest
      | _ :: _ =>
          ("Message " ++ Z_to_string i ++ ": Found ["
             ++ join ", " (map (fun d => py_repr (fst d)) sensitive_data) ++ "]")
          :: privacy_violations (i + 1) rest
      end
  end.
Definition validate_request_privacy (messages : list validated_message) : list string :=
  privacy_violations 0 messages.

End Privacy.
Import Privacy.

(** ** Rate limiter: [SecurityMonitor]

    [time.time()] is an argument, a rational number of seconds. *)

Inductive log_level := ERROR | WARNING.
Definition log_record : Type := log_level * string.

Record SecurityMonitor := {
  rate_limits : gmap string (list Q);     (* defaultdict(list) *)
  failed_attempts : gmap string Z;        (* defaultdict(int) *)
  blocked_ips : gset string
}.

(** [SecurityMonitor.__init__] *)
Definition SecurityMonitor_init : SecurityMonitor :=
  {| rate_limits := ∅; failed_attempts := ∅; blocked_ips := ∅ |}.

Definition Qltb (a b : Q) : bool := negb (Qle_bool b a).

Definition is_blocked (m : SecurityMonitor) (ip_address : string) : bool :=
  bool_decide (ip_address ∈ blocked_ips m).

Definition block_ip (m : SecurityMonitor) (ip_address reason : string)
  : SecurityMonitor * list log_record :=
  ({| rate_limits := rate_limits m;
      failed_attempts := failed_attempts m;
      blocked_ips := {[ip_address]} ∪ blocked_ips m |},
   [(WARNING, "Blocked IP " ++ ip_address ++ ": " ++ reason)]).

(** The limit the check works with. *)
Definition effective_limit (env : gmap string string) (limit : Z) : result Z :=
  if Z.eqb limit 100
  then py_int (getenv env "RATE_LIMIT_PER_HOUR" "100")
  else Ok limit.

(** The timestamps of one client; reading a [defaultdict] at an absent key
    gives the empty list. *)
Definition requests_of (m : SecurityMonitor) (ip_address : string) : list Q :=
  default [] (rate_limits m !! ip_address).

(** The list comprehension that cleans old requests. *)
Definition recent_requests (now : Q) (window : Z) (times : list Q) : list Q :=
  List.filter (fun req_time => Qltb (now - req_time) (inject_Z window)) times.

Definition check_rate_limit (env : gmap string string) (now : Q) (m : SecurityMonitor)
    (ip_address : string) (limit window : Z)
  : result (bool * SecurityMonitor * list log_record) :=
  limit <- effective_limit env limit;;
  let recent := recent_requests now window (requests_of m ip_address) in
  let m1 := {| rate_limits := <[ip_address := recent]> (rate_limits m);
               failed_attempts := failed_attempts m;
               blocked_ips := blocked_ips m |} in
  if Z.leb limit (Z.of_nat (List.length recent)) then
    let '(m2, logged) :=
      block_ip m1 ip_address
        ("Rate limit exceeded: " ++ Z_to_string limit ++ "/" ++ Z_to_string window ++ "s") in
    Ok (false, m2, logged)
  else
    Ok (true,
        {| rate_limits := <[ip_address := (recent ++ [now])%list]> (rate_limits m1);
           failed_attempts := failed_attempts m1;
           blocked_ips := blocked_ips m1 |},
        []).

(** The operations of the monitor, for sequences of calls. *)
Inductive monitor_op :=
| OpCheck (env : gmap string string) (now : Q) (ip_address : string) (limit window : Z)
| OpBlock (ip_address reason : string)
| OpIsBlocked (ip_address : string).

(** A call that raises leaves the monitor as it was: the only statement
    that can raise is the first one. *)
Definition run_op (m : SecurityMonitor) (op : monitor_op) : SecurityMonitor :=
  match op with
  | OpCheck env now ip limit window =>
      match check_rate_limit env now m ip limit window with
      | Ok (_, m', _) => m'
      | Raise _ => m
      end
  | OpBlock ip reason => fst (block_ip m ip reason)
  | OpIsBlocked _ => m
  end.

Definition run_ops (m : SecurityMonitor) (ops : list monitor_op) : SecurityMonitor :=
  fold_left run_op ops m.


(** ** Upstream client: [SecureGaiaClient] *)

Record SecureGaiaClient := {
  base_url : string;
  api_key : string;
  model : string
}.

(** [SecureGaiaClient.__init__].  [new_client base_url api_key] is the call
    [openai.OpenAI(base_url=..., api_key=...)] that ends it: the library
    builds the client object or raises. *)
Definition SecureGaiaClient_init (new_client : string -> string -> result unit)
    (env : gmap string string) : result SecureGaiaClient :=
  let url := default "" (env !! "GAIANET_BASE_URL") in
  let key := default "" (env !! "GAIANET_API_KEY") in
  if String.eqb url "" || String.eqb key ""
  then Raise (Exn ValueError "GAIANET_BASE_URL and GAIANET_API_KEY must be set")
  else
    _ <- new_client url key;;
    Ok {| base_url := url; api_key := key; model := getenv env "GAIANET_MODEL" "default" |}.

(** The module-level [gaia_client]: [None] when the constructor raised a
    [ValueError], which the module catches; any other exception ends the
    import of the module. *)
Definition gaia_client_of (new_client : string -> string -> result unit)
    (env : gmap string string) : result (option SecureGaiaClient) :=
  match SecureGaiaClient_init new_client env with
  | Ok c => Ok (Some c)
  | Raise e =>
      match exn_cls e with
      | ValueError => Ok None
      | _ => Raise e
      end
  end.

(** The arguments of [client.chat.completions.create]. *)
Record completion_request := {
  cr_model : string;
  cr_messages : list validated_message;
  cr_max_tokens : option pyval;
  cr_temperature : option pyval;
  cr_stream : bool
}.

(** What the handlers read of a completion: the [message.content] of each
    choice, and the [model] attribute when the response has one. *)
Record completion := {
  choices : list (option string);
  completion_model : option string
}.

(** A streamed chunk: the [delta.content] of each of its choices. *)
Definition chunk : Type := list (option string).

(** The upstream provider.  A streamed call raises at once, or gives
    chunks and then ends, normally or with an exception. *)
Record provider := {
  create : completion_request -> result completion;
  create_stream : completion_request -> result (list chunk * option exn)
}.

(** What a handler does besides answering: calls to the provider and log
    records, in the order they happen. *)
Inductive event :=
| Upstream (req : completion_request)
| Logged (level : log_level) (msg : string).

Definition upstream_calls (trace : list event) : list completion_request :=
  flat_map (fun e => match e with Upstream r => [r] | Logged _ _ => [] end) trace.

(** [SecureGaiaClient.chat_completion]: the call, and the mapping of what
    it raises. *)
Definition client_chat_completion (self : SecureGaiaClient) (up : provider)
    (messages : list validated_message) (model_name : string)
    (max_tokens temperature : option pyval)
  : result completion * list event :=
  let req := {| cr_model := if String.eqb model_name "" then model self else model_name;
                cr_messages := messages;
                cr_max_tokens := max_tokens;
                cr_temperature := temperature;
                cr_stream := false |} in
  match create up req with
  | Ok response => (Ok response, [Upstream req])
  | Raise e =>
      match exn_cls e with
      | BadRequestError =>
          (Raise (Exn ValueError "Invalid request format"),
           [Upstream req; Logged ERROR ("Bad request to GaiaNet: " ++ exn_msg e)])
      | NotFoundError =>
          (Raise (Exn ValueError "Model not available"),
           [Upstream req; Logged ERROR ("Model not found: " ++ exn_msg e)])
      | InternalServerError =>
          (Raise (Exn RuntimeError "Service temporarily unavailable"),
           [Upstream req; Logged ERROR ("GaiaNet server error: " ++ exn_msg e)])
      | _ =>
          (Raise (Exn RuntimeError "Request failed"),
           [Upstream req; Logged ERROR ("Unexpected error: " ++ exn_msg e)])
      end
  end.

(** ** Chat orchestrator: the two entry points *)

Inductive body :=
| ErrorBody (error : string)
| ChatBody (response model_name timestamp : string).

Record http_response := { status : Z; payload : body }.

(** [os.getenv("ENABLE_DATA_PRIVACY_FILTER", "true").lower() == "true"] *)
Definition privacy_filter_enabled (env : gmap string string) : bool :=
  String.eqb (str_lower (getenv env "ENABLE_DATA_PRIVACY_FILTER" "true")) "true".

(** [security_checks], the hook that runs before every request. *)
Definition security_checks (env : gmap string string) (now : Q) (m : SecurityMonitor)
    (client_ip : string)
  : result (option http_response * SecurityMonitor * list log_record) :=
  if is_blocked m client_ip
  then Ok (Some {| status := 403; payload := ErrorBody "Access denied" |}, m, [])
  else
    checked <- check_rate_limit env now m client_ip 100 3600;;
    let '(allowed, m', logged) := checked in
    if negb allowed
    then Ok (Some {| status := 429; payload := ErrorBody "Rate limit exceeded" |}, m', logged)
    else Ok (None, m', logged).

Section Orchestrator.

Variable float_repr : float -> string.
Variable env : gmap string string.
Variable request_validator : RequestValidator.
Variable gaia_client : option SecureGaiaClient.
Variable up : provider.

(** The part of [chat_completion] inside [try], after the client and the
    JSON body are there. *)
Definition chat_completion_body (client : SecureGaiaClient)
    (data : list (string * pyval)) (timestamp : string)
  : result http_response * list event :=
  let model_value := default (PStr (model client)) (dict_get data "model") in
  let messages :=
    match dict_get data "message" with
    | Some message => PList [PDict [("role", PStr "user"); ("content", message)]]
    | None => default (PList []) (dict_get data "messages")
    end in
  let chat_request :=
    ([("model", model_value); ("messages", messages)]
       ++ match dict_get data "max_tokens" with
          | Some v => [("max_tokens", v)]
          | None => []
          end
       ++ match dict_get data "temperature" with
          | Some v => [("temperature", v)]
          | None => []
          end)%list in
  match validate_chat_request float_repr request_validator chat_request with
  | Raise e => (Raise e, [])
  | Ok validated_request =>
      if privacy_filter_enabled env
         && match validate_request_privacy (v_messages validated_request) with
            | [] => false
            | _ :: _ => true
            end
      then (Ok {| status := 400; payload := ErrorBody "Privacy violation detected" |}, [])
      else
        let '(outcome, trace) :=
          client_chat_completion client up
            (v_messages validated_request) (v_model validated_request)
            (v_max_tokens validated_request) (v_temperature validated_request) in
        match outcome with
        | Raise e => (Raise e, trace)
        | Ok response =>
            match choices response with
            | [] => (Raise (Exn IndexError "list index out of range"), trace)
            | first :: _ =>
                let content := default "" first in
                let content :=
                  if privacy_filter_enabled env
                  then redact_sensitive_data content else content in
                (Ok {| status := 200;
                       payload :=
                         ChatBody content
                           (default (v_model validated_request) (completion_model response))
                           timestamp |},
                 trace)
            end
        end
  end.

(** What a body that is not a JSON object raises once it is past the
    emptiness test. *)
Definition not_an_object (data : pyval) : exn :=
  match data with
  | PStr s =>
      if contains "message" s
      then Exn TypeError "string indices must be integers"
      else Exn AttributeError "'str' object has no attribute 'get'"
  | PList l =>
      if existsb (fun v => match v with PStr k => String.eqb k "message" | _ => false end) l
      then Exn TypeError "list indices must be integers or slices, not str"
      else Exn AttributeError "'list' object has no attribute 'get'"
  | _ => Exn TypeError ("argument of type '" ++ type_name data ++ "' is not iterable")
  end.

(** [POST /api/chat].  [data] is what [request.get_json()] returned. *)
Definition chat_completion (data : pyval) (timestamp : string)
  : http_response * list event :=
  match gaia_client with
  | None => ({| status := 500; payload := ErrorBody "GaiaNet not configured" |}, [])
  | Some client =>
      if negb (truthy data)
      then ({| status := 400; payload := ErrorBody "Invalid JSON" |}, [])
      else
        let '(outcome, trace) :=
          match data with
          | PDict d => chat_completion_body client d timestamp
          | _ => (Raise (not_an_object data), [])
          end in
        match outcome with
        | Ok response => (response, trace)
        | Raise e =>
            match exn_cls e with
            | ValueError => ({| status := 400; payload := ErrorBody (exn_msg e) |}, trace)
            | RuntimeError => ({| status := 500; payload := ErrorBody (exn_msg e) |}, trace)
            | _ =>
                ({| status := 500; payload := ErrorBody "Internal server error" |},
                 (trace ++ [Logged ERROR ("Unexpected error in chat completion: " ++ exn_msg e)])%list)
            end
        end
  end.

(** The events of the stream, each the JSON object of one [data:] line. *)
Inductive sse_event :=
| SseContent (content : string)
| SseDone
| SseError (error : string).

(** The loop over the chunks: one event for each chunk whose first choice
    has a content; a chunk without choices raises. *)
Fixpoint stream_chunks (chunks : list chunk) : list sse_event * option exn :=
  match chunks with
  | [] => ([], None)
  | c :: rest =>
      match c with
      | [] => ([], Some (Exn IndexError "list index out of range"))
      | None :: _ => stream_chunks rest
      | Some content :: _ =>
          let content :=
            if privacy_filter_enabled env
            then redact_sensitive_data content else content in
          let '(events, raised) := stream_chunks rest in
          (SseContent content :: events, raised)
      end
  end.

(** The [except] clause of [generate]: the exception is logged and its
    text is the one event that ends the stream. *)
Definition stream_failed (e : exn) (events : list sse_event) (trace : list event)
  : list sse_event * list event :=
  ((events ++ [SseError (exn_msg e)])%list,
   (trace ++ [Logged ERROR ("Streaming error: " ++ exn_msg e)])%list).

(** [request.args.get(key)]: the first value of the key. *)
Fixpoint args_get (args : list (string * string)) (key : string) : option string :=
  match args with
  | [] => None
  | (k, v) :: args' => if String.eqb key k then Some v else args_get args' key
  end.

(** The generator [generate] from the point where it has read its two
    query parameters: the events it yields. *)
Definition generate_from (message model_arg : option string)
  : list sse_event * list event :=
  let failed := stream_failed in
  let model_name :=
    default (match gaia_client with Some c => model c | None => "default" end) model_arg in
  match message with
  | None => ([SseError "Message parameter required"], [])
  | Some message =>
      if String.eqb message ""
      then ([SseError "Message parameter required"], [])
      else
        match gaia_client with
        | None => ([SseError "GaiaNet not configured"], [])
        | Some _ =>
            let chat_request :=
              [("model", PStr model_name);
               ("messages", PList [PDict [("role", PStr "user"); ("content", PStr message)]])] in
            match validate_chat_request float_repr request_validator chat_request with
            | Raise e => failed e [] []
            | Ok validated_request =>
                let req := {| cr_model := v_model validated_request;
                              cr_messages := v_messages validated_request;
                              cr_max_tokens := None;
                              cr_temperature := None;
                              cr_stream := true |} in
                match create_stream up req with
                | Raise e => failed e [] [Upstream req]
                | Ok (chunks, ended) =>
                    let '(events, raised) := stream_chunks chunks in
                    match raised, ended with
                    | Some e, _ => failed e events [Upstream req]
                    | None, Some e => failed e events [Upstream req]
                    | None, None => ((events ++ [SseDone])%list, [Upstream req])
                    end
                end
            end
        end
  end.

(** The generator [generate].  It starts by reading [request.args], and
    [request_args] is what that expression gives at the time the
    generator runs: the query parameters inside a request context, and
    outside of one the [RuntimeError] that Flask raises, which the
    [except] clause of the generator handles like any other exception. *)
Definition generate (request_args : result (list (string * string)))
  : list sse_event * list event :=
  match request_args with
  | Raise e => stream_failed e [] []
  | Ok args => generate_from (args_get args "message") (args_get args "model")
  end.

(** [GET /api/chat/stream] as the server runs it.  The view returns
    [Response(generate())] and does not wrap the generator in
    [stream_with_context]: the server iterates the generator after the
    view has returned and Flask has popped the request context, so the
    first statement of the generator raises.  [outside] is the text of
    that [RuntimeError]. *)
Definition chat_stream (outside : string) : list sse_event * list event :=
  generate (Raise (Exn RuntimeError outside)).

End Orchestrator.

(** ** Notions the statements use *)

(** The continuation [k] fails on every suffix of [s]. *)
Definition fails_below (k : kont) (s : text) : Prop :=
  forall p s', s' `suffix_of` s -> k p s' = None.

(** The character before the position reached after reading [m]. *)
Definition last_char (prev : option ascii) (m : text) : option ascii :=
  fold_left (fun _ c => Some c) m prev.

(** No piece of a scan is a match. *)
Definition no_match (l : list piece) : Prop :=
  Forall (fun p => match p with Keep _ => True | Found _ => False end) l.

(** The characters the sanitizer's last substitution lets through. *)
Definition allowed (c : ascii) : bool :=
  existsb (fun i => item_has i c) allowed_items.

(** [needle in hay] whatever the case of the letters. *)
Definition icontains (needle hay : string) : bool :=
  contains (str_lower needle) (str_lower hay).

(** The findings of one kind. *)
Definition of_kind (kind : string) (findings : list (string * string))
  : list (string * string) :=
  List.filter (fun f => String.eqb (fst f) kind) findings.

(** *** A card number in the words of the specification

    Four groups of four digits; each of the first three groups may be
    followed by one separator, a hyphen or a white-space character. *)
Definition is_sep (c : ascii) : bool := Ascii.eqb c "-" || is_space c.

Definition take4 (t : text) : option (ascii * text) :=
  match t with
  | a :: b :: c :: d :: t' =>
      if is_digit a && is_digit b && is_digit c && is_digit d then Some (d, t') else None
  | _ => None
  end.

Definition skip_separator (t : text) : text :=
  match t with
  | c :: t' => if is_sep c then t' else t
  | [] => []
  end.

(** The last digit of the card number at the start of [t], and what
    follows the number. *)
Definition parse_card (t : text) : option (ascii * text) :=
  match take4 t with
  | Some (_, t1) =>
      match take4 (skip_separator t1) with
      | Some (_, t2) =>
          match take4 (skip_separator t2) with
          | Some (_, t3) => take4 (skip_separator t3)
          | None => None
          end
      | None => None
      end
  | None => None
  end.

Definition is_card (t : text) : bool :=
  match parse_card t with
  | Some (_, []) => true
  | _ => false
  end.

Definition count_digits (t : text) : nat := List.length (List.filter is_digit t).

(** No word character right before the end of [pre] (or of what precedes
    it), and none right at the start of [post]. *)
Definition boundary_before (prev : option ascii) (pre : text) : Prop :=
  match last_char prev pre with
  | Some c => is_word c = false
  | None => True
  end.
Definition boundary_after (post : text) : Prop :=
  match post with
  | c :: _ => is_word c = false
  | [] => True
  end.

(** A text made of card numbers and of the gaps around them, and the same
    text with the placeholder in place of each number. *)
Definition with_cards (gap0 : text) (rest : list (text * text)) : text :=
  (gap0 ++ flat_map (fun cg => fst cg ++ snd cg) rest)%list.
Definition with_placeholders (gap0 : text) (rest : list (text * text)) : text :=
  (gap0 ++ flat_map (fun cg => chars (placeholder "credit_card") ++ snd cg) rest)%list.

(** A card number starts at this place of a text: four groups as above
    are read from [s], with no word character right before them ([prev]
    is the character before the place) and none right after. *)
Definition card_starts (prev : option ascii) (s : text) : bool :=
  match parse_card s with
  | Some (_, post) =>
      negb (match prev with Some c => is_word c | None => false end)
      && negb (match post with c :: _ => is_word c | [] => false end)
  | None => false
  end.

(** No card number starts at a place of [gap], in a text where [after]
    follows [gap].  A gap may hold digits, and even a card number that a
    word character touches. *)
Fixpoint free_of_cards (prev : option ascii) (gap after : text) : bool :=
  match gap with
  | [] => true
  | c :: gap' =>
      negb (card_starts prev (c :: gap' ++ after)%list)
      && free_of_cards (Some c) gap' after
  end.

(** No card number starts inside a gap, and no word character touches a
    card number: each number stands between word boundaries. *)
Fixpoint well_separated (prev : option ascii) (gap0 : text) (rest : list (text * text))
  : Prop :=
  free_of_cards prev gap0 (flat_map (fun cg => fst cg ++ snd cg)%list rest) = true
  /\ match rest with
     | [] => True
     | (card, gap) :: rest' =>
         is_card card = true
         /\ boundary_before prev gap0
         /\ boundary_after (gap ++ flat_map (fun cg => fst cg ++ snd cg) rest')%list
         /\ well_separated (last_char prev (gap0 ++ card)%list) gap rest'
     end.

(** *** The validation order as the specification lists it

    The same checks as [validate_chat_request], in the order of the list
    of section 4.3 read item by item: the model, the messages as a whole,
    then that every message is a record, then every role, then every
    content length, then the two optional fields. *)
Section ListedOrder.

Variable float_repr : float -> string.
Variable rv : RequestValidator.

Fixpoint each {A B} (check : A -> result B) (l : list A) : result (list B) :=
  match l with
  | [] => Ok []
  | x :: l' => y <- check x;; ys <- each check l';; Ok (y :: ys)
  end.

Definition as_record (msg : pyval) : result (list (string * pyval)) :=
  match msg with
  | PDict d => Ok d
  | _ => Raise (Exn ValueError "Message must be a dictionary")
  end.

Definition validate_in_listed_order (request_data : list (string * pyval))
  : result validated_request :=
  model <- validate_model (default (PStr "") (dict_get request_data "model"));;
  msgs <-
    match default (PList []) (dict_get request_data "messages") with
    | PList msgs =>
        if Z.ltb (max_messages rv) (Z.of_nat (List.length msgs))
        then Raise (Exn ValueError
               ("Invalid messages format or too many messages (max: "
                ++ Z_to_string (max_messages rv) ++ ")"))
        else Ok msgs
    | _ => Raise (Exn ValueError
               ("Invalid messages format or too many messages (max: "
                ++ Z_to_string (max_messages rv) ++ ")"))
    end;;
  records <- each as_record msgs;;
  roles <- each (fun d => validate_role float_repr rv (default PNone (dict_get d "role")))
                records;;
  contents <- each (fun d => validate_content rv (default (PStr "") (dict_get d "content")))
                   records;;
  max_tokens <- validate_optional validate_max_tokens (dict_get request_data "max_tokens");;
  temperature <- validate_optional validate_temperature (dict_get request_data "temperature");;
  Ok {| v_model := model;
        v_messages :=
          map (fun rc => {| vm_role := fst rc; vm_content := snd rc |}) (combine roles contents);
        v_max_tokens := max_tokens; v_temperature := temperature |}.

End ListedOrder.

Definition is_ok {A} (r : result A) : Prop :=
  match r with
  | Ok _ => True
  | Raise _ => False
  end.

Definition is_list (v : pyval) : bool :=
  match v with PList _ => true | _ => false end.
Definition is_dict (v : pyval) : bool :=
  match v with PDict _ => true | _ => false end.

(** The error that stands for the messages as a whole. *)
Definition messages_error (rv : RequestValidator) : exn :=
  Exn ValueError ("Invalid messages format or too many messages (max: "
                  ++ Z_to_string (max_messages rv) ++ ")").

(** The answers of a series of checks of one client, and the monitor
    after them. *)
Definition check_each (env : gmap string string) (ip_address : string) (limit window : Z)
    (m : SecurityMonitor) (times : list Q) : list bool * SecurityMonitor :=
  fold_left (fun acc now =>
               match check_rate_limit env now (snd acc) ip_address limit window with
               | Ok (answer, m', _) => ((fst acc ++ [answer])%list, m')
               | Raise _ => acc
               end)
            times ([], m).

(** A monitor that has [n] requests of one client on record, all at [now]. *)
Definition monitor_with (ip_address : string) (now : Q) (n : nat) : SecurityMonitor :=
  {| rate_limits := {[ip_address := repeat now n]};
     failed_attempts := ∅;
     blocked_ips := ∅ |}.

(** The answer of a check, when it gives one. *)
Definition answer_of (r : result (bool * SecurityMonitor * list log_record)) : option bool :=
  match r with
  | Ok (answer, _, _) => Some answer
  | Raise _ => None
  end.

(** ** Concrete inputs the examples use *)

(** The validator of an environment that sets no [MAX_MESSAGE_LENGTH]. *)
Definition default_validator : RequestValidator :=
  {| max_message_length := 10000;
     max_messages := 100;
     allowed_roles := ["user"; "assistant"; "system"] |}.

(** Examples have no float to print. *)
Definition no_float_repr : float -> string := fun _ => "".

Definition user_message (content : string) : pyval :=
  PDict [("role", PStr "user"); ("content", PStr content)].


(** An environment that configures the upstream client and nothing else. *)
Definition example_environment : gmap string string :=
  {[ "GAIANET_BASE_URL" := "https://node.example"; "GAIANET_API_KEY" := "key" ]}.

(** A configured client, and a provider that always raises. *)
Definition example_client : SecureGaiaClient :=
  {| base_url := "https://node.example"; api_key := "key"; model := "default" |}.

Definition failing_provider (cls : exn_class) (detail : string) : provider :=
  {| create := fun _ => Raise (Exn cls detail);
     create_stream := fun _ => Raise (Exn cls detail) |}.

(** The fixed message a class of upstream failure is mapped to. *)
Definition client_facing (cls : exn_class) : exn :=
  match cls with
  | BadRequestError => Exn ValueError "Invalid request format"
  | NotFoundError => Exn ValueError "Model not available"
  | InternalServerError => Exn RuntimeError "Service temporarily unavailable"
  | _ => Exn RuntimeError "Request failed"
  end.

(** ** Further notions *)
(** ** Notions the further properties use *)

(** The least number of characters a match of [r] takes. *)
Fixpoint min_len (r : regex) : nat :=
  match r with
  | Eps | WordB | Bol | Eol => 0
  | Chr _ => 1
  | Seq r1 r2 => min_len r1 + min_len r2
  | Rep _ lo _ | RepLazy _ lo _ => lo
  | Times n r1 => n * min_len r1
  end.

(** No white space at either end. *)
Definition stripped (t : text) : Prop :=
  lstrip t = t /\ lstrip (rev t) = rev t.

(** The characters of a model name. *)
Definition model_char (c : ascii) : bool :=
  accepts (OneOf [CRange "a" "z"; CRange "A" "Z"; CRange "0" "9"; CChar "_"; CChar "-"]) c.

(** The least length of a finding of each kind. *)
Definition shortest_finding : list (string * nat) :=
  map (fun p => (fst p, min_len (snd p))) patterns.

(** A validated message in which the filter finds something. *)
Definition has_finding (m : validated_message) : bool :=
  match detect_sensitive_data (vm_content m) with
  | [] => false
  | _ :: _ => true
  end.

(** A raw message and the validated message it gives: a record whose role
    is an allowed string and whose content (the empty string when the key
    is missing) is a string of at most [max_message_length] characters,
    sanitized. *)
Definition validated_from (rv : RequestValidator) (msg : pyval) (vm : validated_message)
  : Prop :=
  exists d raw,
    msg = PDict d
    /\ dict_get d "role" = Some (PStr (vm_role vm))
    /\ In (vm_role vm) (allowed_roles rv)
    /\ default (PStr "") (dict_get d "content") = PStr raw
    /\ (Z.of_nat (String.length raw) <= max_message_length rv)%Z
    /\ vm_content vm = sanitize_content raw.

(** The messages [/api/chat] validates: the [message] of the body wrapped
    as one user message when the key is there, the [messages] of the body
    otherwise. *)
Definition request_messages (data : list (string * pyval)) : pyval :=
  match dict_get data "message" with
  | Some message => PList [PDict [("role", PStr "user"); ("content", message)]]
  | None => default (PList []) (dict_get data "messages")
  end.

(** The response of [/api/chat] to what the provider gave. *)
Definition answer_to (env : gmap string string) (req : completion_request)
    (timestamp : string) (outcome : result completion) : http_response :=
  match outcome with
  | Raise e =>
      {| status := match exn_cls (client_facing (exn_cls e)) with
                   | ValueError => 400
                   | _ => 500
                   end;
         payload := ErrorBody (exn_msg (client_facing (exn_cls e))) |}
  | Ok response =>
      match choices response with
      | [] => {| status := 500; payload := ErrorBody "Internal server error" |}
      | first :: _ =>
          {| status := 200;
             payload :=
               ChatBody (if privacy_filter_enabled env
                         then redact_sensitive_data (default "" first)
                         else default "" first)
                        (default (cr_model req) (completion_model response))
                        timestamp |}
      end
  end.

Definition is_content (e : sse_event) : bool :=
  match e with SseContent _ => true | _ => false end.

(** ** Configuration check: [validate_config.py] *)

Module Config.

(** [ConfigValidator]: the two lists its methods append to. *)
Record ConfigValidator := { issues : list string; warnings : list string }.

Definition ConfigValidator_init : ConfigValidator := {| issues := []; warnings := [] |}.

Definition add_issue (self : ConfigValidator) (msg : string) : ConfigValidator :=
  {| issues := (issues self ++ [msg])%list; warnings := warnings self |}.

Definition add_warning (self : ConfigValidator) (msg : string) : ConfigValidator :=
  {| issues := issues self; warnings := (warnings self ++ [msg])%list |}.

(** [x in [a, b, ...]] for strings. *)
Definition among (x : string) (l : list string) : bool := existsb (String.eqb x) l.

Section Platform.

(** [urlparse(url)], which gives the parts of the URL, of which the check
    reads [scheme] and [netloc], or raises (a [ValueError], for instance on
    an unclosed bracket in the host); and [os.getuid()], [None] on a
    platform that has no such function. *)
Variable urlparse : string -> result (string * string).
Variable getuid : option Z.

(** The check of the URL: [urlparse] is called outside any [try], before
    anything is appended. *)
Definition validate_base_url (self : ConfigValidator) (config : gmap string string)
  : result ConfigValidator :=
  let base_url := getenv config "GAIANET_BASE_URL" "" in
  if String.eqb base_url "" then Ok (add_issue self "GAIANET_BASE_URL is required")
  else
    parsed <- urlparse base_url;;
    let '(scheme, netloc) := parsed in
    if String.eqb scheme "" || String.eqb netloc ""
    then Ok (add_issue self "GAIANET_BASE_URL must be a valid URL")
    else if negb (among scheme ["http"; "https"])
    then Ok (add_issue self "GAIANET_BASE_URL must use http or https")
    else Ok self.

Definition validate_gaianet_config (self : ConfigValidator) (config : gmap string string)
  : result ConfigValidator :=
  self <- validate_base_url self config;;
  let api_key := getenv config "GAIANET_API_KEY" "" in
  let self :=
    if String.eqb api_key "" then add_issue self "GAIANET_API_KEY is required"
    else if among api_key
              ["dev-key-placeholder"; "REPLACE_WITH_PRODUCTION_API_KEY"; "your-api-key"]
    then add_issue self "GAIANET_API_KEY must be set to a real value"
    else if Nat.ltb (String.length api_key) 16
    then add_issue self "GAIANET_API_KEY appears too short (minimum 16 characters)"
    else self in
  let model := getenv config "GAIANET_MODEL" "" in
  Ok (if String.eqb model ""
      then add_warning self "GAIANET_MODEL not set, will use default"
      else self).

Definition validate_performance_config (self : ConfigValidator) (config : gmap string string)
  : ConfigValidator :=
  let chat_ctx := getenv config "CHAT_CTX_SIZE" "16384" in
  let self :=
    match py_int chat_ctx with
    | Ok ctx_size =>
        if Z.ltb ctx_size 1024
        then add_warning self "CHAT_CTX_SIZE very low, may affect quality"
        else if Z.ltb 32768 ctx_size
        then add_warning self "CHAT_CTX_SIZE very high, may cause memory issues"
        else self
    | Raise _ => add_issue self "CHAT_CTX_SIZE must be a valid integer"
    end in
  let batch_size := getenv config "CHAT_BATCH_SIZE" "128" in
  match py_int batch_size with
  | Ok batch =>
      if Z.ltb batch 1
      then add_issue self "CHAT_BATCH_SIZE must be positive"
      else if Z.ltb 512 batch
      then add_warning self "CHAT_BATCH_SIZE very high, may cause memory issues"
      else self
  | Raise _ => add_issue self "CHAT_BATCH_SIZE must be a valid integer"
  end.

Definition validate_security_config (self : ConfigValidator) (config : gmap string string)
  : ConfigValidator :=
  let rate_limit := getenv config "RATE_LIMIT_PER_HOUR" "100" in
  let self :=
    match py_int rate_limit with
    | Ok limit =>
        if Z.ltb limit 1
        then add_issue self "RATE_LIMIT_PER_HOUR must be positive"
        else if Z.ltb 10000 limit
        then add_warning self "RATE_LIMIT_PER_HOUR very high, may not provide DoS protection"
        else self
    | Raise _ => add_issue self "RATE_LIMIT_PER_HOUR must be a valid integer"
    end in
  let max_msg_len := getenv config "MAX_MESSAGE_LENGTH" "10000" in
  let self :=
    match py_int max_msg_len with
    | Ok max_len =>
        if Z.ltb max_len 100
        then add_warning self "MAX_MESSAGE_LENGTH very low, may truncate normal messages"
        else if Z.ltb 100000 max_len
        then add_warning self "MAX_MESSAGE_LENGTH very high, may allow abuse"
        else self
    | Raise _ => add_issue self "MAX_MESSAGE_LENGTH must be a valid integer"
    end in
  let privacy_filter := str_lower (getenv config "ENABLE_DATA_PRIVACY_FILTER" "true") in
  if negb (among privacy_filter ["true"; "false"])
  then add_issue self "ENABLE_DATA_PRIVACY_FILTER must be true or false"
  else self.

Definition validate_server_config (self : ConfigValidator) (config : gmap string string)
  : ConfigValidator :=
  let host := getenv config "SERVER_HOST" "0.0.0.0" in
  let self :=
    if match config !! "FLASK_ENV" with
       | Some v => String.eqb v "development"
       | None => false
       end && String.eqb host "0.0.0.0"
    then add_warning self "SERVER_HOST set to 0.0.0.0 in development - consider 127.0.0.1"
    else self in
  let port := getenv config "SERVER_PORT" "8080" in
  let self :=
    match py_int port with
    | Ok port_num =>
        if Z.ltb port_num 1024 then
          match getuid with
          | None => self
          | Some uid =>
              if negb (Z.eqb uid 0)
              then add_warning self
                     ("Port " ++ Z_to_string port_num ++ " requires root privileges")
              else if Z.ltb 65535 port_num
              then add_issue self "SERVER_PORT must be <= 65535"
              else self
          end
        else if Z.ltb 65535 port_num
        then add_issue self "SERVER_PORT must be <= 65535"
        else self
    | Raise _ => add_issue self "SERVER_PORT must be a valid integer"
    end in
  let flask_env := getenv config "FLASK_ENV" "production" in
  if negb (among flask_env ["development"; "production"])
  then add_warning self "FLASK_ENV should be 'development' or 'production'"
  else self.

(** The other method that can raise: its [int] is not in a [try]. *)
Definition validate_production_specific (self : ConfigValidator)
    (config : gmap string string) : result unit * ConfigValidator :=
  if match config !! "FLASK_ENV" with
     | Some v => String.eqb v "production"
     | None => false
     end
  then
    let debug := str_lower (getenv config "DEBUG_MODE" "false") in
    let self :=
      if String.eqb debug "true"
      then add_issue self "DEBUG_MODE should be false in production"
      else self in
    let base_url := getenv config "GAIANET_BASE_URL" "" in
    let self :=
      if prefix_of (chars "http://") (chars base_url)
      then add_warning self "Consider using HTTPS in production"
      else self in
    match py_int (getenv config "RATE_LIMIT_PER_HOUR" "100") with
    | Raise e => (Raise e, self)
    | Ok rate_limit =>
        (Ok tt,
         if Z.ltb 1000 rate_limit
         then add_warning self "Consider lower rate limits for production"
         else self)
    end
  else (Ok tt, self).

(** [validate_all]: the answer or the exception, and the validator as the
    call leaves it. *)
Definition validate_all (self : ConfigValidator) (config : gmap string string)
  : result bool * ConfigValidator :=
  let self := {| issues := []; warnings := [] |} in
  match validate_gaianet_config self config with
  | Raise e => (Raise e, self)
  | Ok self =>
      let self := validate_performance_config self config in
      let self := validate_security_config self config in
      let self := validate_server_config self config in
      match validate_production_specific self config with
      | (Raise e, self) => (Raise e, self)
      | (Ok _, self) => (Ok (Nat.eqb (List.length (issues self)) 0), self)
      end
  end.

End Platform.

(** [line.split('=', 1)] on a line that holds [=]. *)
Fixpoint split_eq (t : text) : option (text * text) :=
  match t with
  | [] => None
  | c :: t' =>
      if Ascii.eqb c "="
      then Some ([], t')
      else match split_eq t' with
           | Some (k, v) => Some (c :: k, v)
           | None => None
           end
  end.

(** The body of the loop of [load_env_file], for one line of the file. *)
Definition load_env_line (config : gmap string string) (line : string)
  : gmap string string :=
  let line := strip line in
  match chars line with
  | [] => config
  | "#"%char :: _ => config
  | _ =>
      match split_eq (chars line) with
      | Some (key, value) => <[strip (str key) := strip (str value)]> config
      | None => config
      end
  end.

(** [load_env_file], from the lines that iterating over the open file
    gives. *)
Definition load_env_file (lines : list string) : gmap string string :=
  fold_left load_env_line lines ∅.

(** A key and a value as a line of the file. *)
Definition env_line (key value : string) : string :=
  key ++ "=" ++ value ++ String "010" "".

(** A key that a line can give: not empty, no [=], no [#] in front, no
    white space at either end. *)
Definition env_key (key : string) : Prop :=
  key <> "" /\ contains "=" key = false
  /\ prefix_of (chars "#") (chars key) = false
  /\ strip key = key.

End Config.

(** * Properties *)

Open Scope list_scope.

(** ** The inputs of the repository's tests *)

Example sanitize_script_tag :
  sanitize_content "Hello <script>alert('xss')</script> world" = "Hello  world".
Proof. vm_compute; reflexivity. Qed.

(** The whitelist keeps parentheses and quotes: only the protocol goes. *)
Example sanitize_javascript_protocol :
  sanitize_content "Click javascript:alert('xss') here" = "Click alert('xss') here".
Proof. vm_compute; reflexivity. Qed.

Example detect_card_number :
  detect_sensitive_data "My card number is 4532-1234-5678-9012"
  = [("credit_card", "4532-1234-5678-9012")].
Proof. vm_compute; reflexivity. Qed.

Example redact_card_number :
  redact_sensitive_data "My credit card is 4532-1234-5678-9012 please help"
  = "My credit card is [REDACTED_CREDIT_CARD] please help".
Proof. vm_compute; reflexivity. Qed.

(** A text can hold findings of several kinds; each is reported on its
    own, also when one lies inside another. *)
Example detect_several_kinds :
  detect_sensitive_data "token: 4532-1234-5678-9012"
  = [("credit_card", "4532-1234-5678-9012"); ("token", "token: 4532-1234-5678-9012")].
Proof. vm_compute; reflexivity. Qed.

(** ** The matcher *)

Section MatcherFacts.

Implicit Types (r : regex) (k : kont) (prev : option ascii) (s : text).

(** A continuation that fails on every suffix of the text makes the whole
    match fail: the matcher only ever hands suffixes to it. *)
Lemma fails_below_suffix k s s' :
  fails_below k s -> s' `suffix_of` s -> fails_below k s'.
Proof.
  intros H Hs p t Ht. apply H. by etrans.
Qed.

Lemma rep_greedy_fails a lo hi k prev s :
  fails_below k s -> rep_greedy a lo hi k prev s = None.
Proof.
  revert lo hi prev. induction s as [|c s IH]; intros lo hi prev H.
  - assert (k prev [] = None) by (apply H; done).
    destruct hi as [[|?]|], lo; simpl; done.
  - assert (Hs : fails_below k s) by (apply (fails_below_suffix k (c :: s)); [exact H|by apply suffix_cons_r]).
    assert (Hk : k prev (c :: s) = None) by (apply H; done).
    destruct hi as [[|h]|]; simpl.
    + destruct lo; done.
    + rewrite IH by done. destruct (accepts a c), lo; done.
    + rewrite IH by done. destruct (accepts a c), lo; done.
Qed.

Lemma rep_lazy_fails a lo hi k prev s :
  fails_below k s -> rep_lazy a lo hi k prev s = None.
Proof.
  revert lo hi prev. induction s as [|c s IH]; intros lo hi prev H.
  - assert (Hk : k prev [] = None) by (apply H; done).
    destruct hi as [[|?]|], lo; simpl; rewrite ?Hk; done.
  - assert (Hs : fails_below k s) by (apply (fails_below_suffix k (c :: s)); [exact H|by apply suffix_cons_r]).
    assert (Hk : k prev (c :: s) = None) by (apply H; done).
    destruct hi as [[|h]|]; simpl.
    + destruct lo; rewrite ?Hk; done.
    + rewrite IH by done. destruct (accepts a c), lo; rewrite ?Hk; done.
    + rewrite IH by done. destruct (accepts a c), lo; rewrite ?Hk; done.
Qed.

Lemma exec_fails r : forall k prev s, fails_below k s -> exec r k prev s = None.
Proof.
  induction r as [|a|r1 IH1 r2 IH2|a lo hi|a lo hi|n r1 IH1| | |]; intros k prev s H; simpl.
  - apply H. done.
  - destruct s as [|c s]; [done|]. destruct (accepts a c); [|done].
    apply H. by apply suffix_cons_r.
  - apply IH1. intros p s' Hs. apply IH2. by apply (fails_below_suffix k s).
  - by apply rep_greedy_fails.
  - by apply rep_lazy_fails.
  - revert prev s H. induction n as [|n IHn]; intros prev s H; simpl.
    + apply H. done.
    + apply IH1. intros p s' Hs. apply IHn. by apply (fails_below_suffix k s).
  - destruct (word_boundary prev s); [|done]. apply H. done.
  - destruct prev; [done|]. apply H. done.
  - destruct s as [|c [|? ?]]; [apply H; done| |done].
    destruct (Ascii.eqb c "010"); [|done]. apply H. done.
Qed.

(** A greedy repetition with no lower bound always matches. *)
Lemma rep_greedy_zero a hi prev s :
  exists rest, rep_greedy a 0 hi (fun _ rest => Some rest) prev s = Some rest
               /\ rest `suffix_of` s.
Proof.
  revert hi prev. induction s as [|c s IH]; intros hi prev.
  - exists []. by destruct hi as [[|?]|].
  - destruct hi as [[|h]|]; simpl.
    + by exists (c :: s).
    + destruct (accepts a c); [|by exists (c :: s)].
      destruct (IH (Some h) (Some c)) as (rest & -> & Hs).
      exists rest. split; [done|by apply suffix_cons_r].
    + destruct (accepts a c); [|by exists (c :: s)].
      destruct (IH None (Some c)) as (rest & -> & Hs).
      exists rest. split; [done|by apply suffix_cons_r].
Qed.

Lemma suffix_shorter (x s : text) : x `suffix_of` s -> List.length x <= List.length s.
Proof. intros [m ->]. rewrite length_app. lia. Qed.

(** Passing over the characters of a match. *)
Lemma scan_skip r m : forall prev s,
  scan r prev (m ++ s) (List.length m) = scan r (last_char prev m) s 0.
Proof.
  induction m as [|c m IH]; intros prev s; [by destruct s|].
  simpl. apply IH.
Qed.

(** Without a match, a scan keeps the text as it is. *)
Lemma scan_no_match_keep r : forall s prev,
  no_match (scan r prev s 0) -> scan r prev s 0 = map Keep s.
Proof.
  induction s as [|c s IH]; intros prev; simpl.
  - destruct (match_at r prev []); [|done]. by inversion 1.
  - destruct (match_at r prev (c :: s)) as [[|n]|].
    + by inversion 1.
    + by inversion 1.
    + inversion 1; subst. f_equal. by apply IH.
Qed.

Lemma str_chars (s : string) : str (chars s) = s.
Proof. apply string_of_list_ascii_of_string. Qed.

Lemma chars_str (t : text) : chars (str t) = t.
Proof. apply list_ascii_of_string_of_list_ascii. Qed.

Lemma sub_no_match r (repl s : string) :
  no_match (scan r None (chars s) 0) -> sub r repl s = s.
Proof.
  intros H. unfold sub. rewrite (scan_no_match_keep _ _ _ H).
  rewrite <- (str_chars s) at 2. f_equal.
  clear H. induction (chars s) as [|c t IH]; simpl; [done|by rewrite IH].
Qed.

Lemma finditer_no_match r (s : string) :
  finditer r s = [] <-> no_match (scan r None (chars s) 0).
Proof.
  unfold finditer, no_match.
  induction (scan r None (chars s) 0) as [|[c|m] l IH]; simpl.
  - split; [constructor|done].
  - rewrite IH. split; [by constructor|by inversion 1].
  - split; [done|by inversion 1].
Qed.

End MatcherFacts.

(** ** The sanitizer *)

Section SanitizerFacts.

(** The last substitution of the sanitizer matches exactly at the
    characters that are not allowed. *)
Lemma special_at_allowed prev c (s : text) :
  allowed c = true -> match_at special_re prev (c :: s) = None.
Proof.
  intros H. unfold match_at, special_re. cbn [exec rep_greedy].
  change (accepts (NoneOf allowed_items) c) with (negb (allowed c)). by rewrite H.
Qed.

Lemma special_at_other prev c (s : text) :
  allowed c = false -> exists n, match_at special_re prev (c :: s) = Some (S n).
Proof.
  intros H. unfold match_at, special_re. cbn [exec rep_greedy].
  change (accepts (NoneOf allowed_items) c) with (negb (allowed c)). rewrite H.
  cbn [negb Nat.pred option_map].
  destruct (rep_greedy_zero (NoneOf allowed_items) None (Some c) s) as (rest & -> & Hs).
  apply suffix_shorter in Hs. simpl.
  exists (List.length s - List.length rest). f_equal. lia.
Qed.

Lemma scan_special_keeps (s : text) : forall prev skip c,
  In (Keep c) (scan special_re prev s skip) -> allowed c = true.
Proof.
  induction s as [|a s IH]; intros prev skip c.
  - by destruct skip.
  - destruct skip as [|n]; cbn [scan]; [|apply IH].
    destruct (allowed a) eqn:Ha.
    + rewrite (special_at_allowed _ _ _ Ha). intros [[= <-]|H]; [done|by eapply IH].
    + destruct (special_at_other prev a s Ha) as [n ->].
      intros [|H]; [done|by eapply IH].
Qed.

Lemma sub_special_allowed (s : string) c :
  In c (chars (sub special_re "" s)) -> allowed c = true.
Proof.
  unfold sub. rewrite chars_str. intros H.
  apply in_flat_map in H as ([a|m] & Hp & Hc); simpl in Hc.
  - destruct Hc as [->|[]]. by eapply scan_special_keeps.
  - done.
Qed.

Lemma lstrip_incl (t : text) c : In c (lstrip t) -> In c t.
Proof.
  induction t as [|a t IH]; simpl; [done|].
  destruct (is_space a); [|done]. intros H. right. by apply IH.
Qed.

Lemma strip_incl (s : string) c : In c (chars (strip s)) -> In c (chars s).
Proof.
  unfold strip. rewrite chars_str. intros H.
  apply in_rev, lstrip_incl, in_rev in H. by apply lstrip_incl.
Qed.

(** Every character of a sanitized content is an allowed one. *)
Lemma sanitize_allowed (s : string) c :
  In c (chars (sanitize_content s)) -> allowed c = true.
Proof.
  unfold sanitize_content. intros H. apply strip_incl in H. by eapply sub_special_allowed.
Qed.

Lemma prefix_of_incl (p t : text) a : prefix_of p t = true -> In a p -> In a t.
Proof.
  revert t. induction p as [|b p IH]; intros [|c t]; simpl; try done.
  intros [Hb Hp]%andb_prop [->|Ha].
  - left. symmetry. by apply Ascii.eqb_eq.
  - right. by apply IH.
Qed.

Lemma occurs_incl (p t : text) a : occurs p t = true -> In a p -> In a t.
Proof.
  induction t as [|c t IH]; intros H Ha.
  - cbn [occurs] in H. rewrite orb_false_r in H. by apply (prefix_of_incl p []).
  - cbn [occurs] in H. apply orb_prop in H as [H|H].
    + by apply (prefix_of_incl p (c :: t)).
    + right. by apply IH.
Qed.

Lemma contains_incl (needle hay : string) a :
  contains needle hay = true -> In a (chars needle) -> In a (chars hay).
Proof. apply occurs_incl. Qed.

Lemma lower_allowed c : allowed (lower c) = allowed c.
Proof. destruct c as [[] [] [] [] [] [] [] []]; vm_compute; reflexivity. Qed.

(** Neither [<] nor [:] is ever let through, in any case of the letters
    around them. *)
Lemma sanitize_without (needle s : string) a :
  allowed a = false -> In a (chars (str_lower needle)) ->
  icontains needle (sanitize_content s) = false.
Proof.
  intros Ha Hin. unfold icontains.
  destruct (contains _ _) eqn:E; [|done].
  pose proof (contains_incl _ _ _ E Hin) as H.
  unfold str_lower in H at 1. rewrite chars_str in H.
  apply in_map_iff in H as (c & <- & Hc).
  apply sanitize_allowed in Hc. rewrite lower_allowed in Ha. congruence.
Qed.

End SanitizerFacts.

(** C7. Whatever the input text (so also when it holds a
    [<script>...</script>] construct, in any casing and with any body),
    the output of [sanitize_content] has no [<script] substring and no
    [javascript:] substring, compared with or without regard to case: the
    removal of the characters outside the whitelist leaves no [<] and no
    [:] behind, so it cannot put either substring together again. *)
Theorem sanitize_content_no_script (s : string) :
  contains "<script" (sanitize_content s) = false
  /\ contains "javascript:" (sanitize_content s) = false
  /\ icontains "<script" (sanitize_content s) = false
  /\ icontains "javascript:" (sanitize_content s) = false
  /\ ~ In "<"%char (chars (sanitize_content s))
  /\ ~ In ":"%char (chars (sanitize_content s)).
Proof.
  assert (Hlt : ~ In "<"%char (chars (sanitize_content s)))
    by (intros H%sanitize_allowed; done).
  assert (Hco : ~ In ":"%char (chars (sanitize_content s)))
    by (intros H%sanitize_allowed; done).
  repeat split; try done.
  - destruct (contains _ _) eqn:E; [|done]. destruct Hlt.
    apply (contains_incl _ _ _ E). simpl. tauto.
  - destruct (contains _ _) eqn:E; [|done]. destruct Hco.
    apply (contains_incl _ _ _ E). simpl. tauto.
  - apply (sanitize_without _ _ "<"%char); [done|simpl; tauto].
  - apply (sanitize_without _ _ ":"%char); [done|simpl; tauto].
Qed.

(** ** What validation lets through *)

Section ValidationFacts.

Variable float_repr : float -> string.
Variable rv : RequestValidator.

Lemma validate_content_sanitized content c :
  validate_content rv content = Ok c -> exists raw, c = sanitize_content raw.
Proof.
  unfold validate_content. destruct (py_len content) as [n|]; simpl; [|done].
  destruct (Z.ltb _ _); [done|]. destruct content; try done.
  intros [= <-]. by eexists.
Qed.

Lemma validate_message_sanitized msg m :
  validate_message float_repr rv msg = Ok m -> exists raw, vm_content m = sanitize_content raw.
Proof.
  destruct msg; try done. simpl.
  destruct (validate_role _ _ _) as [role|]; simpl; [|done].
  destruct (validate_content _ _) as [c|] eqn:E; simpl; [|done].
  intros [= <-]. simpl. by eapply validate_content_sanitized.
Qed.

Lemma validate_messages_sanitized msgs : forall ms m,
  validate_messages float_repr rv msgs = Ok ms -> In m ms ->
  exists raw, vm_content m = sanitize_content raw.
Proof.
  induction msgs as [|msg msgs IH]; intros ms m; simpl.
  - by intros [= <-].
  - destruct (validate_message _ _ _) as [m0|] eqn:E; simpl; [|done].
    destruct (validate_messages _ _ _) as [ms0|]; simpl; [|done].
    intros [= <-] [<-|H]; [by eapply validate_message_sanitized|by eapply IH].
Qed.

(** Every content of a validated request went through the sanitizer. *)
Lemma validated_sanitized req v m :
  validate_chat_request float_repr rv req = Ok v -> In m (v_messages v) ->
  exists raw, vm_content m = sanitize_content raw.
Proof.
  unfold validate_chat_request.
  destruct (validate_model _) as [mo|]; simpl; [|done].
  destruct (match default (PList []) (dict_get req "messages") with
            | PList msgs => _ | _ => _ end) as [ms|] eqn:E; simpl; [|done].
  destruct (validate_optional _ (dict_get req "max_tokens")); simpl; [|done].
  destruct (validate_optional _ (dict_get req "temperature")); simpl; [|done].
  intros [= <-] Hm. simpl in Hm.
  destruct (default _ _); try done.
  destruct (Z.ltb _ _); [done|]. by eapply validate_messages_sanitized.
Qed.

End ValidationFacts.

(** ** The findings of one kind *)

Section KindFacts.

Lemma of_kind_app kind (l1 l2 : list (string * string)) :
  of_kind kind (l1 ++ l2) = of_kind kind l1 ++ of_kind kind l2.
Proof. apply List.filter_app. Qed.

Lemma of_kind_map kind k (l : list string) :
  of_kind kind (map (fun m => (k, m)) l)
  = if String.eqb k kind then map (fun m => (k, m)) l else [].
Proof.
  unfold of_kind. induction l as [|x l IH]; simpl; [by destruct (String.eqb k kind)|].
  rewrite IH. by destruct (String.eqb k kind).
Qed.

Lemma of_kind_email (t : string) :
  of_kind "email" (detect_sensitive_data t) = map (fun m => ("email", m)) (finditer email_re t).
Proof.
  unfold detect_sensitive_data, patterns. cbn [flat_map].
  rewrite !of_kind_app, !of_kind_map. simpl. by rewrite app_nil_r.
Qed.

Lemma of_kind_credit_card (t : string) :
  of_kind "credit_card" (detect_sensitive_data t)
  = map (fun m => ("credit_card", m)) (finditer credit_card_re t).
Proof.
  unfold detect_sensitive_data, patterns. cbn [flat_map].
  rewrite !of_kind_app, !of_kind_map. simpl. by rewrite app_nil_r.
Qed.

(** The e-mail pattern needs an [@]. *)
Lemma email_at_none prev (s : text) :
  ~ In "@"%char s -> match_at email_re prev s = None.
Proof.
  intros H. unfold match_at, email_re, seqs. cbn [fold_right exec].
  destruct (word_boundary prev s); [|done].
  rewrite rep_greedy_fails; [done|].
  intros p s' Hs. destruct s' as [|c s']; [done|].
  destruct (accepts (Lit "@") c) eqn:E; [|done].
  apply Ascii.eqb_eq in E as ->. destruct H.
  destruct Hs as [m ->]. apply in_or_app. right. by left.
Qed.

Lemma scan_email_none (s : text) : forall prev skip,
  ~ In "@"%char s -> no_match (scan email_re prev s skip).
Proof.
  induction s as [|c s IH]; intros prev skip H.
  - destruct skip; [|constructor]. simpl. rewrite email_at_none by done. constructor.
  - assert (~ In "@"%char s) by (intros ?; apply H; by right).
    destruct skip; simpl; [|by apply IH].
    rewrite email_at_none by done. constructor; [done|by apply IH].
Qed.

Lemma finditer_email_none (t : string) :
  ~ In "@"%char (chars t) -> finditer email_re t = [].
Proof. intros H. apply finditer_no_match. by apply scan_email_none. Qed.

End KindFacts.

(** C9. For every string [s], [detect_sensitive_data (sanitize_content s)]
    has no finding of kind [email]: sanitization removes every [@], which
    is not in the whitelist, and the pattern needs one.  The privacy check
    of [/api/chat] runs on the validated messages, whose contents are all
    sanitized, so it never finds an e-mail address in an inbound request. *)
Theorem sanitized_no_email_finding (float_repr : float -> string) (rv : RequestValidator) :
  (forall s, ~ In "@"%char (chars (sanitize_content s)))
  /\ (forall s, of_kind "email" (detect_sensitive_data (sanitize_content s)) = [])
  /\ (forall req v m,
        validate_chat_request float_repr rv req = Ok v ->
        In m (v_messages v) ->
        of_kind "email" (detect_sensitive_data (vm_content m)) = []).
Proof.
  assert (H1 : forall s, ~ In "@"%char (chars (sanitize_content s)))
    by (intros s H%sanitize_allowed; done).
  assert (H2 : forall s, of_kind "email" (detect_sensitive_data (sanitize_content s)) = [])
    by (intros s; rewrite of_kind_email, finditer_email_none; [done|apply H1]).
  repeat split; [done|done|].
  intros req v m Hv Hm.
  destruct (validated_sanitized _ _ _ _ _ Hv Hm) as [raw ->]. apply H2.
Qed.

(** The witness of C9: a message with an e-mail address passes validation
    and the privacy check finds no e-mail address in it. *)
Lemma sanitized_no_email_finding_witness :
  validate_chat_request no_float_repr default_validator
    [("model", PStr "m"); ("messages", PList [user_message "write to bob@example.com"])]
  = Ok {| v_model := "m";
          v_messages := [{| vm_role := "user"; vm_content := "write to bobexample.com" |}];
          v_max_tokens := None; v_temperature := None |}
  /\ of_kind "email" (detect_sensitive_data "write to bobexample.com") = [].
Proof.
  split; [vm_compute; reflexivity|].
  apply (proj2 (proj2 (sanitized_no_email_finding no_float_repr default_validator))
           [("model", PStr "m"); ("messages", PList [user_message "write to bob@example.com"])]
           {| v_model := "m";
              v_messages := [{| vm_role := "user"; vm_content := "write to bobexample.com" |}];
              v_max_tokens := None; v_temperature := None |}
           {| vm_role := "user"; vm_content := "write to bobexample.com" |}).
  - vm_compute; reflexivity.
  - left; reflexivity.
Defined.

(** ** Redaction *)

Section RedactFacts.

Lemma map_pair_nil {A B} (f : A -> B) (l : list A) : map f l = [] -> l = [].
Proof. by destruct l. Qed.

(** Where detection finds nothing, no pattern has a match. *)
Lemma detect_nil_no_match (t : string) :
  detect_sensitive_data t = [] ->
  Forall (fun p => no_match (scan (snd p) None (chars t) 0)) patterns.
Proof.
  unfold detect_sensitive_data, patterns. cbn [flat_map]. intros H.
  repeat (apply app_eq_nil in H as [?%map_pair_nil%finditer_no_match H]).
  repeat constructor; done.
Qed.

Lemma redact_without_findings (t : string) :
  detect_sensitive_data t = [] -> redact_sensitive_data t = t.
Proof.
  intros H%detect_nil_no_match. unfold redact_sensitive_data.
  revert H. generalize patterns. intros l H.
  induction H as [|[kind r] l Hr Hl IH]; simpl; [done|].
  by rewrite sub_no_match.
Qed.

End RedactFacts.

(** The counterexample of C8: on a social-security number followed at once
    by a password assignment the first pass redacts the password only (no
    word boundary ends the number), and the second pass then redacts the
    number, which the placeholder now delimits. *)
Lemma redact_twice_differs :
  redact_sensitive_data "123-45-6789password=x" = "123-45-6789[REDACTED_PASSWORD]"
  /\ redact_sensitive_data (redact_sensitive_data "123-45-6789password=x")
     = "[REDACTED_SSN][REDACTED_PASSWORD]".
Proof. split; vm_compute; reflexivity. Qed.

(** C8, amended. [redact_sensitive_data] leaves a text unchanged when
    [detect_sensitive_data] finds nothing in it; so redacting twice is
    redacting once for every text whose redaction holds no finding.  Each
    of the seven placeholders is such a text: none matches a pattern. *)
Theorem redact_idempotent_without_findings :
  (forall t, detect_sensitive_data (redact_sensitive_data t) = [] ->
             redact_sensitive_data (redact_sensitive_data t) = redact_sensitive_data t)
  /\ Forall (fun p => detect_sensitive_data (placeholder (fst p)) = []
                     /\ redact_sensitive_data (placeholder (fst p)) = placeholder (fst p))
            patterns.
Proof.
  split.
  - intros t H. by apply redact_without_findings.
  - repeat constructor; vm_compute; reflexivity.
Qed.

Lemma redact_idempotent_without_findings_witness :
  detect_sensitive_data (redact_sensitive_data "Pay with card 4532-1234-5678-9012 please") = []
  /\ redact_sensitive_data (redact_sensitive_data "Pay with card 4532-1234-5678-9012 please")
     = redact_sensitive_data "Pay with card 4532-1234-5678-9012 please".
Proof.
  split; [vm_compute; reflexivity|].
  apply (proj1 redact_idempotent_without_findings). vm_compute; reflexivity.
Defined.

(** ** Card numbers *)

Section CardFacts.

Implicit Types (k : kont) (prev : option ascii) (s t : text).

Lemma digit_is_word c : is_digit c = true -> is_word c = true.
Proof. destruct c as [[] [] [] [] [] [] [] []]; vm_compute; congruence. Qed.

Lemma digit_not_sep c : is_digit c = true -> is_sep c = false.
Proof. destruct c as [[] [] [] [] [] [] [] []]; vm_compute; congruence. Qed.

Lemma accepts_digit c : accepts (OneOf [CDigit]) c = is_digit c.
Proof. simpl. apply orb_false_r. Qed.

Lemma accepts_sep c : accepts (OneOf [CChar "-"; CSpace]) c = is_sep c.
Proof. unfold is_sep. simpl. by rewrite orb_false_r. Qed.

Lemma rep_greedy_done a lo k prev s :
  rep_greedy a lo (Some 0) k prev s = match lo with 0 => k prev s | S _ => None end.
Proof. by destruct s. Qed.

(** Four digits: the group is read whole or the match fails. *)
Lemma exec_digits4 k prev s :
  exec (digits 4) k prev s
  = match take4 s with Some (d, s') => k (Some d) s' | None => None end.
Proof.
  unfold digits, take4. cbn [exec].
  destruct s as [|a [|b [|c [|d s]]]]; cbn [rep_greedy option_map Nat.pred];
    rewrite ?accepts_digit.
  - done.
  - by destruct (is_digit a).
  - by destruct (is_digit a), (is_digit b).
  - by destruct (is_digit a), (is_digit b), (is_digit c).
  - destruct (is_digit a), (is_digit b), (is_digit c), (is_digit d); simpl; try done.
    rewrite rep_greedy_done. by destruct (k (Some d) s).
Qed.

(** An optional separator before a group: taking it or not is decided by
    the next character alone. *)
Lemma exec_separator_digits4 k prev s :
  rep_greedy (OneOf [CChar "-"; CSpace]) 0 (Some 1) (exec (digits 4) k) prev s
  = exec (digits 4) k prev (skip_separator s).
Proof.
  destruct s as [|c s]; [done|].
  cbn [rep_greedy option_map Nat.pred skip_separator]. rewrite accepts_sep.
  destruct (is_sep c) eqn:Hc; [|done].
  rewrite !exec_digits4.
  assert (take4 (c :: s) = None) as ->.
  { unfold take4. destruct s as [|? [|? [|? ?]]]; try done.
    destruct (is_digit c) eqn:Hd; [|done]. apply digit_not_sep in Hd. congruence. }
  rewrite rep_greedy_done, exec_digits4.
  destruct (take4 s) as [[d s']|]; [|done]. by destruct (k (Some d) s').
Qed.

Lemma exec_card_groups k prev s :
  exec (Times 3 (Seq (digits 4) (Rep (OneOf [CChar "-"; CSpace]) 0 (Some 1))))
       (exec (digits 4) k) prev s
  = match parse_card s with Some (d, rest) => k (Some d) rest | None => None end.
Proof.
  cbn [exec].
  match goal with |- Nat.iter 3 ?f ?x prev s = _ => change (Nat.iter 3 f x) with (f (f (f x))) end.
  cbv beta. unfold parse_card.
  rewrite exec_digits4. destruct (take4 s) as [[d1 t1]|]; [|done].
  rewrite exec_separator_digits4, exec_digits4.
  destruct (take4 (skip_separator t1)) as [[d2 t2]|]; [|done].
  rewrite exec_separator_digits4, exec_digits4.
  destruct (take4 (skip_separator t2)) as [[d3 t3]|]; [|done].
  rewrite exec_separator_digits4, exec_digits4. done.
Qed.

(** The pattern, read as a function of the text. *)
Lemma match_at_credit_card prev s :
  match_at credit_card_re prev s
  = if word_boundary prev s then
      match parse_card s with
      | Some (d, rest) =>
          if word_boundary (Some d) rest
          then Some (List.length s - List.length rest) else None
      | None => None
      end
    else None.
Proof.
  unfold match_at, credit_card_re, seqs. cbn [fold_right]. cbn [exec].
  destruct (word_boundary prev s); [|done].
  change (Nat.iter 3 ?f ?k prev s) with
    (exec (Times 3 (Seq (digits 4) (Rep (OneOf [CChar "-"; CSpace]) 0 (Some 1))))
          (exec (digits 4) (exec WordB (exec Eps (fun _ rest => Some rest)))) prev s).
  rewrite exec_card_groups. destruct (parse_card s) as [[d rest]|]; [|done].
  cbn [exec]. by destruct (word_boundary (Some d) rest).
Qed.

Lemma sep_not_digit c : is_sep c = true -> is_digit c = false.
Proof. destruct c as [[] [] [] [] [] [] [] []]; vm_compute; congruence. Qed.

Lemma take4_inv t d t' :
  take4 t = Some (d, t') ->
  exists a b c, t = a :: b :: c :: d :: t'
    /\ is_digit a = true /\ is_digit b = true /\ is_digit c = true /\ is_digit d = true.
Proof.
  unfold take4. destruct t as [|a [|b [|c [|x t]]]]; try done.
  destruct (is_digit a) eqn:?, (is_digit b) eqn:?, (is_digit c) eqn:?,
    (is_digit x) eqn:?; try done.
  simpl. intros [= <- <-]. by exists a, b, c.
Qed.

Lemma skip_separator_inv t :
  (skip_separator t = t /\ match t with c :: _ => is_sep c = false | [] => True end)
  \/ (exists c, t = c :: skip_separator t /\ is_sep c = true).
Proof.
  destruct t as [|c t]; [by left|]. simpl.
  destruct (is_sep c) eqn:E; [right; by exists c|by left].
Qed.

Lemma count_digits_app t1 t2 : count_digits (t1 ++ t2) = count_digits t1 + count_digits t2.
Proof. unfold count_digits. by rewrite List.filter_app, length_app. Qed.

(** A group, and a group behind its optional separator, as a prefix. *)
Lemma take4_split t d t' :
  take4 t = Some (d, t') ->
  exists g, t = g ++ t' /\ count_digits g = 4 /\ is_digit d = true
            /\ (forall post, take4 (g ++ post) = Some (d, post))
            /\ forall prev, last_char prev g = Some d.
Proof.
  intros (a & b & c & -> & Ha & Hb & Hc & Hd)%take4_inv.
  exists [a; b; c; d]. repeat split; [|done|].
  - unfold count_digits. cbn [List.filter]. by rewrite Ha, Hb, Hc, Hd.
  - intros post. unfold take4. cbn [app]. by rewrite Ha, Hb, Hc, Hd.
Qed.

Lemma take4_skip_split t d t' :
  take4 (skip_separator t) = Some (d, t') ->
  exists g, t = g ++ t' /\ count_digits g = 4 /\ is_digit d = true
            /\ (forall post, take4 (skip_separator (g ++ post)) = Some (d, post))
            /\ forall prev, last_char prev g = Some d.
Proof.
  intros H. destruct (take4_split _ _ _ H) as (g & Hg & Hn & Hd & Hpost & Hlast).
  destruct (skip_separator_inv t) as [[Hs _]|(x & Hx & Hsep)].
  - exists g. rewrite Hs in Hg. repeat split; try done.
    intros post. rewrite <- (Hpost post). f_equal.
    apply take4_inv in H as (a & ? & ? & H & Ha & _).
    rewrite Hs in H. subst t. destruct g as [|a' g]; [done|].
    injection Hg as <- _. cbn [app skip_separator]. by rewrite (digit_not_sep _ Ha).
  - exists (x :: g). rewrite Hx, Hg. repeat split; try done.
    + change (x :: g) with ([x] ++ g). rewrite count_digits_app, Hn.
      unfold count_digits. cbn [List.filter]. by rewrite (sep_not_digit _ Hsep).
    + intros post. cbn [app skip_separator]. by rewrite Hsep.
    + intros prev. apply (Hlast (Some x)).
Qed.

Lemma last_char_app prev t1 t2 :
  last_char prev (t1 ++ t2) = last_char (last_char prev t1) t2.
Proof. apply fold_left_app. Qed.

(** A text that starts with a card number is that number, of sixteen
    digits, and what follows it. *)
Lemma parse_card_split s d rest :
  parse_card s = Some (d, rest) ->
  exists card, s = card ++ rest /\ parse_card card = Some (d, [])
               /\ count_digits card = 16 /\ is_digit d = true
               /\ forall prev, last_char prev card = Some d.
Proof.
  unfold parse_card.
  destruct (take4 s) as [[d1 t1]|] eqn:E1; [|done].
  destruct (take4 (skip_separator t1)) as [[d2 t2]|] eqn:E2; [|done].
  destruct (take4 (skip_separator t2)) as [[d3 t3]|] eqn:E3; [|done].
  intros E4.
  apply take4_split in E1 as (g1 & -> & N1 & _ & P1 & _).
  apply take4_skip_split in E2 as (g2 & -> & N2 & _ & P2 & _).
  apply take4_skip_split in E3 as (g3 & -> & N3 & _ & P3 & _).
  apply take4_skip_split in E4 as (g4 & -> & N4 & Hd & P4 & L4).
  exists (g1 ++ g2 ++ g3 ++ g4 ++ []). repeat split; [| | |done|].
  - by rewrite <- !app_assoc.
  - by rewrite P1, P2, P3, P4.
  - rewrite !count_digits_app, N1, N2, N3, N4. done.
  - intros prev. rewrite app_nil_r, !last_char_app. apply L4.
Qed.

Lemma take4_app t d t' post :
  take4 t = Some (d, t') -> take4 (t ++ post) = Some (d, t' ++ post).
Proof.
  intros (a & b & c & -> & Ha & Hb & Hc & Hd)%take4_inv.
  unfold take4. simpl. by rewrite Ha, Hb, Hc, Hd.
Qed.

Lemma skip_separator_app t post :
  t <> [] -> skip_separator (t ++ post) = skip_separator t ++ post.
Proof. destruct t as [|c t]; [done|]. simpl. by destruct (is_sep c). Qed.

Lemma take4_nonempty t : is_Some (take4 (skip_separator t)) -> t <> [].
Proof. destruct t; [by intros [? ?]|done]. Qed.

(** What follows a card number has no part in reading it. *)
Lemma parse_card_app card d post :
  parse_card card = Some (d, []) -> parse_card (card ++ post) = Some (d, post).
Proof.
  unfold parse_card.
  destruct (take4 card) as [[d1 t1]|] eqn:E1; [|done].
  rewrite (take4_app _ _ _ post E1).
  destruct (take4 (skip_separator t1)) as [[d2 t2]|] eqn:E2; [|done].
  rewrite skip_separator_app by (apply take4_nonempty; by rewrite E2).
  rewrite (take4_app _ _ _ post E2).
  destruct (take4 (skip_separator t2)) as [[d3 t3]|] eqn:E3; [|done].
  rewrite skip_separator_app by (apply take4_nonempty; by rewrite E3).
  rewrite (take4_app _ _ _ post E3).
  intros E4.
  rewrite skip_separator_app by (apply take4_nonempty; by rewrite E4).
  by rewrite (take4_app _ _ _ post E4).
Qed.

Lemma is_card_parse card :
  is_card card = true -> exists d, parse_card card = Some (d, []).
Proof.
  unfold is_card. destruct (parse_card card) as [[d [|? ?]]|]; try done. by exists d.
Qed.

(** No match starts at a character that is not a digit. *)
Lemma credit_card_needs_digit prev c s :
  is_digit c = false -> match_at credit_card_re prev (c :: s) = None.
Proof.
  intros H. rewrite match_at_credit_card.
  assert (parse_card (c :: s) = None) as ->; [|by destruct (word_boundary _ _)].
  unfold parse_card, take4. destruct s as [|? [|? [|? ?]]]; try done. by rewrite H.
Qed.

Lemma credit_card_not_at_end prev : match_at credit_card_re prev [] = None.
Proof. rewrite match_at_credit_card. by destruct (word_boundary _ _). Qed.

(** A card number between two boundaries is one match. *)
Lemma credit_card_at prev card post :
  is_card card = true -> boundary_before prev [] -> boundary_after post ->
  match_at credit_card_re prev (card ++ post) = Some (List.length card)
  /\ exists c card', card = c :: card'.
Proof.
  intros (d & Hp)%is_card_parse Hb Ha.
  destruct (parse_card_split _ _ _ Hp) as (_ & _ & _ & _ & Hd & _).
  pose proof Hp as Hc. unfold parse_card in Hc.
  destruct (take4 card) as [[d1 t1]|] eqn:E1; [|done].
  apply take4_inv in E1 as (a & b & c & -> & Hda & _). clear Hc.
  split; [|by eauto].
  rewrite match_at_credit_card, (parse_card_app _ _ post Hp).
  assert (word_boundary prev ((a :: b :: c :: d1 :: t1) ++ post) = true) as ->.
  { unfold word_boundary. simpl. rewrite (digit_is_word _ Hda).
    unfold boundary_before in Hb. simpl in Hb. destruct prev; [by rewrite Hb|done]. }
  assert (word_boundary (Some d) post = true) as ->.
  { unfold word_boundary. rewrite (digit_is_word _ Hd).
    unfold boundary_after in Ha. destruct post; [done|by rewrite Ha]. }
  f_equal. rewrite length_app. lia.
Qed.

(** One sequence: the text before it is kept, the sequence is one match,
    and the scan goes on behind it. *)
Lemma scan_credit_card pre : forall prev card post,
  is_card card = true ->
  Forall (fun c => is_digit c = false) pre ->
  boundary_before prev pre -> boundary_after post ->
  scan credit_card_re prev (pre ++ card ++ post) 0
  = map Keep pre ++ Found card :: scan credit_card_re (last_char prev (pre ++ card)) post 0.
Proof.
  induction pre as [|c pre IH]; intros prev card post Hcard Hpre Hb Ha.
  - destruct (credit_card_at prev card post Hcard Hb Ha) as (Hm & a & card' & ->).
    cbn [app map scan] in *. rewrite Hm. cbn [List.length]. f_equal.
    + f_equal. apply (take_app_length (a :: card') post).
    + exact (scan_skip _ card' (Some a) post).
  - inversion Hpre as [|? ? Hc Hpre']; subst.
    cbn [app map scan]. rewrite (credit_card_needs_digit _ _ _ Hc). f_equal.
    by apply IH.
Qed.

(** The pattern matches at a place exactly when a card number starts
    there. *)
Lemma parse_card_first s d post :
  parse_card s = Some (d, post) -> exists a s', s = a :: s' /\ is_digit a = true.
Proof.
  unfold parse_card. destruct (take4 s) as [[d1 t1]|] eqn:E1; [|done]. intros _.
  apply take4_inv in E1 as (a & b & c & -> & Ha & _). by eauto.
Qed.

Lemma match_at_card_starts prev s :
  match_at credit_card_re prev s
  = if card_starts prev s
    then match parse_card s with
         | Some (_, post) => Some (List.length s - List.length post)
         | None => None
         end
    else None.
Proof.
  rewrite match_at_credit_card. unfold card_starts.
  destruct (parse_card s) as [[d post]|] eqn:E; [|by destruct (word_boundary prev s)].
  destruct (parse_card_first _ _ _ E) as (a & s' & -> & Ha).
  destruct (parse_card_split _ _ _ E) as (_ & _ & _ & _ & Hd & _).
  unfold word_boundary. rewrite (digit_is_word _ Ha), (digit_is_word _ Hd).
  destruct (match prev with Some c => is_word c | None => false end); [done|].
  by destruct (match post with c :: _ => is_word c | [] => false end).
Qed.

(** A gap in which no card number starts is kept as it is. *)
Lemma scan_gap gap : forall prev after,
  free_of_cards prev gap after = true ->
  scan credit_card_re prev (gap ++ after) 0
  = map Keep gap ++ scan credit_card_re (last_char prev gap) after 0.
Proof.
  induction gap as [|c gap IH]; intros prev after H; [done|].
  cbn [free_of_cards] in H. apply andb_true_iff in H as [Hc Hgap].
  apply negb_true_iff in Hc.
  cbn [app map scan]. rewrite match_at_card_starts, Hc. f_equal.
  by apply IH.
Qed.

(** Several sequences, one after the other. *)
Lemma scan_cards rest : forall prev gap0,
  well_separated prev gap0 rest ->
  scan credit_card_re prev (with_cards gap0 rest) 0
  = map Keep gap0 ++ flat_map (fun cg => Found (fst cg) :: map Keep (snd cg)) rest.
Proof.
  unfold with_cards.
  induction rest as [|[card gap] rest IH]; intros prev gap0 [Hgap H].
  - rewrite (scan_gap _ _ _ Hgap). cbn [flat_map scan].
    by rewrite credit_card_not_at_end.
  - destruct H as (Hcard & Hb & Ha & Hrest).
    rewrite (scan_gap _ _ _ Hgap). cbn [flat_map fst snd]. f_equal.
    rewrite <- app_assoc.
    pose proof (scan_credit_card [] (last_char prev gap0) card
                  (gap ++ flat_map (fun cg => fst cg ++ snd cg) rest)
                  Hcard (List.Forall_nil _) Hb Ha) as Hscan.
    cbn [map app] in Hscan. rewrite Hscan, <- last_char_app. cbn [app]. f_equal.
    by apply IH.
Qed.

(** Every text is made of card numbers and of gaps in which none
    starts. *)
Lemma text_with_cards n : forall s prev,
  List.length s <= n ->
  exists gap0 rest, s = with_cards gap0 rest /\ well_separated prev gap0 rest.
Proof.
  induction n as [|n IH]; intros s prev Hn.
  - destruct s; [|simpl in Hn; lia]. by exists [], [].
  - destruct s as [|c s]; [by exists [], []|].
    destruct (card_starts prev (c :: s)) eqn:Hc.
    + pose proof Hc as Hc'. unfold card_starts in Hc'.
      destruct (parse_card (c :: s)) as [[d post]|] eqn:E; [|done].
      apply andb_true_iff in Hc' as [Hb Ha].
      apply negb_true_iff in Hb. apply negb_true_iff in Ha.
      destruct (parse_card_split _ _ _ E) as (card & Hs & Hp & Hcount & _ & Hlast).
      assert (Hlen : List.length post <= n).
      { apply (f_equal (@List.length ascii)) in Hs. rewrite length_app in Hs.
        simpl in Hs, Hn. destruct card; [done|]. simpl in Hs. lia. }
      destruct (IH post (Some d) Hlen) as (gap1 & rest1 & Hpost & Hws).
      exists [], ((card, gap1) :: rest1). split.
      * unfold with_cards in *. cbn [app flat_map fst snd].
        by rewrite <- app_assoc, <- Hpost.
      * cbn [well_separated free_of_cards]. split; [done|].
        split; [unfold is_card; by rewrite Hp|].
        split; [unfold boundary_before; cbn [last_char fold_left];
                by destruct prev|].
        split; [|cbn [app]; by rewrite Hlast].
        unfold with_cards in Hpost. rewrite <- Hpost. unfold boundary_after.
        by destruct post.
    + assert (Hlen : List.length s <= n) by (simpl in Hn; lia).
      destruct (IH s (Some c) Hlen) as (gap1 & rest1 & Hs & Hws).
      exists (c :: gap1), rest1. split; [unfold with_cards in *; by rewrite Hs|].
      unfold with_cards in Hs.
      destruct rest1 as [|[card gap] rest1]; destruct Hws as [Hfree Hws];
        (split; [cbn [free_of_cards]; rewrite <- Hs, Hc; exact Hfree|]); [done|].
      exact Hws.
Qed.

Lemma finditer_pieces (l : list piece) (gap : text) :
  flat_map (fun p => match p with Found m => [str m] | Keep _ => [] end) (map Keep gap ++ l)
  = flat_map (fun p => match p with Found m => [str m] | Keep _ => [] end) l.
Proof. induction gap as [|c gap IH]; [done|apply IH]. Qed.

Lemma sub_pieces (repl : string) (l : list piece) (gap : text) :
  flat_map (fun p => match p with Found _ => chars repl | Keep c => [c] end) (map Keep gap ++ l)
  = gap ++ flat_map (fun p => match p with Found _ => chars repl | Keep c => [c] end) l.
Proof. induction gap as [|c gap IH]; [done|]. simpl. by rewrite <- IH. Qed.

Lemma finditer_cards gap0 rest :
  well_separated None gap0 rest ->
  finditer credit_card_re (str (with_cards gap0 rest)) = map (fun cg => str (fst cg)) rest.
Proof.
  intros H. unfold finditer. rewrite chars_str, (scan_cards _ _ _ H), finditer_pieces.
  clear H. induction rest as [|[card gap] rest IH]; [done|].
  cbn [flat_map map fst snd app]. by rewrite finditer_pieces, IH.
Qed.

Lemma sub_cards gap0 rest :
  well_separated None gap0 rest ->
  sub credit_card_re (placeholder "credit_card") (str (with_cards gap0 rest))
  = str (with_placeholders gap0 rest).
Proof.
  intros H. unfold sub, with_placeholders.
  rewrite chars_str, (scan_cards _ _ _ H), sub_pieces. f_equal. f_equal.
  clear H. induction rest as [|[card gap] rest IH]; [done|].
  cbn [flat_map fst snd app]. by rewrite sub_pieces, IH, <- app_assoc.
Qed.

End CardFacts.

(** The counterexample of C6: a sequence of thirteen digits, and one of
    fifteen digits in groups of four, are not matched: nothing is found
    and nothing is redacted.  And a card number behind [token:] is found,
    but its placeholder does not stay in the redacted text. *)
Lemma credit_card_thirteen_digits_unmatched :
  detect_sensitive_data "4222222222222" = []
  /\ redact_sensitive_data "4222222222222" = "4222222222222"
  /\ detect_sensitive_data "4222 2222 2222 222" = []
  /\ redact_sensitive_data "4222 2222 2222 222" = "4222 2222 2222 222"
  /\ redact_sensitive_data "token: 4532-1234-5678-9012" = "[REDACTED_TOKEN]".
Proof. repeat split; vm_compute; reflexivity. Qed.

(** C6, amended. The [credit_card] pattern matches exactly sixteen digits,
    as four groups of four, each of the first three groups followed by at
    most one hyphen or white-space character, and only between word
    boundaries.  Every text is made of such sequences and of gaps in which
    none starts (a gap may hold digits), and for every text made so
    detection reports exactly one [credit_card] finding for each sequence,
    in order, and the [credit_card] substitution of the redaction, its
    first, replaces each sequence with the literal
    [[REDACTED_CREDIT_CARD]] and leaves the gaps as they are. *)
Theorem credit_card_sixteen_digits :
  (forall prev s n,
      match_at credit_card_re prev s = Some n ->
      is_card (firstn n s) = true /\ count_digits (firstn n s) = 16
      /\ word_boundary prev s = true
      /\ word_boundary (last_char prev (firstn n s)) (skipn n s) = true)
  /\ (forall gap0 rest,
        well_separated None gap0 rest ->
        let t := str (with_cards gap0 rest) in
        of_kind "credit_card" (detect_sensitive_data t)
        = map (fun cg => ("credit_card", str (fst cg))) rest
        /\ sub credit_card_re "[REDACTED_CREDIT_CARD]" t = str (with_placeholders gap0 rest)
        /\ redact_sensitive_data t
           = fold_left (fun redacted '(data_type, pattern) =>
                          sub pattern (placeholder data_type) redacted)
                       (tl patterns) (str (with_placeholders gap0 rest)))
  /\ (forall t : string,
        exists gap0 rest,
          t = str (with_cards gap0 rest) /\ well_separated None gap0 rest).
Proof.
  split; [|split].
  - intros prev s n. rewrite match_at_credit_card.
    destruct (word_boundary prev s) eqn:Hb; [|done].
    destruct (parse_card s) as [[d rest]|] eqn:E; [|done].
    destruct (word_boundary (Some d) rest) eqn:Ha; [|done]. intros [= <-].
    apply parse_card_split in E as (card & -> & Hp & Hn & _ & Hl).
    rewrite length_app, Nat.add_sub, take_app_length, drop_app_length, Hl.
    repeat split; try done. unfold is_card. by rewrite Hp.
  - intros gap0 rest H t. subst t. repeat split.
    + rewrite of_kind_credit_card, (finditer_cards _ _ H).
      by rewrite map_map.
    + by apply sub_cards.
    + unfold redact_sensitive_data, patterns. cbn [fold_left tl].
      by rewrite (sub_cards _ _ H).
  - intros t.
    destruct (text_with_cards (List.length (chars t)) (chars t) None (le_n _))
      as (gap0 & rest & Ht & Hws).
    exists gap0, rest. split; [|done]. by rewrite <- Ht, str_chars.
Qed.

Lemma credit_card_sixteen_digits_witness :
  of_kind "credit_card"
    (detect_sensitive_data "room 12: 4532-1234-5678-9012 or 1 4000 1234 56789010")
  = [("credit_card", "4532-1234-5678-9012"); ("credit_card", "4000 1234 56789010")]
  /\ sub credit_card_re "[REDACTED_CREDIT_CARD]"
       "room 12: 4532-1234-5678-9012 or 1 4000 1234 56789010"
     = "room 12: [REDACTED_CREDIT_CARD] or 1 [REDACTED_CREDIT_CARD]".
Proof.
  assert (H : well_separated None (chars "room 12: ")
                [(chars "4532-1234-5678-9012", chars " or 1 ");
                 (chars "4000 1234 56789010", [])]).
  { cbn [well_separated]. repeat split; vm_compute; reflexivity. }
  destruct (proj1 (proj2 credit_card_sixteen_digits) _ _ H) as (Hd & Hs & _).
  split; [exact Hd|exact Hs].
Defined.

(** ** The order of validation *)

Section OrderFacts.

Variable float_repr : float -> string.
Variable rv : RequestValidator.

(** The first message that fails decides; the messages behind it are not
    looked at. *)
Lemma validate_messages_first_failure pre : forall msg post e,
  Forall (fun x => is_ok (validate_message float_repr rv x)) pre ->
  validate_message float_repr rv msg = Raise e ->
  validate_messages float_repr rv (pre ++ msg :: post) = Raise e.
Proof.
  induction pre as [|x pre IH]; intros msg post e Hpre Hmsg.
  - simpl. by rewrite Hmsg.
  - inversion Hpre as [|? ? Hx Hpre']; subst. cbn [app validate_messages].
    destruct (validate_message float_repr rv x); [|done]. simpl.
    by rewrite (IH _ _ _ Hpre' Hmsg).
Qed.

Lemma validate_messages_ok msgs ms :
  validate_messages float_repr rv msgs = Ok ms ->
  Forall (fun x => is_ok (validate_message float_repr rv x)) msgs.
Proof.
  revert ms. induction msgs as [|x msgs IH]; intros ms; [constructor|].
  simpl. destruct (validate_message float_repr rv x) eqn:E; [|done]. simpl.
  destruct (validate_messages float_repr rv msgs) eqn:E'; [|done].
  intros _. constructor; [by rewrite E|by eapply IH].
Qed.

End OrderFacts.

(** The counterexample of C3: with a first message of role [hacker] and a
    second message that is not a record, the code reports the role, where
    the order of the list (every message a record, then every role)
    reports the message that is not a record. *)
Lemma validate_order_differs :
  validate_chat_request no_float_repr default_validator
    [("model", PStr "m"); ("messages", PList [PDict [("role", PStr "hacker")]; PInt 42])]
  = Raise (Exn ValueError "Invalid role: hacker")
  /\ validate_in_listed_order no_float_repr default_validator
       [("model", PStr "m"); ("messages", PList [PDict [("role", PStr "hacker")]; PInt 42])]
     = Raise (Exn ValueError "Message must be a dictionary").
Proof. split; vm_compute; reflexivity. Qed.

(** C3, amended. [validate_chat_request] raises on the first failure, in
    this order: the model format; the messages being a list of at most
    [max_messages] entries; then the messages one by one, and for each
    message that it is a record, then its role, then its content length
    (so a bad role in an earlier message wins over a later message that is
    not a record); then [max_tokens] in [1, 4096]; then [temperature] in
    [0, 2].  Nothing is accumulated: the error raised is the one of the
    first failing check. *)
Theorem validate_first_failure (float_repr : float -> string) (rv : RequestValidator)
    (req : list (string * pyval)) :
  let validate := validate_chat_request float_repr rv in
  let model := default (PStr "") (dict_get req "model") in
  let messages := default (PList []) (dict_get req "messages") in
  let max_tokens := dict_get req "max_tokens" in
  let temperature := dict_get req "temperature" in
  (forall e, validate_model model = Raise e -> validate req = Raise e)
  /\ (forall m, validate_model model = Ok m ->
      (is_list messages = false -> validate req = Raise (messages_error rv))
      /\ (forall msgs,
            messages = PList msgs ->
            (max_messages rv < Z.of_nat (List.length msgs))%Z ->
            validate req = Raise (messages_error rv))
      /\ (forall pre msg post e,
            messages = PList (pre ++ msg :: post) ->
            (Z.of_nat (List.length (pre ++ msg :: post)) <= max_messages rv)%Z ->
            Forall (fun x => is_ok (validate_message float_repr rv x)) pre ->
            validate_message float_repr rv msg = Raise e ->
            validate req = Raise e)
      /\ (forall msgs ms,
            messages = PList msgs ->
            (Z.of_nat (List.length msgs) <= max_messages rv)%Z ->
            validate_messages float_repr rv msgs = Ok ms ->
            (forall x e,
                max_tokens = Some x -> validate_max_tokens x = Raise e ->
                validate req = Raise e)
            /\ (forall mt x e,
                  validate_optional validate_max_tokens max_tokens = Ok mt ->
                  temperature = Some x -> validate_temperature x = Raise e ->
                  validate req = Raise e)
            /\ (forall mt t,
                  validate_optional validate_max_tokens max_tokens = Ok mt ->
                  validate_optional validate_temperature temperature = Ok t ->
                  validate req = Ok {| v_model := m; v_messages := ms;
                                       v_max_tokens := mt; v_temperature := t |})))
  /\ (forall msg,
        is_dict msg = false ->
        validate_message float_repr rv msg
        = Raise (Exn ValueError "Message must be a dictionary"))
  /\ (forall d e,
        validate_role float_repr rv (default PNone (dict_get d "role")) = Raise e ->
        validate_message float_repr rv (PDict d) = Raise e)
  /\ (forall d r e,
        validate_role float_repr rv (default PNone (dict_get d "role")) = Ok r ->
        validate_content rv (default (PStr "") (dict_get d "content")) = Raise e ->
        validate_message float_repr rv (PDict d) = Raise e)
  /\ (forall s,
        re_match model_re s = false ->
        validate_model (PStr s) = Raise (Exn ValueError "Invalid model name format"))
  /\ (forall r,
        existsb (String.eqb r) (allowed_roles rv) = false ->
        validate_role float_repr rv (PStr r)
        = Raise (Exn ValueError ("Invalid role: " ++ r)%string))
  /\ (forall c,
        (max_message_length rv < Z.of_nat (String.length c))%Z ->
        validate_content rv (PStr c)
        = Raise (Exn ValueError
                   ("Message too long (max: " ++ Z_to_string (max_message_length rv) ++ ")")%string))
  /\ (forall z,
        (z < 1 \/ 4096 < z)%Z ->
        validate_max_tokens (PInt z) = Raise (Exn ValueError "Invalid max_tokens value"))
  /\ (forall z,
        (z < 0 \/ 2 < z)%Z ->
        validate_temperature (PInt z) = Raise (Exn ValueError "Invalid temperature value"))
  /\ (forall f,
        PrimFloat.ltb f 0%float = true \/ PrimFloat.ltb 2%float f = true ->
        validate_temperature (PFloat f) = Raise (Exn ValueError "Invalid temperature value")).
Proof.
  intros validate model messages max_tokens temperature.
  subst validate model messages max_tokens temperature.
  unfold validate_chat_request.
  split; [by intros e ->|].
  split.
  { intros m ->. cbn [bind]. split; [|split; [|split]].
    - intros H. by destruct (default (PList []) (dict_get req "messages")).
    - intros msgs -> Hlen. apply Z.ltb_lt in Hlen. by rewrite Hlen.
    - intros pre msg post e -> Hlen Hpre Hmsg. apply Z.ltb_ge in Hlen. rewrite Hlen.
      by rewrite (validate_messages_first_failure _ _ _ _ _ _ Hpre Hmsg).
    - intros msgs ms -> Hlen Hms. apply Z.ltb_ge in Hlen. rewrite Hlen, Hms. cbn [bind].
      split; [|split].
      + intros x e -> Hx. simpl. by rewrite Hx.
      + intros mt x e -> -> Hx. simpl. by rewrite Hx.
      + by intros mt t -> ->. }
  split; [by intros []|].
  split; [intros d e H; simpl; by rewrite H|].
  split; [intros d r e H1 H2; simpl; by rewrite H1, H2|].
  split; [intros s H; simpl; by rewrite H|].
  split; [intros r H; simpl; by rewrite H|].
  split.
  { intros c H. unfold validate_content. cbn [py_len bind].
    apply Z.ltb_lt in H. by rewrite H. }
  split; [|split].
  - intros z H. unfold validate_max_tokens. cbn [as_int].
    assert ((z <? 1)%Z || (4096 <? z)%Z = true) as ->; [|done].
    apply orb_true_iff. rewrite !Z.ltb_lt. lia.
  - intros z H. unfold validate_temperature. cbn [as_int].
    assert ((z <? 0)%Z || (2 <? z)%Z = true) as ->; [|done].
    apply orb_true_iff. rewrite !Z.ltb_lt. lia.
  - intros f H. unfold validate_temperature.
    apply orb_true_iff in H. by rewrite H.
Qed.

(** The witness of C3: the three requests the specification names, a
    request with 101 messages, one with the role [hacker] and one with
    [max_tokens = 5000], each with the error of its check. *)
Lemma validate_first_failure_witness :
  validate_chat_request no_float_repr default_validator
    [("model", PStr "m"); ("messages", PList (repeat (user_message "hi") 101))]
  = Raise (Exn ValueError "Invalid messages format or too many messages (max: 100)")
  /\ validate_chat_request no_float_repr default_validator
       [("model", PStr "m");
        ("messages", PList [user_message "hi"; PDict [("role", PStr "hacker")]; PInt 42])]
     = Raise (Exn ValueError "Invalid role: hacker")
  /\ validate_chat_request no_float_repr default_validator
       [("model", PStr "m"); ("messages", PList [user_message "hi"]);
        ("max_tokens", PInt 5000); ("temperature", PInt 7)]
     = Raise (Exn ValueError "Invalid max_tokens value").
Proof.
  split; [|split].
  - pose proof (validate_first_failure no_float_repr default_validator
      [("model", PStr "m"); ("messages", PList (repeat (user_message "hi") 101))])
      as (_ & H & _).
    destruct (H "m" eq_refl) as (_ & H2 & _).
    apply (H2 (repeat (user_message "hi") 101) eq_refl). vm_compute; reflexivity.
  - pose proof (validate_first_failure no_float_repr default_validator
      [("model", PStr "m");
       ("messages", PList [user_message "hi"; PDict [("role", PStr "hacker")]; PInt 42])])
      as (_ & H & _).
    destruct (H "m" eq_refl) as (_ & _ & H3 & _).
    apply (H3 [user_message "hi"] (PDict [("role", PStr "hacker")]) [PInt 42]).
    + reflexivity.
    + vm_compute; discriminate.
    + repeat constructor.
    + reflexivity.
  - pose proof (validate_first_failure no_float_repr default_validator
      [("model", PStr "m"); ("messages", PList [user_message "hi"]);
       ("max_tokens", PInt 5000); ("temperature", PInt 7)])
      as (_ & H & _).
    destruct (H "m" eq_refl) as (_ & _ & _ & H4).
    destruct (H4 [user_message "hi"] [{| vm_role := "user"; vm_content := "hi" |}]
                eq_refl) as (H5 & _).
    + vm_compute; discriminate.
    + vm_compute; reflexivity.
    + apply (H5 (PInt 5000)); reflexivity.
Defined.

(** ** The rate limiter *)

Section MonitorFacts.

Implicit Types (m : SecurityMonitor) (ip : string) (env : gmap string string).




Lemma recent_requests_all now window (l : list Q) :
  Forall (fun t => now - t < inject_Z window)%Q l -> recent_requests now window l = l.
Proof.
  unfold recent_requests. induction 1 as [|t l Ht Hl IH]; [done|].
  cbn [List.filter]. rewrite IH.
  assert (Qltb (now - t) (inject_Z window) = true) as ->; [|done].
  unfold Qltb. apply negb_true_iff. apply not_true_is_false.
  rewrite Qle_bool_iff. by apply Qlt_not_le.
Qed.


(** No operation takes a client out of the block set. *)
Lemma check_keeps_blocked env now m ip limit window answer m' logged x :
  check_rate_limit env now m ip limit window = Ok (answer, m', logged) ->
  x ∈ blocked_ips m -> x ∈ blocked_ips m'.
Proof.
  unfold check_rate_limit. destruct (effective_limit env limit) as [l|]; [|done].
  cbn [bind]. destruct (Z.leb _ _); intros [= <- <- <-]; simpl; set_solver.
Qed.

Lemma run_op_keeps_blocked m op x :
  x ∈ blocked_ips m -> x ∈ blocked_ips (run_op m op).
Proof.
  destruct op as [env now ip limit window|ip reason|ip]; simpl; [|set_solver|done].
  destruct (check_rate_limit env now m ip limit window) as [[[answer m'] logged]|] eqn:E;
    [|done].
  by eapply check_keeps_blocked.
Qed.

Lemma run_ops_keeps_blocked ops : forall m x,
  x ∈ blocked_ips m -> x ∈ blocked_ips (run_ops m ops).
Proof.
  induction ops as [|op ops IH]; intros m x H; [done|].
  apply IH. by apply run_op_keeps_blocked.
Qed.

Lemma is_blocked_elem m ip : is_blocked m ip = true <-> ip ∈ blocked_ips m.
Proof. unfold is_blocked. apply bool_decide_eq_true. Qed.

End MonitorFacts.

(** C5. The block set only grows: for every monitor, every client and
    every sequence of operations ([check_rate_limit], [block_ip],
    [is_blocked]), a client for which [is_blocked] is true is still
    blocked after the sequence, and so after each operation of it. *)
Theorem block_set_append_only (m : SecurityMonitor) (ops : list monitor_op) (ip : string) :
  is_blocked m ip = true ->
  is_blocked (run_ops m ops) ip = true
  /\ forall before after, ops = before ++ after -> is_blocked (run_ops m before) ip = true.
Proof.
  intros H%is_blocked_elem. split.
  - apply is_blocked_elem. by apply run_ops_keeps_blocked.
  - intros before after _. apply is_blocked_elem. by apply run_ops_keeps_blocked.
Qed.

Lemma block_set_append_only_witness :
  is_blocked (fst (block_ip SecurityMonitor_init "10.0.0.1" "abuse")) "10.0.0.1" = true
  /\ is_blocked
       (run_ops (fst (block_ip SecurityMonitor_init "10.0.0.1" "abuse"))
          [OpCheck ∅ 7200 "10.0.0.1" 5 60; OpIsBlocked "10.0.0.1";
           OpBlock "10.0.0.2" "abuse"; OpCheck ∅ 7300 "10.0.0.2" 100 3600])
       "10.0.0.1" = true.
Proof.
  split; [vm_compute; reflexivity|].
  apply (block_set_append_only (fst (block_ip SecurityMonitor_init "10.0.0.1" "abuse"))).
  vm_compute; reflexivity.
Defined.



Section LimitFacts.

(** The answer of a check is decided by the number of recent requests and
    the effective limit. *)
Lemma check_answer env now m ip limit window l :
  effective_limit env limit = Ok l ->
  answer_of (check_rate_limit env now m ip limit window)
  = Some (Z.ltb (Z.of_nat (List.length (recent_requests now window (requests_of m ip)))) l).
Proof.
  intros H. unfold check_rate_limit. rewrite H. cbn [bind].
  rewrite Z.ltb_antisym. by destruct (Z.leb _ _).
Qed.

Lemma requests_of_monitor_with ip now n :
  requests_of (monitor_with ip now n) ip = repeat now n.
Proof. unfold requests_of, monitor_with. simpl. by rewrite lookup_singleton_eq. Qed.

Lemma recent_requests_now now window n :
  (0 < window)%Z -> recent_requests now window (repeat now n) = repeat now n.
Proof.
  intros H. apply recent_requests_all. apply List.Forall_forall.
  intros t ->%repeat_spec.
  assert (0 < inject_Z window)%Q by (rewrite <- (Zlt_Qlt 0); done).
  lra.
Qed.

End LimitFacts.

(** C10. [check_rate_limit] takes a [limit] argument of exactly 100, the
    default included, as a request for the limit of the environment: the
    check then works with the integer read from [RATE_LIMIT_PER_HOUR]
    (100 when the variable is not set), while every other [limit] is used
    as it is passed.  So when the environment gives a limit other than
    100, a check called with [limit = 100] does not enforce 100: some
    monitor gets another answer than a limit of 100 would give. *)
Theorem limit_hundred_reads_environment (env : gmap string string) (now : Q)
    (m : SecurityMonitor) (ip : string) (limit window : Z) :
  let count := Z.of_nat (List.length (recent_requests now window (requests_of m ip))) in
  (limit <> 100%Z ->
   answer_of (check_rate_limit env now m ip limit window) = Some (Z.ltb count limit))
  /\ (limit = 100%Z ->
      (forall l,
          py_int (getenv env "RATE_LIMIT_PER_HOUR" "100") = Ok l ->
          answer_of (check_rate_limit env now m ip limit window) = Some (Z.ltb count l))
      /\ (env !! "RATE_LIMIT_PER_HOUR" = None ->
          answer_of (check_rate_limit env now m ip limit window) = Some (Z.ltb count 100))
      /\ (forall e,
            py_int (getenv env "RATE_LIMIT_PER_HOUR" "100") = Raise e ->
            check_rate_limit env now m ip limit window = Raise e)
      /\ (forall l,
            py_int (getenv env "RATE_LIMIT_PER_HOUR" "100") = Ok l ->
            l <> 100%Z -> (0 < window)%Z ->
            exists n,
              answer_of (check_rate_limit env now (monitor_with ip now n) ip limit window)
              = Some (negb (Z.ltb (Z.of_nat n) 100)))).
Proof.
  intros count. subst count. split.
  - intros H. apply check_answer. unfold effective_limit.
    apply Z.eqb_neq in H. by rewrite H.
  - intros ->. split; [|split; [|split]].
    + intros l H. by apply check_answer.
    + intros H. apply check_answer. unfold effective_limit, getenv. by rewrite H.
    + intros e H. unfold check_rate_limit, effective_limit. simpl. by rewrite H.
    + intros l H Hl Hw.
      exists (if Z.ltb l 100 then Z.to_nat (Z.max l 0) else 100).
      rewrite (check_answer _ _ _ _ _ _ l) by done.
      rewrite requests_of_monitor_with, recent_requests_now, repeat_length by done.
      f_equal. destruct (Z.ltb_spec l 100).
      * rewrite (proj2 (Z.ltb_ge _ _)) by lia. symmetry. apply negb_false_iff, Z.ltb_lt. lia.
      * rewrite (proj2 (Z.ltb_lt _ _)) by lia. done.
Qed.

(** A witness of C10: with [RATE_LIMIT_PER_HOUR=5] and five requests on
    record, a check called with [limit = 100] answers false, and one
    called with [limit = 99] answers true. *)
Lemma limit_hundred_reads_environment_witness :
  answer_of (check_rate_limit {["RATE_LIMIT_PER_HOUR" := "5"]} 10
               (monitor_with "10.0.0.1" 10 5) "10.0.0.1" 100 3600)
  = Some false
  /\ answer_of (check_rate_limit {["RATE_LIMIT_PER_HOUR" := "5"]} 10
                  (monitor_with "10.0.0.1" 10 5) "10.0.0.1" 99 3600)
     = Some true.
Proof.
  pose proof (limit_hundred_reads_environment {["RATE_LIMIT_PER_HOUR" := "5"]} 10
                (monitor_with "10.0.0.1" 10 5) "10.0.0.1") as H.
  split.
  - destruct (H 100%Z 3600%Z) as (_ & H100).
    destruct (H100 eq_refl) as (Hl & _).
    apply (Hl 5%Z). vm_compute; reflexivity.
  - destruct (H 99%Z 3600%Z) as (H99 & _).
    apply H99. discriminate.
Defined.

(** ** The two entry points *)

(** The components as the module builds them from an environment that
    sets the two variables of the client only. *)
Lemma example_components :
  RequestValidator_init example_environment = Ok default_validator
  /\ gaia_client_of (fun _ _ => Ok tt) example_environment = Ok (Some example_client)
  /\ privacy_filter_enabled example_environment = true.
Proof. repeat split; vm_compute; reflexivity. Qed.

Section OrchestratorFacts.

Variable float_repr : float -> string.
Variable env : gmap string string.
Variable rv : RequestValidator.
Variable up : provider.

Lemma chars_append (a b : string) : chars (a ++ b)%string = chars a ++ chars b.
Proof.
  induction a as [|c a IH]; [done|].
  change (c :: chars (a ++ b)%string = c :: (chars a ++ chars b)). by rewrite IH.
Qed.




(** The synchronous path: with the filter enabled, a violation ends the
    request before the provider is called. *)
Lemma chat_completion_privacy_abort client data timestamp v :
  privacy_filter_enabled env = true ->
  validate_chat_request float_repr rv
    ([("model", default (PStr (model client)) (dict_get data "model"));
      ("messages",
       match dict_get data "message" with
       | Some message => PList [PDict [("role", PStr "user"); ("content", message)]]
       | None => default (PList []) (dict_get data "messages")
       end)]
       ++ match dict_get data "max_tokens" with Some x => [("max_tokens", x)] | None => [] end
       ++ match dict_get data "temperature" with Some x => [("temperature", x)] | None => [] end)
  = Ok v ->
  validate_request_privacy (v_messages v) <> [] ->
  chat_completion_body float_repr env rv up client data timestamp
  = (Ok {| status := 400; payload := ErrorBody "Privacy violation detected" |}, []).
Proof.
  intros Hp Hv Hviol. unfold chat_completion_body. rewrite Hv, Hp. cbn [andb].
  by destruct (validate_request_privacy (v_messages v)).
Qed.


End OrchestratorFacts.

(** C1, at the failing input. With the privacy filter enabled (its
    variable is not set) and the message [my password hunter2], in which the
    filter finds a password: [/api/chat] answers 400 with the privacy
    violation and calls no provider.  [/api/chat/stream] runs no privacy
    check.  As the server runs it, outside the request context, its one
    event carries the text of Flask's error, the same for every request,
    and not a privacy violation; and where its generator does get the
    query parameters, inside a request context, it hands the message to
    the provider, whatever the provider is. *)
Theorem stream_skips_privacy_check (float_repr : float -> string) (up : provider)
    (outside : string) :
  privacy_filter_enabled example_environment = true
  /\ validate_request_privacy [{| vm_role := "user"; vm_content := "my password hunter2" |}]
     = ["Message 0: Found ['password']"]
  /\ chat_completion float_repr example_environment default_validator
       (Some example_client) up (PDict [("message", PStr "my password hunter2")]) "now"
     = ({| status := 400; payload := ErrorBody "Privacy violation detected" |}, [])
  /\ chat_stream float_repr example_environment default_validator
       (Some example_client) up outside
     = ([SseError outside], [Logged ERROR ("Streaming error: " ++ outside)%string])
  /\ upstream_calls
       (snd (generate float_repr example_environment default_validator
               (Some example_client) up (Ok [("message", "my password hunter2")])))
     = [{| cr_model := "default";
           cr_messages := [{| vm_role := "user"; vm_content := "my password hunter2" |}];
           cr_max_tokens := None; cr_temperature := None; cr_stream := true |}].
Proof.
  split; [vm_compute; reflexivity|]. split; [vm_compute; reflexivity|].
  split; [|split; [reflexivity|]].
  - unfold chat_completion. cbn [truthy negb].
    rewrite (chat_completion_privacy_abort float_repr example_environment
               default_validator up example_client
               [("message", PStr "my password hunter2")] "now"
               {| v_model := "default";
                  v_messages := [{| vm_role := "user"; vm_content := "my password hunter2" |}];
                  v_max_tokens := None; v_temperature := None |}); try done.
  - unfold generate. cbn [args_get String.eqb Ascii.eqb Bool.eqb]. unfold generate_from.
    assert (validate_chat_request float_repr default_validator
              [("model", PStr (default (model example_client) None));
               ("messages",
                PList [PDict [("role", PStr "user"); ("content", PStr "my password hunter2")]])]
            = Ok {| v_model := "default";
                    v_messages := [{| vm_role := "user"; vm_content := "my password hunter2" |}];
                    v_max_tokens := None; v_temperature := None |}) as -> by done.
    cbn [String.eqb Ascii.eqb Bool.eqb v_model v_messages].
    destruct (create_stream up _) as [[chunks ended]|e]; [|done].
    destruct (stream_chunks example_environment chunks) as [events [e|]]; [done|].
    by destruct ended.
Qed.

(** * Further properties

    Properties of the same code beyond the claims of the specification. *)

(** ** What a match consumes *)

Section ReachFacts.

Implicit Types (r : regex) (k : kont) (prev : option ascii) (s m : text).

(** A repetition that succeeds has read at least [lo] characters, all of
    its class, and then handed over to its continuation. *)
Lemma rep_greedy_reaches a k x s : forall lo hi prev,
  rep_greedy a lo hi k prev s = Some x ->
  exists m s', s = m ++ s' /\ lo <= List.length m
               /\ Forall (fun c => accepts a c = true) m
               /\ k (last_char prev m) s' = Some x.
Proof.
  induction s as [|c s IH]; intros lo hi prev H.
  - exists [], []. destruct hi as [[|?]|], lo; simpl in H; try done;
      (repeat split; [lia|constructor|done]).
  - assert (Hstop : match lo with 0 => k prev (c :: s) | S _ => None end = Some x ->
              exists m s', c :: s = m ++ s' /\ lo <= List.length m
                           /\ Forall (fun c => accepts a c = true) m
                           /\ k (last_char prev m) s' = Some x).
    { destruct lo; [|done]. intros Hk. exists [], (c :: s).
      repeat split; [simpl; lia|constructor|done]. }
    assert (Hmore : forall hi', rep_greedy a (Nat.pred lo) hi' k (Some c) s = Some x ->
              accepts a c = true ->
              exists m s', c :: s = m ++ s' /\ lo <= List.length m
                           /\ Forall (fun c => accepts a c = true) m
                           /\ k (last_char prev m) s' = Some x).
    { intros hi' Hr Hc. destruct (IH _ _ _ Hr) as (m & s' & -> & Hlen & Hall & Hk).
      exists (c :: m), s'. repeat split; [simpl; lia|by constructor|done]. }
    destruct hi as [[|h]|]; cbn [rep_greedy option_map] in H; [by apply Hstop| |].
    + destruct (accepts a c) eqn:Hc; [|by apply Hstop].
      destruct (rep_greedy a (Nat.pred lo) (Some (Nat.pred (S h))) k (Some c) s) eqn:E;
        [|by apply Hstop].
      injection H as ->. by eapply Hmore.
    + destruct (accepts a c) eqn:Hc; [|by apply Hstop].
      destruct (rep_greedy a (Nat.pred lo) None k (Some c) s) eqn:E; [|by apply Hstop].
      injection H as ->. by eapply Hmore.
Qed.

Lemma rep_lazy_reaches a k x s : forall lo hi prev,
  rep_lazy a lo hi k prev s = Some x ->
  exists m s', s = m ++ s' /\ lo <= List.length m
               /\ Forall (fun c => accepts a c = true) m
               /\ k (last_char prev m) s' = Some x.
Proof.
  induction s as [|c s IH]; intros lo hi prev H.
  - exists [], []. destruct hi as [[|?]|], lo; simpl in H; try done;
      destruct (k prev []) eqn:E; try done; injection H as ->;
      (repeat split; [lia|constructor|done]).
  - assert (Hmore : forall hi', rep_lazy a (Nat.pred lo) hi' k (Some c) s = Some x ->
              accepts a c = true ->
              exists m s', c :: s = m ++ s' /\ lo <= List.length m
                           /\ Forall (fun c => accepts a c = true) m
                           /\ k (last_char prev m) s' = Some x).
    { intros hi' Hr Hc. destruct (IH _ _ _ Hr) as (m & s' & -> & Hlen & Hall & Hk).
      exists (c :: m), s'. repeat split; [simpl; lia|by constructor|done]. }
    assert (Hstop : k prev (c :: s) = Some x -> lo = 0 ->
              exists m s', c :: s = m ++ s' /\ lo <= List.length m
                           /\ Forall (fun c => accepts a c = true) m
                           /\ k (last_char prev m) s' = Some x).
    { intros Hk ->. exists [], (c :: s). repeat split; [simpl; lia|constructor|done]. }
    cbn [rep_lazy option_map] in H.
    destruct lo as [|lo].
    + destruct (k prev (c :: s)) eqn:E; [injection H as ->; by apply Hstop|].
      destruct hi as [[|h]|]; [done| |];
        (destruct (accepts a c) eqn:Hc; [|done]); by eapply Hmore.
    + destruct hi as [[|h]|]; [done| |];
        (destruct (accepts a c) eqn:Hc; [|done]); by eapply Hmore.
Qed.

(** Every successful match has read at least [min_len r] characters
    before its continuation succeeded. *)
Lemma exec_reaches r : forall k prev s x,
  exec r k prev s = Some x ->
  exists m s', s = m ++ s' /\ min_len r <= List.length m
               /\ k (last_char prev m) s' = Some x.
Proof.
  induction r as [|a|r1 IH1 r2 IH2|a lo hi|a lo hi|n r1 IH1| | |];
    intros k prev s x H; cbn [exec min_len] in *.
  - by exists [], s.
  - destruct s as [|c s]; [done|]. destruct (accepts a c); [|done].
    exists [c], s. repeat split; [simpl; lia|done].
  - destruct (IH1 _ _ _ _ H) as (m1 & s1 & -> & L1 & H1).
    destruct (IH2 _ _ _ _ H1) as (m2 & s2 & -> & L2 & H2).
    exists (m1 ++ m2), s2. rewrite <- app_assoc, length_app.
    repeat split; [lia|]. unfold last_char in *. by rewrite fold_left_app.
  - destruct (rep_greedy_reaches _ _ _ _ _ _ _ H) as (m & s' & ? & ? & _ & ?). by exists m, s'.
  - destruct (rep_lazy_reaches _ _ _ _ _ _ _ H) as (m & s' & ? & ? & _ & ?). by exists m, s'.
  - revert k prev s x H. induction n as [|n IHn]; intros k prev s x H; cbn [Nat.iter nat_rect] in H.
    + by exists [], s.
    + change (exec r1 (Nat.iter n (exec r1) k) prev s = Some x) in H.
      destruct (IH1 _ _ _ _ H) as (m1 & s1 & -> & L1 & H1).
      destruct (IHn _ _ _ _ H1) as (m2 & s2 & -> & L2 & H2).
      exists (m1 ++ m2), s2. rewrite <- app_assoc, length_app.
      repeat split; [simpl; lia|]. unfold last_char in *. by rewrite fold_left_app.
  - destruct (word_boundary prev s); [|done]. by exists [], s.
  - destruct prev; [done|]. by exists [], s.
  - destruct s as [|c [|? ?]]; [by exists [], []| |done].
    destruct (Ascii.eqb c "010"); [|done]. by exists [], [c].
Qed.

(** The length of a match lies between [min_len r] and the length of the
    text, and the match found is the start of the text. *)
Lemma match_at_bounds r prev s n :
  match_at r prev s = Some n -> min_len r <= n <= List.length s.
Proof.
  unfold match_at. destruct (exec r _ prev s) as [rest|] eqn:E; [|done].
  intros [= <-]. destruct (exec_reaches _ _ _ _ _ E) as (m & s' & -> & L & [= <-]).
  rewrite length_app. lia.
Qed.

Lemma match_at_nonempty_bounds r prev s n :
  match_at_nonempty r prev s = Some n -> min_len r <= n <= List.length s.
Proof.
  unfold match_at_nonempty. destruct (exec r _ prev s) as [rest|] eqn:E; [|done].
  intros [= <-]. destruct (exec_reaches _ _ _ _ _ E) as (m & s' & -> & L & H).
  destruct (Nat.eqb _ _); [done|]. injection H as <-. rewrite length_app. lia.
Qed.

End ReachFacts.

(** ** What the sanitizer keeps *)

Section SanitizerMore.

Implicit Types (r : regex) (prev : option ascii) (s t : text).

(** A substitution by the empty string only takes characters away. *)
Lemma scan_keeps_sublist r s : forall prev skip,
  flat_map (fun p => match p with Found _ => chars "" | Keep c => [c] end) (scan r prev s skip)
  `sublist_of` s.
Proof.
  induction s as [|c s IH]; intros prev skip.
  - destruct skip; cbn [scan]; [|done]. by destruct (match_at r prev []).
  - destruct skip as [|n]; cbn [scan].
    + destruct (match_at r prev (c :: s)) as [[|n]|]; cbn [flat_map chars list_ascii_of_string app].
      * destruct (match_at_nonempty r prev (c :: s)) as [[|n]|];
          cbn [flat_map chars list_ascii_of_string app];
          first [apply sublist_cons, IH | apply sublist_skip, IH].
      * apply sublist_cons, IH.
      * apply sublist_skip, IH.
    + apply sublist_cons, IH.
Qed.

Lemma sub_empty_sublist r (s : string) : chars (sub r "" s) `sublist_of` chars s.
Proof. unfold sub. rewrite chars_str. apply scan_keeps_sublist. Qed.

Lemma lstrip_suffix t : lstrip t `suffix_of` t.
Proof.
  induction t as [|c t IH]; [done|]. simpl.
  destruct (is_space c); [by apply suffix_cons_r|done].
Qed.

Lemma strip_sublist (s : string) : chars (strip s) `sublist_of` chars s.
Proof.
  unfold strip. rewrite chars_str.
  destruct (lstrip_suffix (chars s)) as [m1 H1].
  destruct (lstrip_suffix (rev (lstrip (chars s)))) as [m2 H2].
  rewrite H1 at 2. apply sublist_inserts_l.
  rewrite <- (rev_involutive (lstrip (chars s))) at 2.
  rewrite H2 at 2. rewrite rev_app_distr. by apply sublist_inserts_r.
Qed.

Lemma sanitize_sublist (s : string) : chars (sanitize_content s) `sublist_of` chars s.
Proof.
  unfold sanitize_content.
  etrans; [apply strip_sublist|]. etrans; [apply sub_empty_sublist|].
  etrans; [apply sub_empty_sublist|]. apply sub_empty_sublist.
Qed.

Lemma string_length_chars (s : string) : String.length s = List.length (chars s).
Proof. induction s as [|c s IH]; [done|]. simpl. by rewrite IH. Qed.

(** The ends of a stripped text. *)
Lemma lstrip_fixed t : lstrip (lstrip t) = lstrip t.
Proof.
  induction t as [|c t IH]; [done|]. simpl.
  destruct (is_space c) eqn:E; [done|]. simpl. by rewrite E.
Qed.

Lemma lstrip_head t :
  lstrip t = t <-> match t with c :: _ => is_space c = false | [] => True end.
Proof.
  destruct t as [|c t]; [done|]. simpl. destruct (is_space c) eqn:E; [|done].
  split; [|done]. intros H. pose proof (suffix_shorter _ _ (lstrip_suffix t)) as Hl.
  rewrite H in Hl. simpl in Hl. lia.
Qed.

Lemma strip_stripped (s : string) : stripped (chars (strip s)).
Proof.
  unfold strip, stripped. rewrite chars_str, rev_involutive.
  split; [|apply lstrip_fixed].
  pose proof (lstrip_fixed (chars s)) as Hu.
  destruct (lstrip_suffix (rev (lstrip (chars s)))) as [m Hm].
  apply (f_equal (@rev ascii)) in Hm. rewrite rev_involutive, rev_app_distr in Hm.
  apply lstrip_head.
  destruct (rev (lstrip (rev (lstrip (chars s))))) as [|c t]; [done|].
  rewrite Hm in Hu. by apply lstrip_head in Hu.
Qed.

Lemma stripped_strip t : stripped t -> strip (str t) = str t.
Proof.
  intros [H1 H2]. unfold strip. by rewrite chars_str, H1, H2, rev_involutive.
Qed.

(** A scan of a text in which the pattern matches nowhere. *)
Lemma scan_none r s : forall prev skip,
  (forall p s', s' `suffix_of` s -> match_at r p s' = None) ->
  no_match (scan r prev s skip).
Proof.
  induction s as [|c s IH]; intros prev skip H.
  - destruct skip; cbn [scan]; [|constructor]. rewrite H by done. constructor.
  - assert (Hs : forall p s', s' `suffix_of` s -> match_at r p s' = None)
      by (intros p s' Hs; apply H; by apply suffix_cons_r).
    destruct skip; cbn [scan]; [|by apply IH].
    rewrite H by done. constructor; [done|by apply IH].
Qed.

(** A literal needs each of its characters. *)
Lemma exec_ilits_needs (l : text) x : forall k prev s,
  In x l -> Forall (fun c => accepts (ILit x) c = false) s ->
  exec (fold_right (fun c r => Seq (Chr (ILit c)) r) Eps l) k prev s = None.
Proof.
  induction l as [|a l IH]; intros k prev s Hx Hs; [done|].
  cbn [fold_right exec]. destruct s as [|c s]; [done|].
  inversion Hs as [|? ? Hc Hs']; subst.
  destruct Hx as [->|Hx]; [by rewrite Hc|].
  destruct (accepts (ILit a) c); [|done]. by apply IH.
Qed.

Lemma allowed_not_lt c : allowed c = true -> accepts (ILit "<") c = false.
Proof. destruct c as [[] [] [] [] [] [] [] []]; vm_compute; congruence. Qed.

Lemma allowed_not_colon c : allowed c = true -> accepts (ILit ":") c = false.
Proof. destruct c as [[] [] [] [] [] [] [] []]; vm_compute; congruence. Qed.

Lemma suffix_Forall {A} (P : A -> Prop) (l l' : list A) :
  l' `suffix_of` l -> Forall P l -> Forall P l'.
Proof. intros [m ->] H. by apply Forall_app in H as [_ ?]. Qed.

(** On a text of allowed characters none of the three patterns of the
    sanitizer matches. *)
Lemma allowed_no_script t prev :
  Forall (fun c => allowed c = true) t -> match_at script_re prev t = None.
Proof.
  intros H. unfold match_at, script_re, seqs. cbn [fold_right exec].
  unfold ilits at 1. rewrite (exec_ilits_needs _ "<"%char); [done|by left|].
  eapply Forall_impl; [done|]. apply allowed_not_lt.
Qed.

Lemma allowed_no_javascript t prev :
  Forall (fun c => allowed c = true) t -> match_at javascript_re prev t = None.
Proof.
  intros H. unfold match_at, javascript_re, ilits.
  rewrite (exec_ilits_needs _ ":"%char); [done|simpl; tauto|].
  eapply Forall_impl; [done|]. apply allowed_not_colon.
Qed.

Lemma allowed_no_special t prev :
  Forall (fun c => allowed c = true) t -> match_at special_re prev t = None.
Proof.
  intros H. destruct H as [|c t Hc Ht]; [done|]. by apply special_at_allowed.
Qed.

Lemma sub_fixed r (repl s : string) :
  (forall p s', s' `suffix_of` chars s -> match_at r p s' = None) ->
  sub r repl s = s.
Proof. intros H. apply sub_no_match. by apply scan_none. Qed.

Lemma sanitize_all_allowed (s : string) :
  Forall (fun c => allowed c = true) (chars (sanitize_content s)).
Proof. apply List.Forall_forall. intros c. apply sanitize_allowed. Qed.

End SanitizerMore.

(** X1. Sanitizing is idempotent: a sanitized content goes through
    [sanitize_content] unchanged. *)
Theorem sanitize_content_idempotent (s : string) :
  sanitize_content (sanitize_content s) = sanitize_content s.
Proof.
  pose proof (sanitize_all_allowed s) as Hall.
  assert (Hst : stripped (chars (sanitize_content s))) by apply strip_stripped.
  set (t := sanitize_content s) in *.
  unfold sanitize_content.
  rewrite (sub_fixed script_re "" t)
    by (intros p s' Hs; apply allowed_no_script; by eapply suffix_Forall).
  rewrite (sub_fixed javascript_re "" t)
    by (intros p s' Hs; apply allowed_no_javascript; by eapply suffix_Forall).
  rewrite (sub_fixed special_re "" t)
    by (intros p s' Hs; apply allowed_no_special; by eapply suffix_Forall).
  rewrite <- (str_chars t). by apply stripped_strip.
Qed.

(** X2. Sanitizing only takes characters away: the output is a
    subsequence of the input, so it is never longer, and it holds no
    character the input does not hold. *)
Theorem sanitize_content_subsequence (s : string) :
  chars (sanitize_content s) `sublist_of` chars s
  /\ String.length (sanitize_content s) <= String.length s.
Proof.
  split; [apply sanitize_sublist|].
  rewrite !string_length_chars. apply sublist_length, sanitize_sublist.
Qed.

(** X3. A sanitized content holds only characters of the whitelist (word
    characters, white space, and the punctuation of [allowed_items]) and
    has no white space at either end. *)
Theorem sanitize_content_whitelisted (s : string) :
  forallb allowed (chars (sanitize_content s)) = true
  /\ strip (sanitize_content s) = sanitize_content s
  /\ match chars (sanitize_content s) with
     | c :: _ => is_space c = false
     | [] => True
     end
  /\ match rev (chars (sanitize_content s)) with
     | c :: _ => is_space c = false
     | [] => True
     end.
Proof.
  pose proof (strip_stripped (sub special_re "" (sub javascript_re ""
                (sub script_re "" s)))) as Hst.
  fold (sanitize_content s) in Hst.
  repeat split.
  - apply forallb_forall. apply sanitize_allowed.
  - rewrite <- (str_chars (sanitize_content s)) at 1 2. by apply stripped_strip.
  - apply lstrip_head, Hst.
  - apply lstrip_head, Hst.
Qed.

(** ** Findings *)

Section FindingFacts.

Implicit Types (r : regex) (prev : option ascii) (s m : text).

(** Every match a scan reports is a piece of the text, of at least
    [min_len r] characters. *)
Lemma scan_found r s : forall prev skip m,
  In (Found m) (scan r prev s skip) ->
  exists pre post, s = pre ++ m ++ post /\ min_len r <= List.length m.
Proof.
  induction s as [|c s IH]; intros prev skip m H.
  - destruct skip; cbn [scan] in H; [|done].
    destruct (match_at r prev []) as [n|] eqn:E; [|done].
    destruct H as [[= <-]|[]]. apply match_at_bounds in E. exists [], [].
    split; [done|]. simpl in *. lia.
  - assert (Hrest : forall p k, In (Found m) (scan r p s k) ->
              exists pre post, c :: s = pre ++ m ++ post /\ min_len r <= List.length m).
    { intros p k Hin. destruct (IH _ _ _ Hin) as (pre & post & -> & L).
      by exists (c :: pre), post. }
    assert (Hhead : forall n, min_len r <= S n <= List.length (c :: s) ->
              exists pre post, c :: s = pre ++ firstn (S n) (c :: s) ++ post
                               /\ min_len r <= List.length (firstn (S n) (c :: s))).
    { intros n Hn. exists [], (skipn (S n) (c :: s)). split.
      - by rewrite app_nil_l, firstn_skipn.
      - rewrite length_firstn. lia. }
    destruct skip as [|k]; cbn [scan] in H; [|by eapply Hrest].
    destruct (match_at r prev (c :: s)) as [[|n]|] eqn:E.
    + destruct H as [[= <-]|H].
      { apply match_at_bounds in E. exists [], (c :: s). split; [done|]. simpl. lia. }
      destruct (match_at_nonempty r prev (c :: s)) as [[|n]|] eqn:E'.
      * destruct H as [|H]; [done|]. by eapply Hrest.
      * destruct H as [[= <-]|H]; [|by eapply Hrest].
        apply Hhead. by apply match_at_nonempty_bounds in E'.
      * destruct H as [|H]; [done|]. by eapply Hrest.
    + destruct H as [[= <-]|H]; [|by eapply Hrest].
      apply Hhead. by apply match_at_bounds in E.
    + destruct H as [|H]; [done|]. by eapply Hrest.
Qed.

Lemma prefix_of_app (m post : text) : prefix_of m (m ++ post) = true.
Proof. induction m as [|c m IH]; [done|]. cbn. by rewrite Ascii.eqb_refl. Qed.

Lemma occurs_middle (pre m post : text) : occurs m (pre ++ m ++ post) = true.
Proof.
  induction pre as [|c pre IH].
  - pose proof (prefix_of_app m post) as H. cbn [app].
    destruct (m ++ post); cbn [occurs]; by rewrite H.
  - cbn [app occurs]. rewrite IH. apply orb_true_r.
Qed.

Lemma finditer_found r (t m : string) :
  In m (finditer r t) ->
  contains m t = true /\ min_len r <= String.length m.
Proof.
  unfold finditer. intros H. apply in_flat_map in H as ([c|m'] & Hin & Hm); [done|].
  destruct Hm as [<-|[]].
  destruct (scan_found _ _ _ _ _ Hin) as (pre & post & Hs & L).
  unfold contains. rewrite chars_str, Hs. split; [apply occurs_middle|].
  by rewrite string_length_chars, chars_str.
Qed.

Lemma detect_from_pattern (t kind m : string) :
  In (kind, m) (detect_sensitive_data t) ->
  exists r, In (kind, r) patterns /\ In m (finditer r t).
Proof.
  unfold detect_sensitive_data. intros H.
  apply in_flat_map in H as ([k r] & Hp & Hm).
  apply in_map_iff in Hm as (m' & [= <- <-] & Hm). by exists r.
Qed.

(** The privacy check, message by message. *)
Lemma privacy_violations_length ms : forall i,
  List.length (privacy_violations i ms) = List.length (List.filter has_finding ms).
Proof.
  induction ms as [|m ms IH]; intros i; [done|].
  cbn [privacy_violations List.filter]. unfold has_finding at 1.
  destruct (detect_sensitive_data (vm_content m)); [apply IH|].
  cbn [List.length]. by rewrite IH.
Qed.

Lemma privacy_violations_nil messages :
  validate_request_privacy messages = []
  <-> Forall (fun vm => detect_sensitive_data (vm_content vm) = []) messages.
Proof.
  unfold validate_request_privacy. generalize 0%Z.
  induction messages as [|vm ms IH]; intros i; [by split|].
  cbn [privacy_violations].
  destruct (detect_sensitive_data (vm_content vm)) eqn:E.
  - rewrite IH. split; [by constructor|by inversion 1].
  - split; [done|]. inversion 1; congruence.
Qed.

End FindingFacts.

(** X4. Every finding of [detect_sensitive_data] is a piece of the text it
    was found in, and is never empty: a finding has at least the length
    its pattern needs (16 for a card number, 32 for an API key, at least
    6 for every kind). *)
Theorem findings_are_pieces (t kind m : string) :
  In (kind, m) (detect_sensitive_data t) ->
  contains m t = true
  /\ exists n, In (kind, n) shortest_finding /\ 6 <= n <= String.length m.
Proof.
  intros (r & Hp & Hm)%detect_from_pattern.
  destruct (finditer_found _ _ _ Hm) as [Hc Hl]. split; [done|].
  exists (min_len r). split.
  - unfold shortest_finding. apply in_map_iff. by exists (kind, r).
  - split; [|done]. clear -Hp. unfold patterns in Hp.
    repeat (destruct Hp as [[= <- <-]|Hp]; [vm_compute; lia|]). done.
Qed.

Lemma findings_are_pieces_witness :
  In ("ssn", "123-45-6789") (detect_sensitive_data "ssn 123-45-6789 here")
  /\ contains "123-45-6789" "ssn 123-45-6789 here" = true
  /\ shortest_finding
     = [("credit_card", 16); ("ssn", 11); ("email", 6); ("phone", 12);
        ("api_key", 32); ("password", 10); ("token", 7)].
Proof.
  assert (H : In ("ssn", "123-45-6789") (detect_sensitive_data "ssn 123-45-6789 here"))
    by (vm_compute; tauto).
  split; [exact H|]. split; [|vm_compute; reflexivity].
  exact (proj1 (findings_are_pieces _ _ _ H)).
Defined.

(** X5. The privacy check reports one violation for each message in which
    the filter finds something, and none for the others: the list of
    violations is empty exactly when no message has a finding. *)
Theorem privacy_check_per_message (messages : list validated_message) :
  List.length (validate_request_privacy messages)
  = List.length (List.filter has_finding messages)
  /\ (validate_request_privacy messages = []
      <-> Forall (fun m => detect_sensitive_data (vm_content m) = []) messages).
Proof.
  split; [apply privacy_violations_length|apply privacy_violations_nil].
Qed.

(** ** What validation accepts *)

Section AcceptFacts.

Variable float_repr : float -> string.
Variable rv : RequestValidator.

(** A greedy repetition over a run of its class reads the whole run when
    its continuation succeeds behind it. *)
Lemma rep_greedy_run a k x (body : text) : forall lo prev (tail : text),
  Forall (fun c => accepts a c = true) body ->
  lo <= List.length body ->
  match tail with c :: _ => accepts a c = false | [] => True end ->
  k (last_char prev body) tail = Some x ->
  rep_greedy a lo None k prev (body ++ tail) = Some x.
Proof.
  induction body as [|b body IH]; intros lo prev tail Hall Hlo Htail Hk.
  - destruct lo; [|simpl in Hlo; lia]. cbn [app].
    destruct tail as [|c tail]; cbn [rep_greedy]; [done|]. by rewrite Htail.
  - inversion Hall as [|? ? Hb Hall']; subst. cbn [app rep_greedy option_map].
    rewrite Hb. rewrite (IH (Nat.pred lo) (Some b) tail); try done.
    simpl in Hlo. lia.
Qed.

Lemma model_char_not_newline : model_char "010" = false.
Proof. reflexivity. Qed.

Lemma validate_role_ok role r :
  validate_role float_repr rv role = Ok r -> role = PStr r /\ In r (allowed_roles rv).
Proof.
  destruct role; try done. simpl.
  destruct (existsb _ _) eqn:E; [|done]. intros [= <-]. split; [done|].
  apply existsb_exists in E as (x & Hx & ->%String.eqb_eq). done.
Qed.

Lemma validate_content_ok content c :
  validate_content rv content = Ok c ->
  exists raw, content = PStr raw
              /\ (Z.of_nat (String.length raw) <= max_message_length rv)%Z
              /\ c = sanitize_content raw.
Proof.
  unfold validate_content. destruct (py_len content) as [n|] eqn:En; [|done].
  cbn [bind]. destruct (Z.ltb_spec (max_message_length rv) n); [done|].
  destruct content; try done. intros [= <-]. injection En as <-. by eexists.
Qed.

Lemma validate_message_iff msg vm :
  validate_message float_repr rv msg = Ok vm <-> validated_from rv msg vm.
Proof.
  split.
  - destruct msg as [| | | | |l|d]; try done. simpl.
    destruct (validate_role _ _ _) as [role|] eqn:Er; [|done]. cbn [bind].
    destruct (validate_content _ _) as [c|] eqn:Ec; [|done]. cbn [bind].
    intros [= <-]. apply validate_role_ok in Er as [Er Hin].
    apply validate_content_ok in Ec as (raw & Ec & Hlen & ->).
    exists d, raw. repeat split; try done. simpl.
    by destruct (dict_get d "role") as [?|]; simpl in Er; [rewrite Er|].
  - intros (d & raw & -> & Hr & Hin & Hc & Hlen & Hs). simpl.
    rewrite Hr, Hc. cbn [default from_option id validate_role].
    assert (existsb (String.eqb (vm_role vm)) (allowed_roles rv) = true) as ->.
    { apply existsb_exists. exists (vm_role vm). split; [done|apply String.eqb_refl]. }
    cbn [bind]. unfold validate_content. cbn [py_len bind].
    apply Z.ltb_ge in Hlen. rewrite Hlen, <- Hs. by destruct vm.
Qed.

(** The loop over the messages succeeds exactly on lists of well-formed
    messages, and gives their validated forms in the same order. *)
Lemma validate_messages_iff msgs : forall vms,
  validate_messages float_repr rv msgs = Ok vms <-> Forall2 (validated_from rv) msgs vms.
Proof.
  induction msgs as [|msg msgs IH]; intros vms; cbn [validate_messages].
  - split; [intros [= <-]; constructor|by inversion 1].
  - split.
    + destruct (validate_message float_repr rv msg) as [vm|] eqn:E; [|done]. cbn [bind].
      destruct (validate_messages float_repr rv msgs) as [vms'|] eqn:E'; [|done].
      cbn [bind]. intros [= <-]. constructor; [by apply validate_message_iff|by apply IH].
    + inversion 1 as [|? vm ? vms' Hm Hms]; subst.
      apply validate_message_iff in Hm. apply IH in Hms. by rewrite Hm, Hms.
Qed.

Lemma validate_max_tokens_ok x y :
  validate_max_tokens x = Ok y ->
  y = x /\ exists z, as_int x = Some z /\ (1 <= z <= 4096)%Z.
Proof.
  unfold validate_max_tokens. destruct (as_int x) as [z|]; [|done].
  destruct (Z.ltb_spec z 1), (Z.ltb_spec 4096 z); try done.
  intros [= <-]. split; [done|]. exists z. split; [done|lia].
Qed.

Lemma validate_temperature_ok x y :
  validate_temperature x = Ok y ->
  y = x
  /\ ((exists z, as_int x = Some z /\ (0 <= z <= 2)%Z)
      \/ (exists f, x = PFloat f /\ PrimFloat.ltb f 0%float = false
                    /\ PrimFloat.ltb 2%float f = false)).
Proof.
  unfold validate_temperature. destruct x; try done; cbn [as_int].
  - destruct (Z.ltb_spec (if b then 1 else 0) 0), (Z.ltb_spec 2 (if b then 1 else 0));
      try done.
    intros [= <-]. split; [done|]. left. eexists. split; [done|lia].
  - destruct (Z.ltb_spec z 0), (Z.ltb_spec 2 z); try done.
    intros [= <-]. split; [done|]. left. eexists. split; [done|lia].
  - destruct (PrimFloat.ltb f 0) eqn:E1, (PrimFloat.ltb 2 f) eqn:E2; try done.
    intros [= <-]. split; [done|]. right. by exists f.
Qed.

Lemma validate_optional_ok (check : pyval -> result pyval) v w :
  (forall x y, check x = Ok y -> y = x) ->
  validate_optional check v = Ok w -> w = v.
Proof.
  intros Hc. destruct v as [x|]; simpl; [|by intros [= <-]].
  destruct (check x) as [y|] eqn:E; [|done]. simpl. intros [= <-].
  by rewrite (Hc _ _ E).
Qed.

Lemma validate_model_ok mo m :
  validate_model mo = Ok m -> mo = PStr m /\ String.eqb m "" = false.
Proof.
  destruct mo as [| | | |s| |]; try done. unfold validate_model.
  destruct (re_match model_re s) eqn:E; [|done]. intros [= <-].
  split; [done|]. by destruct s.
Qed.

(** What a request that passed validation was made from. *)
Lemma validate_chat_request_ok req v :
  validate_chat_request float_repr rv req = Ok v ->
  validate_model (default (PStr "") (dict_get req "model")) = Ok (v_model v)
  /\ validate_optional validate_max_tokens (dict_get req "max_tokens") = Ok (v_max_tokens v)
  /\ validate_optional validate_temperature (dict_get req "temperature")
     = Ok (v_temperature v)
  /\ exists msgs,
       default (PList []) (dict_get req "messages") = PList msgs
       /\ (Z.of_nat (List.length msgs) <= max_messages rv)%Z
       /\ Forall2 (validated_from rv) msgs (v_messages v).
Proof.
  unfold validate_chat_request.
  destruct (validate_model _) as [mo|]; [|done]. cbn [bind].
  destruct (default (PList []) (dict_get req "messages")) as [| | | | |msgs|]; try done.
  destruct (Z.ltb_spec (max_messages rv) (Z.of_nat (List.length msgs))); [done|].
  destruct (validate_messages float_repr rv msgs) as [vms|] eqn:E; [|done]. cbn [bind].
  destruct (validate_optional _ (dict_get req "max_tokens")); [|done]. cbn [bind].
  destruct (validate_optional _ (dict_get req "temperature")); [|done]. cbn [bind].
  intros [= <-]. cbn [v_model v_messages v_max_tokens v_temperature].
  repeat split; try done. exists msgs. repeat split; try done.
  by apply validate_messages_iff.
Qed.

Lemma validate_optional_same req v :
  validate_chat_request float_repr rv req = Ok v ->
  v_max_tokens v = dict_get req "max_tokens"
  /\ v_temperature v = dict_get req "temperature".
Proof.
  intros (_ & E1 & E2 & _)%validate_chat_request_ok. split.
  - exact (validate_optional_ok _ _ _
             (fun x y H => proj1 (validate_max_tokens_ok x y H)) E1).
  - exact (validate_optional_ok _ _ _
             (fun x y H => proj1 (validate_temperature_ok x y H)) E2).
Qed.

End AcceptFacts.

(** X6. A model name passes [validate_model] exactly when it is a
    non-empty run of ASCII letters, digits, [_] and [-], or such a run
    followed by one newline: [$] also matches just before a newline that
    ends the string. *)
Theorem model_name_accepted (m : string) :
  validate_model (PStr m) = Ok m
  <-> exists body,
        body <> [] /\ forallb model_char body = true
        /\ (chars m = body \/ chars m = body ++ ["010"%char]).
Proof.
  assert (Hre : re_match model_re m = true
                <-> exists body, body <> [] /\ forallb model_char body = true
                    /\ (chars m = body \/ chars m = body ++ ["010"%char])).
  { unfold re_match, match_at, model_re, seqs. cbn [fold_right]. cbn [exec].
    split.
    - destruct (rep_greedy _ 1 None _ None (chars m)) as [x|] eqn:E; [|done]. intros _.
      apply rep_greedy_reaches in E as (body & tail & Hm & Hlen & Hall & Hk).
      exists body. split; [by destruct body; [simpl in Hlen; lia|]|].
      split; [apply forallb_forall; by apply List.Forall_forall|].
      rewrite Hm. destruct tail as [|c [|? ?]]; [left; by rewrite app_nil_r| |done].
      destruct (Ascii.eqb_spec c "010"); [|done]. subst. by right.
    - intros (body & Hne & Hall & Hm).
      assert (exists tail, chars m = body ++ tail
                /\ (tail = [] \/ tail = ["010"%char])) as (tail & -> & Ht).
      { destruct Hm as [->| ->]; [exists []; rewrite app_nil_r|eexists]; eauto. }
      erewrite rep_greedy_run; [done| | | |].
      + apply List.Forall_forall. by apply forallb_forall.
      + destruct body; [done|simpl; lia].
      + by destruct Ht as [->| ->].
      + by destruct Ht as [->| ->]. }
  unfold validate_model. rewrite <- Hre.
  destruct (re_match model_re m); simpl; split; done.
Qed.

(** X7. The loop over the messages succeeds exactly on a list of
    well-formed messages and gives their validated forms one for one, in
    order: no message is dropped, added or moved.  So in every validated
    request the roles are allowed ones and no content is longer than
    [max_message_length]. *)
Theorem validated_messages_well_formed (float_repr : float -> string)
    (rv : RequestValidator) :
  (forall msgs vms,
      validate_messages float_repr rv msgs = Ok vms
      <-> Forall2 (validated_from rv) msgs vms)
  /\ (forall req v,
        validate_chat_request float_repr rv req = Ok v ->
        exists msgs,
          default (PList []) (dict_get req "messages") = PList msgs
          /\ (Z.of_nat (List.length msgs) <= max_messages rv)%Z
          /\ Forall2 (validated_from rv) msgs (v_messages v)
          /\ Forall (fun vm =>
                       In (vm_role vm) (allowed_roles rv)
                       /\ (Z.of_nat (String.length (vm_content vm))
                           <= max_message_length rv)%Z)
                    (v_messages v)).
Proof.
  split; [apply validate_messages_iff|].
  intros req v (_ & _ & _ & msgs & Hm & Hlen & E)%validate_chat_request_ok.
  exists msgs. repeat split; try done.
  clear -E. induction E as [|msg vm msgs vms Hm _ IH]; constructor; [|done].
  destruct Hm as (d & raw & _ & _ & Hin & _ & Hlen & ->). split; [done|].
  pose proof (sanitize_sublist raw) as Hs%sublist_length.
  rewrite <- !string_length_chars in Hs. lia.
Qed.

Lemma validated_messages_well_formed_witness :
  validate_chat_request no_float_repr default_validator
    [("model", PStr "m");
     ("messages", PList [user_message " hi <b>there</b> ";
                         PDict [("role", PStr "assistant")]])]
  = Ok {| v_model := "m";
          v_messages := [{| vm_role := "user"; vm_content := "hi bthereb" |};
                         {| vm_role := "assistant"; vm_content := "" |}];
          v_max_tokens := None; v_temperature := None |}
  /\ Forall (fun vm => In (vm_role vm) (allowed_roles default_validator)
                       /\ (Z.of_nat (String.length (vm_content vm))
                           <= max_message_length default_validator)%Z)
            [{| vm_role := "user"; vm_content := "hi bthereb" |};
             {| vm_role := "assistant"; vm_content := "" |}].
Proof.
  assert (H : validate_chat_request no_float_repr default_validator
                [("model", PStr "m");
                 ("messages", PList [user_message " hi <b>there</b> ";
                                     PDict [("role", PStr "assistant")]])]
              = Ok {| v_model := "m";
                      v_messages := [{| vm_role := "user"; vm_content := "hi bthereb" |};
                                     {| vm_role := "assistant"; vm_content := "" |}];
                      v_max_tokens := None; v_temperature := None |})
    by (vm_compute; reflexivity).
  split; [exact H|].
  destruct (proj2 (validated_messages_well_formed no_float_repr default_validator) _ _ H)
    as (msgs & _ & _ & _ & Hall).
  exact Hall.
Defined.

(** X8. The optional fields of a validated request are those of the
    request, unchanged; an accepted [max_tokens] is an integer (or a
    boolean, which Python counts as one) from 1 to 4096, and an accepted
    [temperature] is an integer from 0 to 2 or a float that is neither
    below 0 nor above 2, which lets the float that is not a number
    through. *)
Theorem validated_optional_fields (float_repr : float -> string) (rv : RequestValidator)
    (req : list (string * pyval)) (v : validated_request) :
  validate_chat_request float_repr rv req = Ok v ->
  v_max_tokens v = dict_get req "max_tokens"
  /\ v_temperature v = dict_get req "temperature"
  /\ (forall x, v_max_tokens v = Some x ->
                exists z, as_int x = Some z /\ (1 <= z <= 4096)%Z)
  /\ (forall x, v_temperature v = Some x ->
                (exists z, as_int x = Some z /\ (0 <= z <= 2)%Z)
                \/ (exists f, x = PFloat f /\ PrimFloat.ltb f 0%float = false
                              /\ PrimFloat.ltb 2%float f = false))
  /\ validate_max_tokens (PBool true) = Ok (PBool true)
  /\ validate_temperature (PFloat PrimFloat.nan) = Ok (PFloat PrimFloat.nan).
Proof.
  unfold validate_chat_request.
  destruct (validate_model _) as [mo|]; [|done]. cbn [bind].
  destruct (match default (PList []) (dict_get req "messages") with
            | PList msgs => _ | _ => _ end) as [ms|]; [|done]. cbn [bind].
  destruct (validate_optional _ (dict_get req "max_tokens")) as [mt|] eqn:E1; [|done].
  cbn [bind].
  destruct (validate_optional _ (dict_get req "temperature")) as [te|] eqn:E2; [|done].
  cbn [bind]. intros [= <-]. cbn [v_max_tokens v_temperature].
  pose proof (validate_optional_ok _ _ _
                (fun x y H => proj1 (validate_max_tokens_ok x y H)) E1) as ->.
  pose proof (validate_optional_ok _ _ _
                (fun x y H => proj1 (validate_temperature_ok x y H)) E2) as ->.
  repeat split; try done.
  - intros x Hx. rewrite Hx in E1. simpl in E1.
    destruct (validate_max_tokens x) as [y|] eqn:E; [|done].
    by apply validate_max_tokens_ok in E as [_ ?].
  - intros x Hx. rewrite Hx in E2. simpl in E2.
    destruct (validate_temperature x) as [y|] eqn:E; [|done].
    by apply validate_temperature_ok in E as [_ ?].
Qed.

Lemma validated_optional_fields_witness :
  validate_chat_request no_float_repr default_validator
    [("model", PStr "m"); ("messages", PList []);
     ("max_tokens", PBool true); ("temperature", PFloat PrimFloat.nan)]
  = Ok {| v_model := "m"; v_messages := [];
          v_max_tokens := Some (PBool true);
          v_temperature := Some (PFloat PrimFloat.nan) |}
  /\ Some (PBool true)
     = dict_get [("model", PStr "m"); ("messages", PList []);
                 ("max_tokens", PBool true); ("temperature", PFloat PrimFloat.nan)]
                "max_tokens".
Proof.
  assert (H : validate_chat_request no_float_repr default_validator
                [("model", PStr "m"); ("messages", PList []);
                 ("max_tokens", PBool true); ("temperature", PFloat PrimFloat.nan)]
              = Ok {| v_model := "m"; v_messages := [];
                      v_max_tokens := Some (PBool true);
                      v_temperature := Some (PFloat PrimFloat.nan) |})
    by (vm_compute; reflexivity).
  split; [exact H|].
  exact (proj1 (validated_optional_fields _ _ _ _ H)).
Defined.

(** ** The monitor: what a check touches *)

Section MonitorMore.




(** The two outcomes of a check, with the limit it works with. *)
Lemma check_rate_limit_cases env now m ip limit window answer m' logged :
  check_rate_limit env now m ip limit window = Ok (answer, m', logged) ->
  exists l, effective_limit env limit = Ok l
    /\ let recent := recent_requests now window (requests_of m ip) in
       failed_attempts m' = failed_attempts m
       /\ ((answer = true /\ (Z.of_nat (List.length recent) < l)%Z
            /\ rate_limits m' = <[ip := recent ++ [now]]> (<[ip := recent]> (rate_limits m))
            /\ blocked_ips m' = blocked_ips m /\ logged = [])
           \/ (answer = false /\ (l <= Z.of_nat (List.length recent))%Z
               /\ rate_limits m' = <[ip := recent]> (rate_limits m)
               /\ blocked_ips m' = {[ip]} ∪ blocked_ips m
               /\ exists line, logged = [(WARNING, line)])).
Proof.
  unfold check_rate_limit. destruct (effective_limit env limit) as [l|]; [|done].
  cbn [bind]. intros H. exists l. split; [done|]. cbv zeta.
  destruct (Z.leb_spec l
              (Z.of_nat (List.length (recent_requests now window (requests_of m ip)))));
    injection H as <- <- <-; (split; [done|]).
  - right. repeat split; try done. by eexists.
  - left. by repeat split.
Qed.

Lemma requests_of_rate_limits (rl : gmap string (list Q)) m' ip l :
  rate_limits m' = <[ip := l]> rl -> requests_of m' ip = l.
Proof. unfold requests_of. intros ->. by rewrite lookup_insert_eq. Qed.

Lemma firstn_In {A} (n : nat) (l : list A) (x : A) : In x (firstn n l) -> In x l.
Proof.
  revert n. induction l as [|a l IH]; intros [|n]; cbn [firstn]; try done.
  intros [->|H]; [by left|right; by apply (IH n)].
Qed.

Lemma firstn_snoc_lt {A} (n : nat) (l : list A) (x : A) :
  List.length l < n -> firstn n (l ++ [x]) = firstn n l ++ [x].
Proof.
  intros H. rewrite List.firstn_app.
  rewrite (List.firstn_all2 (n:=n) l) by lia.
  replace (n - List.length l) with (S (n - List.length l - 1)) by lia.
  cbn [firstn]. by rewrite List.firstn_nil.
Qed.

Lemma firstn_snoc_ge {A} (n : nat) (l : list A) (x : A) :
  n <= List.length l -> firstn n (l ++ [x]) = firstn n l.
Proof.
  intros H. rewrite List.firstn_app.
  replace (n - List.length l) with 0 by lia. cbn [firstn]. by rewrite app_nil_r.
Qed.

Lemma check_each_snoc env ip limit window m ts t :
  check_each env ip limit window m (ts ++ [t])
  = match check_rate_limit env t (snd (check_each env ip limit window m ts))
            ip limit window with
    | Ok (answer, m', _) => (fst (check_each env ip limit window m ts) ++ [answer], m')
    | Raise _ => check_each env ip limit window m ts
    end.
Proof. unfold check_each. by rewrite fold_left_app. Qed.

Lemma security_checks_blocked env now m ip :
  is_blocked m ip = true ->
  security_checks env now m ip
  = Ok (Some {| status := 403; payload := ErrorBody "Access denied" |}, m, []).
Proof. unfold security_checks. by intros ->. Qed.

End MonitorMore.

(** X9. A check for one client leaves the rest of the monitor alone: the
    record and the block status of every other client and the table of
    failed attempts are as before, whatever the answer.  The client checked
    is blocked exactly when the answer is false, and only then is a line
    logged. *)
Theorem check_rate_limit_frame (env : gmap string string) (now : Q) (m m' : SecurityMonitor)
    (ip : string) (limit window : Z) (answer : bool) (logged : list log_record) :
  check_rate_limit env now m ip limit window = Ok (answer, m', logged) ->
  (forall other, other <> ip ->
     rate_limits m' !! other = rate_limits m !! other
     /\ requests_of m' other = requests_of m other
     /\ is_blocked m' other = is_blocked m other)
  /\ failed_attempts m' = failed_attempts m
  /\ (answer = true -> blocked_ips m' = blocked_ips m /\ logged = [])
  /\ (answer = false -> is_blocked m' ip = true /\ List.length logged = 1).
Proof.
  intros H. apply check_rate_limit_cases in H as (l & _ & Hf & Hcases).
  assert (Hrl : forall other, other <> ip -> rate_limits m' !! other = rate_limits m !! other).
  { intros other Ho.
    destruct Hcases as [(_ & _ & -> & _)|(_ & _ & -> & _)];
      by rewrite ?lookup_insert_ne. }
  assert (Hbl : forall other, other <> ip -> is_blocked m' other = is_blocked m other).
  { intros other Ho. unfold is_blocked.
    destruct Hcases as [(_ & _ & _ & -> & _)|(_ & _ & _ & -> & _)]; [done|].
    apply bool_decide_ext. rewrite elem_of_union, elem_of_singleton.
    split; [by intros [?|?]|by right]. }
  split; [|split; [done|split]].
  - intros other Ho. split; [by apply Hrl|]. split; [|by apply Hbl].
    unfold requests_of. by rewrite Hrl.
  - intros ->. by destruct Hcases as [(_ & _ & _ & ? & ?)|(? & _)].
  - intros ->. destruct Hcases as [(? & _)|(_ & _ & _ & Hb & line & ->)]; [done|].
    split; [|done]. apply bool_decide_eq_true. rewrite Hb.
    by apply elem_of_union_l, elem_of_singleton.
Qed.

Lemma check_rate_limit_frame_witness :
  requests_of (run_op (monitor_with "a" 0 7) (OpCheck ∅ 0 "b" 5 60)) "a" = repeat 0%Q 7
  /\ failed_attempts (run_op (monitor_with "a" 0 7) (OpCheck ∅ 0 "b" 5 60)) = ∅.
Proof.
  cbn [run_op].
  destruct (check_rate_limit ∅ 0 (monitor_with "a" 0 7) "b" 5 60)
    as [[[answer m'] logged]|e] eqn:E; [|vm_compute; split; reflexivity].
  destruct (check_rate_limit_frame _ _ _ _ _ _ _ _ _ E) as (Hother & Hf & _).
  destruct (Hother "a") as (_ & Hr & _); [done|].
  rewrite Hr, Hf. vm_compute. split; reflexivity.
Defined.
(** X11. The sliding window in general: when a client with an empty record
    makes calls that all fall within one window of each other, exactly the
    first [l] of them are let through and recorded, [l] being the limit
    the check works with; the others are refused and not recorded, and the
    client is blocked as soon as one call is refused.  A limit of zero or
    less refuses, and blocks, at the first call. *)
Theorem sliding_window_admits_limit (env : gmap string string) (ip : string)
    (limit window l : Z) (m : SecurityMonitor) (ts : list Q) :
  effective_limit env limit = Ok l ->
  requests_of m ip = [] ->
  (forall t t', In t ts -> In t' ts -> (t' - t < inject_Z window)%Q) ->
  fst (check_each env ip limit window m ts)
  = map (fun i => Z.ltb (Z.of_nat i) l) (seq 0 (List.length ts))
  /\ requests_of (snd (check_each env ip limit window m ts)) ip
     = firstn (Z.to_nat l) ts
  /\ blocked_ips (snd (check_each env ip limit window m ts))
     = if Z.leb (Z.of_nat (List.length ts)) l || Nat.eqb (List.length ts) 0
       then blocked_ips m
       else {[ip]} ∪ blocked_ips m.
Proof.
  intros Hl Hm. induction ts as [|t ts IH] using rev_ind; intros Hw.
  - cbn. split; [done|]. rewrite List.firstn_nil. split; [done|].
    by rewrite orb_true_r.
  - destruct IH as (IH1 & IH2 & IH3).
    { intros a b Ha Hb. apply Hw; apply in_or_app; by left. }
    rewrite check_each_snoc.
    destruct (check_rate_limit env t _ ip limit window) as [[[answer m'] logged]|e] eqn:E.
    2: { pose proof (check_answer env t (snd (check_each env ip limit window m ts))
                       ip limit window l Hl) as Ha.
         by rewrite E in Ha. }
    apply check_rate_limit_cases in E as (l' & Hl' & _ & Hcases).
    rewrite Hl in Hl'. injection Hl' as <-.
    rewrite IH2 in Hcases.
    rewrite recent_requests_all in Hcases.
    2: { apply List.Forall_forall. intros a Ha%firstn_In.
         apply Hw; apply in_or_app; [by left|right; by left]. }
    rewrite List.length_firstn in Hcases.
    rewrite length_app, seq_app, map_app. cbn [List.length seq map plus].
    cbn [fst snd]. rewrite IH1.
    assert (Hn : Nat.eqb (List.length ts + 1) 0 = false) by (apply Nat.eqb_neq; lia).
    rewrite Hn, orb_false_r.
    destruct Hcases as [(-> & Hc & Hr & Hb & _)|(-> & Hc & Hr & Hb & _)].
    + assert (Hlt : (Z.of_nat (List.length ts) < l)%Z) by lia.
      split; [|split].
      * f_equal. f_equal. symmetry. by apply Z.ltb_lt.
      * rewrite (requests_of_rate_limits _ m' ip _ Hr).
        rewrite firstn_snoc_lt by lia. done.
      * rewrite Hb, IH3.
        assert (Z.leb (Z.of_nat (List.length ts)) l = true) as -> by (apply Z.leb_le; lia).
        cbn [orb].
        assert (Z.leb (Z.of_nat (List.length ts + 1)) l = true) as ->
          by (apply Z.leb_le; lia).
        done.
    + assert (Hge : (l <= Z.of_nat (List.length ts))%Z) by lia.
      split; [|split].
      * f_equal. f_equal. symmetry. by apply Z.ltb_ge.
      * rewrite (requests_of_rate_limits _ m' ip _ Hr).
        rewrite firstn_snoc_ge by lia. done.
      * rewrite Hb, IH3.
        assert (Z.leb (Z.of_nat (List.length ts + 1)) l = false) as ->
          by (apply Z.leb_gt; lia).
        destruct (_ || _); [done|].
        by rewrite (assoc_L (∪)), (idemp_L (∪)).
Qed.


Lemma sliding_window_admits_limit_witness :
  check_each ∅ "10.0.0.7" 2 10 SecurityMonitor_init [0%Q; 3%Q; 9%Q; (19 # 2)%Q]
  = ([true; true; false; false],
     snd (check_each ∅ "10.0.0.7" 2 10 SecurityMonitor_init [0%Q; 3%Q; 9%Q; (19 # 2)%Q]))
  /\ requests_of
       (snd (check_each ∅ "10.0.0.7" 2 10 SecurityMonitor_init [0%Q; 3%Q; 9%Q; (19 # 2)%Q]))
       "10.0.0.7" = [0%Q; 3%Q]
  /\ blocked_ips
       (snd (check_each ∅ "10.0.0.7" 2 10 SecurityMonitor_init [0%Q; 3%Q; 9%Q; (19 # 2)%Q]))
     = {[ "10.0.0.7" ]} ∪ ∅.
Proof.
  assert (Hw : forall t t' : Q,
             In t [0%Q; 3%Q; 9%Q; (19 # 2)%Q] -> In t' [0%Q; 3%Q; 9%Q; (19 # 2)%Q] ->
             (t' - t < inject_Z 10)%Q).
  { intros t t' Ht Ht'. cbn [In] in Ht, Ht'.
    destruct Ht as [<-|[<-|[<-|[<-|[]]]]], Ht' as [<-|[<-|[<-|[<-|[]]]]];
      vm_compute; reflexivity. }
  destruct (sliding_window_admits_limit ∅ "10.0.0.7" 2 10 2 SecurityMonitor_init
              [0%Q; 3%Q; 9%Q; (19 # 2)%Q] eq_refl eq_refl Hw) as (H1 & H2 & H3).
  split; [|split].
  - rewrite (surjective_pairing (check_each _ _ _ _ _ _)), H1. reflexivity.
  - exact H2.
  - exact H3.
Defined.



(** X12. The hook before each request answers 403 to a blocked client and
    429 to the call that goes over the limit, and to no other call does it
    give a response.  After either, every later request of the client gets
    403 and leaves the monitor as it is, whatever happened in between and
    however long ago: being refused once locks the client out for good. *)
Theorem refused_client_stays_denied (env : gmap string string) (now : Q)
    (m m' : SecurityMonitor) (ip : string) (r : http_response) (logged : list log_record) :
  security_checks env now m ip = Ok (Some r, m', logged) ->
  ((is_blocked m ip = true /\ m' = m /\ logged = []
    /\ r = {| status := 403; payload := ErrorBody "Access denied" |})
   \/ (is_blocked m ip = false /\ List.length logged = 1
       /\ r = {| status := 429; payload := ErrorBody "Rate limit exceeded" |}))
  /\ forall ops env' now',
       security_checks env' now' (run_ops m' ops) ip
       = Ok (Some {| status := 403; payload := ErrorBody "Access denied" |},
             run_ops m' ops, []).
Proof.
  unfold security_checks at 1. destruct (is_blocked m ip) eqn:Eb.
  - intros [= <- <- <-]. split; [by left|].
    intros ops env' now'. apply security_checks_blocked.
    apply is_blocked_elem, run_ops_keeps_blocked. by apply is_blocked_elem.
  - destruct (check_rate_limit env now m ip 100 3600) as [[[answer m1] lg]|e] eqn:E;
      [|done].
    cbn [bind]. destruct answer; [done|]. cbn [negb]. intros [= <- <- <-].
    apply check_rate_limit_cases in E
      as (l & _ & _ & [(? & _)|(_ & _ & _ & Hb & line & ->)]); [done|].
    split; [right; by repeat split|].
    intros ops env' now'. apply security_checks_blocked.
    apply is_blocked_elem, run_ops_keeps_blocked. rewrite Hb.
    by apply elem_of_union_l, elem_of_singleton.
Qed.

Lemma refused_client_stays_denied_witness :
  security_checks {[ "RATE_LIMIT_PER_HOUR" := "2" ]} 5 (monitor_with "a" 0 2) "a"
  = Ok (Some {| status := 429; payload := ErrorBody "Rate limit exceeded" |},
        run_op (monitor_with "a" 0 2) (OpCheck {[ "RATE_LIMIT_PER_HOUR" := "2" ]} 5 "a" 100 3600),
        [(WARNING, "Blocked IP a: Rate limit exceeded: 2/3600s")])
  /\ security_checks ∅ 99999
       (run_ops (run_op (monitor_with "a" 0 2)
                   (OpCheck {[ "RATE_LIMIT_PER_HOUR" := "2" ]} 5 "a" 100 3600)) [])
       "a"
     = Ok (Some {| status := 403; payload := ErrorBody "Access denied" |},
           run_ops (run_op (monitor_with "a" 0 2)
                      (OpCheck {[ "RATE_LIMIT_PER_HOUR" := "2" ]} 5 "a" 100 3600)) [],
           []).
Proof.
  assert (H : security_checks {[ "RATE_LIMIT_PER_HOUR" := "2" ]} 5 (monitor_with "a" 0 2) "a"
              = Ok (Some {| status := 429; payload := ErrorBody "Rate limit exceeded" |},
                    run_op (monitor_with "a" 0 2)
                      (OpCheck {[ "RATE_LIMIT_PER_HOUR" := "2" ]} 5 "a" 100 3600),
                    [(WARNING, "Blocked IP a: Rate limit exceeded: 2/3600s")]))
    by (vm_compute; reflexivity).
  split; [exact H|].
  exact (proj2 (refused_client_stays_denied _ _ _ _ _ _ _ H) [] ∅ 99999%Q).
Defined.

(** ** The two entry points *)

Section EntryFacts.

Variable float_repr : float -> string.
Variable env : gmap string string.
Variable rv : RequestValidator.
Variable up : provider.

Lemma upstream_calls_app (a b : list event) :
  upstream_calls (a ++ b) = upstream_calls a ++ upstream_calls b.
Proof. unfold upstream_calls. apply flat_map_app. Qed.

(** The request [chat_completion_body] validates. *)
Lemma chat_request_get (d : list (string * pyval)) (mo ms : pyval) :
  let req := [("model", mo); ("messages", ms)]
               ++ match dict_get d "max_tokens" with
                  | Some x => [("max_tokens", x)] | None => [] end
               ++ match dict_get d "temperature" with
                  | Some x => [("temperature", x)] | None => [] end in
  dict_get req "model" = Some mo
  /\ dict_get req "messages" = Some ms
  /\ dict_get req "max_tokens" = dict_get d "max_tokens"
  /\ dict_get req "temperature" = dict_get d "temperature".
Proof.
  cbv zeta.
  destruct (dict_get d "max_tokens"), (dict_get d "temperature"); repeat split.
Qed.

(** The only call [client_chat_completion] makes. *)
Lemma client_chat_completion_call self messages model_name max_tokens temperature :
  let req := {| cr_model := if String.eqb model_name "" then model self else model_name;
                cr_messages := messages; cr_max_tokens := max_tokens;
                cr_temperature := temperature; cr_stream := false |} in
  upstream_calls
    (snd (client_chat_completion self up messages model_name max_tokens temperature))
  = [req]
  /\ fst (client_chat_completion self up messages model_name max_tokens temperature)
     = match create up req with
       | Ok response => Ok response
       | Raise e => Raise (client_facing (exn_cls e))
       end.
Proof.
  cbv zeta. unfold client_chat_completion.
  destruct (create up _) as [response|e]; [done|]. by destruct (exn_cls e).
Qed.

(** Every way through [chat_completion_body]: no call, or one call with
    the validated request, answered as [answer_to] says. *)
Lemma chat_completion_body_cases client d timestamp :
  let chat_request :=
    [("model", default (PStr (model client)) (dict_get d "model"));
     ("messages", request_messages d)]
      ++ match dict_get d "max_tokens" with Some x => [("max_tokens", x)] | None => [] end
      ++ match dict_get d "temperature" with Some x => [("temperature", x)] | None => [] end in
  let out := chat_completion_body float_repr env rv up client d timestamp in
  upstream_calls (snd out) = []
  \/ exists v,
       validate_chat_request float_repr rv chat_request = Ok v
       /\ (privacy_filter_enabled env = true -> validate_request_privacy (v_messages v) = [])
       /\ let req := {| cr_model := v_model v; cr_messages := v_messages v;
                        cr_max_tokens := v_max_tokens v;
                        cr_temperature := v_temperature v; cr_stream := false |} in
          upstream_calls (snd out) = [req]
          /\ match fst out with
             | Ok response => answer_to env req timestamp (create up req) = response
             | Raise e =>
                 match create up req with
                 | Raise e' => e = client_facing (exn_cls e')
                 | Ok response => choices response = []
                                  /\ e = Exn IndexError "list index out of range"
                 end
             end.
Proof.
  cbv zeta. unfold chat_completion_body. fold (request_messages d).
  destruct (validate_chat_request _ _ _) as [v|e] eqn:Ev; [|by left].
  destruct (privacy_filter_enabled env
            && match validate_request_privacy (v_messages v) with
               | [] => false | _ :: _ => true end) eqn:Ep; [by left|].
  right. exists v. split; [done|]. split.
  { intros Hp. rewrite Hp in Ep. by destruct (validate_request_privacy (v_messages v)). }
  pose proof (validate_chat_request_ok _ _ _ _ Ev) as (Hmo & _).
  apply validate_model_ok in Hmo as [_ Hne].
  pose proof (client_chat_completion_call client (v_messages v) (v_model v)
                (v_max_tokens v) (v_temperature v)) as [Hcalls Hout].
  cbv zeta in Hcalls, Hout. rewrite Hne in Hcalls, Hout.
  destruct (client_chat_completion _ _ _ _ _ _) as [outcome trace].
  cbn [fst snd] in Hcalls, Hout. subst outcome.
  destruct (create up _) as [response|e'] eqn:Ec; cbn [fst snd].
  - destruct (choices response) as [|first rest] eqn:Ech; cbn [fst snd].
    + by repeat split.
    + split; [done|]. unfold answer_to. by rewrite Ech.
  - by split.
Qed.

(** The loop over the chunks gives content events only. *)
Lemma stream_chunks_contents chunks :
  forallb is_content (fst (stream_chunks env chunks)) = true
  /\ (privacy_filter_enabled env = true ->
      Forall (fun e => exists raw, e = SseContent (redact_sensitive_data raw))
             (fst (stream_chunks env chunks))).
Proof.
  induction chunks as [|c chunks [IH1 IH2]]; [by split|].
  cbn [stream_chunks]. destruct c as [|[content|] rest]; [by split|..|by split].
  destruct (stream_chunks env chunks) as [events raised]. cbn [fst] in *.
  split; [done|]. intros Hp. constructor; [|by apply IH2].
  rewrite Hp. by eexists.
Qed.

(** [chat_completion] calls the provider only through
    [chat_completion_body], and answers with what it returns or with the
    response of the handler of what it raises. *)
Lemma chat_completion_cases gc data timestamp :
  let out := chat_completion float_repr env rv gc up data timestamp in
  upstream_calls (snd out) = []
  \/ exists client d,
       gc = Some client /\ data = PDict d
       /\ let inner := chat_completion_body float_repr env rv up client d timestamp in
          upstream_calls (snd out) = upstream_calls (snd inner)
          /\ fst out
             = match fst inner with
               | Ok response => response
               | Raise e =>
                   match exn_cls e with
                   | ValueError => {| status := 400; payload := ErrorBody (exn_msg e) |}
                   | RuntimeError => {| status := 500; payload := ErrorBody (exn_msg e) |}
                   | _ => {| status := 500; payload := ErrorBody "Internal server error" |}
                   end
               end.
Proof.
  cbv zeta. unfold chat_completion. destruct gc as [client|]; [|by left].
  destruct (negb (truthy data)); [by left|].
  destruct data as [| | | | | |d]; try (left; by destruct (exn_cls (not_an_object _))).
  right. exists client, d. split; [done|]. split; [done|].
  destruct (chat_completion_body _ _ _ _ _ _ _) as [[response|e] trace]; cbn [fst snd].
  - done.
  - destruct (exn_cls e); cbn [fst snd]; rewrite ?upstream_calls_app; cbn;
      by rewrite ?app_nil_r.
Qed.


End EntryFacts.




(** X13. [/api/chat] calls the provider at most once, never with
    [stream], and only with a request that passed validation: the model
    name has the accepted format, the messages are the validated forms of
    those of the body (allowed roles, sanitized contents), one for one,
    and the optional fields are those of the body.  With the privacy
    filter enabled, no message that goes upstream has a finding. *)
Theorem chat_upstream_requests_validated (float_repr : float -> string)
    (env : gmap string string) (rv : RequestValidator) (gc : option SecureGaiaClient)
    (up : provider) (data : pyval) (timestamp : string) :
  let trace := snd (chat_completion float_repr env rv gc up data timestamp) in
  List.length (upstream_calls trace) <= 1
  /\ forall req, In req (upstream_calls trace) ->
       cr_stream req = false
       /\ validate_model (PStr (cr_model req)) = Ok (cr_model req)
       /\ (exists d msgs,
             data = PDict d /\ request_messages d = PList msgs
             /\ (Z.of_nat (List.length msgs) <= max_messages rv)%Z
             /\ Forall2 (validated_from rv) msgs (cr_messages req)
             /\ cr_max_tokens req = dict_get d "max_tokens"
             /\ cr_temperature req = dict_get d "temperature")
       /\ (privacy_filter_enabled env = true ->
           Forall (fun vm => detect_sensitive_data (vm_content vm) = []) (cr_messages req)).
Proof.
  cbv zeta.
  destruct (chat_completion_cases float_repr env rv up gc data timestamp)
    as [->|(client & d & -> & -> & Hcalls & _)]; [split; [cbn; lia|done]|].
  rewrite Hcalls.
  destruct (chat_completion_body_cases float_repr env rv up client d timestamp)
    as [->|(v & Hv & Hp & -> & _)]; [split; [cbn; lia|done]|].
  split; [cbn; lia|]. intros req [<-|[]]. cbn [cr_stream cr_model cr_messages
                                               cr_max_tokens cr_temperature].
  pose proof (validate_chat_request_ok _ _ _ _ Hv) as (Hmo & _ & _ & msgs & Hm & Hlen & Hall).
  pose proof (validate_optional_same _ _ _ _ Hv) as [Hmt Hte].
  pose proof (chat_request_get d (default (PStr (model client)) (dict_get d "model"))
                (request_messages d)) as (Gmo & Gms & Gmt & Gte).
  cbv zeta in Gmo, Gms, Gmt, Gte.
  rewrite Gmo in Hmo. rewrite Gms in Hm. rewrite Gmt in Hmt. rewrite Gte in Hte.
  cbn [default from_option id] in Hmo, Hm.
  split; [done|]. split.
  { pose proof (validate_model_ok _ _ Hmo) as [E _]. by rewrite E in Hmo. }
  split; [by exists d, msgs|].
  intros Hen. by apply privacy_violations_nil, Hp.
Qed.

(** X15. The response of [/api/chat] to a request it sent upstream is
    fixed by what the provider gave back: the first choice, redacted when
    the filter is enabled, with status 200; status 500 when there is no
    choice; and for a failure, the status and the fixed message of its
    class, never the text of the provider's error. *)
Theorem chat_answer_of_upstream (float_repr : float -> string)
    (env : gmap string string) (rv : RequestValidator) (gc : option SecureGaiaClient)
    (up : provider) (data : pyval) (timestamp : string) (req : completion_request) :
  In req (upstream_calls (snd (chat_completion float_repr env rv gc up data timestamp))) ->
  fst (chat_completion float_repr env rv gc up data timestamp)
  = answer_to env req timestamp (create up req).
Proof.
  destruct (chat_completion_cases float_repr env rv up gc data timestamp)
    as [->|(client & d & -> & -> & Hcalls & Hout)]; [done|].
  rewrite Hcalls, Hout.
  destruct (chat_completion_body_cases float_repr env rv up client d timestamp)
    as [->|(v & _ & _ & -> & Hans)]; [done|].
  intros [<-|[]].
  destruct (fst (chat_completion_body _ _ _ _ _ _ _)) as [response|e]; [done|].
  destruct (create up _) as [response|e'].
  - destruct Hans as [Hch ->]. unfold answer_to. by rewrite Hch.
  - subst e. unfold answer_to. by destruct (exn_cls e').
Qed.

Lemma chat_answer_of_upstream_witness :
  chat_completion no_float_repr example_environment default_validator (Some example_client)
    {| create := fun _ => Ok {| choices := [Some "mail me at a.b@example.org"];
                               completion_model := None |};
       create_stream := fun _ => Ok ([], None) |}
    (PDict [("message", PStr "hello")]) "now"
  = ({| status := 200;
        payload := ChatBody "mail me at [REDACTED_EMAIL]" "default" "now" |},
     [Upstream {| cr_model := "default";
                  cr_messages := [{| vm_role := "user"; vm_content := "hello" |}];
                  cr_max_tokens := None; cr_temperature := None; cr_stream := false |}]).
Proof.
  set (up := {| create := fun _ => Ok {| choices := [Some "mail me at a.b@example.org"];
                                        completion_model := None |};
                create_stream := fun _ => Ok ([], None) |}).
  set (req := {| cr_model := "default";
                 cr_messages := [{| vm_role := "user"; vm_content := "hello" |}];
                 cr_max_tokens := None; cr_temperature := None; cr_stream := false |}).
  assert (Ht : snd (chat_completion no_float_repr example_environment default_validator
                      (Some example_client) up (PDict [("message", PStr "hello")]) "now")
               = [Upstream req]) by (vm_compute; reflexivity).
  assert (Hin : In req (upstream_calls
                          (snd (chat_completion no_float_repr example_environment
                                  default_validator (Some example_client) up
                                  (PDict [("message", PStr "hello")]) "now"))))
    by (rewrite Ht; left; reflexivity).
  pose proof (chat_answer_of_upstream _ _ _ _ _ _ _ _ Hin) as Hf.
  rewrite (surjective_pairing (chat_completion _ _ _ _ _ _ _)), Hf, Ht.
  vm_compute. reflexivity.
Defined.

(** The generator from the point where it has its parameters. *)
Lemma generate_from_protocol (float_repr : float -> string)
    (env : gmap string string) (rv : RequestValidator) (gc : option SecureGaiaClient)
    (up : provider) (message model_arg : option string) :
  let out := generate_from float_repr env rv gc up message model_arg in
  (exists contents last,
      fst out = contents ++ [last]
      /\ forallb is_content contents = true
      /\ is_content last = false
      /\ (privacy_filter_enabled env = true ->
          Forall (fun e => exists raw, e = SseContent (redact_sensitive_data raw)) contents)
      /\ (last = SseDone -> List.length (upstream_calls (snd out)) = 1)
      /\ (upstream_calls (snd out) = [] -> contents = []))
  /\ List.length (upstream_calls (snd out)) <= 1
  /\ forall req, In req (upstream_calls (snd out)) ->
       cr_stream req = true /\ cr_max_tokens req = None /\ cr_temperature req = None
       /\ validate_model (PStr (cr_model req)) = Ok (cr_model req)
       /\ exists msg,
            message = Some msg
            /\ (Z.of_nat (String.length msg) <= max_message_length rv)%Z
            /\ cr_messages req
               = [{| vm_role := "user"; vm_content := sanitize_content msg |}].
Proof.
  cbv zeta. unfold generate_from, stream_failed. cbv zeta.
  destruct message as [msg|].
  2: { split; [exists [], (SseError "Message parameter required"); by repeat split|].
       split; [cbn; lia|done]. }
  destruct (String.eqb msg "").
  { split; [exists [], (SseError "Message parameter required"); by repeat split|].
    split; [cbn; lia|done]. }
  destruct gc as [client|].
  2: { split; [exists [], (SseError "GaiaNet not configured"); by repeat split|].
       split; [cbn; lia|done]. }
  destruct (validate_chat_request _ _ _) as [v|e] eqn:Ev.
  2: { split; [exists [], (SseError (exn_msg e)); by repeat split|].
       split; [cbn; lia|done]. }
  pose proof (validate_chat_request_ok _ _ _ _ Ev) as (Hmo & _ & _ & msgs & Hm & _ & Hall).
  cbn [dict_get String.eqb Ascii.eqb Bool.eqb default from_option id] in Hmo, Hm.
  injection Hm as <-.
  apply Forall2_cons_inv_l in Hall as (vm & vms & Hvm & Hnil & Hvs).
  apply Forall2_nil_inv_l in Hnil as ->.
  destruct Hvm as (d & raw & Hd & Hrole & _ & Hraw & Hlen & Hc).
  injection Hd as <-. cbn in Hrole, Hraw. injection Hrole as Hrole. injection Hraw as <-.
  assert (Hreq : forall req : completion_request,
             In req [{| cr_model := v_model v; cr_messages := v_messages v;
                        cr_max_tokens := None; cr_temperature := None;
                        cr_stream := true |}] ->
             cr_stream req = true /\ cr_max_tokens req = None /\ cr_temperature req = None
             /\ validate_model (PStr (cr_model req)) = Ok (cr_model req)
             /\ exists msg0,
                  Some msg = Some msg0
                  /\ (Z.of_nat (String.length msg0) <= max_message_length rv)%Z
                  /\ cr_messages req
                     = [{| vm_role := "user"; vm_content := sanitize_content msg0 |}]).
  { intros req [<-|[]]. cbn [cr_stream cr_max_tokens cr_temperature cr_model cr_messages].
    repeat split; try done.
    - pose proof (validate_model_ok _ _ Hmo) as [E _]. by rewrite E in Hmo.
    - exists msg. repeat split; try done. rewrite Hvs. f_equal.
      destruct vm as [r c]. cbn [vm_role vm_content] in *. by subst. }
  destruct (create_stream up _) as [[chunks ended]|e].
  2: { split; [exists [], (SseError (exn_msg e)); by repeat split|].
       split; [cbn; lia|]. cbn [snd]. rewrite upstream_calls_app. exact Hreq. }
  pose proof (stream_chunks_contents env chunks) as [Hc1 Hc2].
  destruct (stream_chunks env chunks) as [events raised]. cbn [fst] in Hc1, Hc2.
  assert (Hcalls : forall msg',
             upstream_calls ([Upstream {| cr_model := v_model v; cr_messages := v_messages v;
                                          cr_max_tokens := None; cr_temperature := None;
                                          cr_stream := true |}]
                               ++ [Logged ERROR msg'])
             = [{| cr_model := v_model v; cr_messages := v_messages v;
                   cr_max_tokens := None; cr_temperature := None; cr_stream := true |}])
    by done.
  destruct raised as [e|]; [|destruct ended as [e|]]; cbn [fst snd]; rewrite ?Hcalls.
  - split; [exists events, (SseError (exn_msg e)); by repeat split|].
    split; [cbn; lia|exact Hreq].
  - split; [exists events, (SseError (exn_msg e)); by repeat split|].
    split; [cbn; lia|exact Hreq].
  - split; [exists events, SseDone; by repeat split|].
    split; [cbn; lia|exact Hreq].
Qed.

(** ** What the entry points read *)

(** X14. Whenever the generator of [/api/chat/stream] runs, inside a
    request context or outside, what it yields is a run of content events
    closed by exactly one final event, [done] or an error; with the filter
    enabled every content is a redacted text.  The provider is called at
    most once, and only when [request.args] was there to read: with
    [stream] set, without optional fields and with the one user message
    whose content is the sanitized [message] parameter; a stream that
    ends with [done] has made that call.  As the server runs the
    generator, outside the request context, the stream is always the one
    error event with the text of Flask's error, with one log record and
    no call of the provider. *)
Theorem stream_protocol (float_repr : float -> string)
    (env : gmap string string) (rv : RequestValidator) (gc : option SecureGaiaClient)
    (up : provider) (request_args : result (list (string * string))) :
  let out := generate float_repr env rv gc up request_args in
  (exists contents last,
      fst out = contents ++ [last]
      /\ forallb is_content contents = true
      /\ is_content last = false
      /\ (privacy_filter_enabled env = true ->
          Forall (fun e => exists raw, e = SseContent (redact_sensitive_data raw)) contents)
      /\ (last = SseDone -> List.length (upstream_calls (snd out)) = 1)
      /\ (upstream_calls (snd out) = [] -> contents = []))
  /\ List.length (upstream_calls (snd out)) <= 1
  /\ (forall req, In req (upstream_calls (snd out)) ->
        cr_stream req = true /\ cr_max_tokens req = None /\ cr_temperature req = None
        /\ validate_model (PStr (cr_model req)) = Ok (cr_model req)
        /\ exists args msg,
             request_args = Ok args
             /\ args_get args "message" = Some msg
             /\ (Z.of_nat (String.length msg) <= max_message_length rv)%Z
             /\ cr_messages req
                = [{| vm_role := "user"; vm_content := sanitize_content msg |}])
  /\ (forall outside,
        chat_stream float_repr env rv gc up outside
        = ([SseError outside], [Logged ERROR ("Streaming error: " ++ outside)%string])).
Proof.
  cbv zeta. split; [|split; [|split; [|done]]].
  - destruct request_args as [args|e]; [apply generate_from_protocol|].
    exists [], (SseError (exn_msg e)). by repeat split.
  - destruct request_args as [args|e]; [apply generate_from_protocol|]. cbn. lia.
  - destruct request_args as [args|e]; [|by intros req []].
    intros req Hin.
    destruct (generate_from_protocol float_repr env rv gc up
                (args_get args "message") (args_get args "model"))
      as (_ & _ & Hreq).
    destruct (Hreq req Hin) as (H1 & H2 & H3 & H4 & msg & Hm & Hlen & Hc).
    repeat split; try done. by exists args, msg.
Qed.

(** X16. [/api/chat] reads five keys of the body and no other: two
    non-empty bodies that agree on [message], [model], [max_tokens] and
    [temperature], and on [messages] when there is no [message], get the
    same response and cause the same calls.  So a [messages] list beside a
    [message], or a key such as [conversation] or [stream], changes
    nothing. *)
Theorem chat_reads_five_keys (float_repr : float -> string)
    (env : gmap string string) (rv : RequestValidator) (gc : option SecureGaiaClient)
    (up : provider) (d d' : list (string * pyval)) (timestamp : string) :
  d <> [] -> d' <> [] ->
  dict_get d "message" = dict_get d' "message" ->
  dict_get d "model" = dict_get d' "model" ->
  dict_get d "max_tokens" = dict_get d' "max_tokens" ->
  dict_get d "temperature" = dict_get d' "temperature" ->
  (dict_get d "message" = None -> dict_get d "messages" = dict_get d' "messages") ->
  chat_completion float_repr env rv gc up (PDict d) timestamp
  = chat_completion float_repr env rv gc up (PDict d') timestamp.
Proof.
  intros Hd Hd' Hmsg Hmo Hmt Hte Hms.
  unfold chat_completion. destruct gc as [client|]; [|done].
  assert (truthy (PDict d) = truthy (PDict d')) as -> by by destruct d, d'.
  destruct (negb (truthy (PDict d'))); [done|].
  assert (chat_completion_body float_repr env rv up client d timestamp
          = chat_completion_body float_repr env rv up client d' timestamp) as ->; [|done].
  unfold chat_completion_body. rewrite <- Hmsg, <- Hmo, <- Hmt, <- Hte.
  destruct (dict_get d "message"); [done|]. by rewrite Hms.
Qed.

Lemma chat_reads_five_keys_witness :
  chat_completion no_float_repr example_environment default_validator (Some example_client)
    (failing_provider NotFoundError "no such model")
    (PDict [("message", PStr "hello");
            ("conversation", PList [user_message "my card is 4111 1111 1111 1111"]);
            ("messages", PInt 3); ("stream", PBool true)]) "now"
  = chat_completion no_float_repr example_environment default_validator (Some example_client)
      (failing_provider NotFoundError "no such model")
      (PDict [("message", PStr "hello")]) "now".
Proof.
  apply chat_reads_five_keys; try reflexivity; try discriminate.
Defined.

(** X17. A body that is not a JSON object never reaches validation or the
    provider: when it is empty (null, false, zero, an empty string, list or
    object) the answer is 400 with [Invalid JSON], and otherwise 500 with
    [Internal server error]. *)
Theorem chat_rejects_non_objects (float_repr : float -> string)
    (env : gmap string string) (rv : RequestValidator) (client : SecureGaiaClient)
    (up : provider) (data : pyval) (timestamp : string) :
  (forall d, data = PDict d -> d = []) ->
  fst (chat_completion float_repr env rv (Some client) up data timestamp)
  = (if truthy data
     then {| status := 500; payload := ErrorBody "Internal server error" |}
     else {| status := 400; payload := ErrorBody "Invalid JSON" |})
  /\ upstream_calls (snd (chat_completion float_repr env rv (Some client) up data timestamp))
     = [].
Proof.
  intros Hd.
  assert (Hcls : exn_cls (not_an_object data) = TypeError
                 \/ exn_cls (not_an_object data) = AttributeError).
  { unfold not_an_object. repeat case_match; auto. }
  unfold chat_completion. destruct (truthy data) eqn:Et; cbn [negb]; [|by split].
  destruct data as [|b|z|f|s|l|d];
    try (destruct Hcls as [-> | ->]; cbn [fst snd]; (split; [done|]);
         rewrite upstream_calls_app; reflexivity).
  rewrite (Hd d eq_refl) in Et. discriminate Et.
Qed.

Lemma chat_rejects_non_objects_witness :
  fst (chat_completion no_float_repr example_environment default_validator
         (Some example_client) (failing_provider NotFoundError "no such model")
         (PList [PStr "message"]) "now")
  = {| status := 500; payload := ErrorBody "Internal server error" |}
  /\ fst (chat_completion no_float_repr example_environment default_validator
            (Some example_client) (failing_provider NotFoundError "no such model")
            (PDict []) "now")
     = {| status := 400; payload := ErrorBody "Invalid JSON" |}.
Proof.
  split.
  - refine (proj1 (chat_rejects_non_objects _ _ _ _ _ (PList [PStr "message"]) _ _)).
    intros d H. discriminate H.
  - refine (proj1 (chat_rejects_non_objects _ _ _ _ _ (PDict []) _ _)).
    intros d H. injection H as <-. reflexivity.
Defined.

(** X18. The module has no client when [GAIANET_BASE_URL] or
    [GAIANET_API_KEY] is missing or empty, in which case the constructor
    of the provider's client is not called, or when that constructor
    raises a [ValueError]; when the constructor raises anything else the
    module does not load; and otherwise the client carries the two
    values and [GAIANET_MODEL], or [default].  Without a client
    [/api/chat] answers every request with 500 and [GaiaNet not
    configured], calls no provider and logs nothing, and the generator of
    the stream yields one error event and calls no provider. *)
Theorem unconfigured_backend_calls_nothing (float_repr : float -> string)
    (new_client : string -> string -> result unit)
    (env : gmap string string) (rv : RequestValidator) (up : provider) :
  let url := getenv env "GAIANET_BASE_URL" "" in
  let key := getenv env "GAIANET_API_KEY" "" in
  (gaia_client_of new_client env = Ok None
   <-> (url = "" \/ key = ""
        \/ exists e, new_client url key = Raise e /\ exn_cls e = ValueError))
  /\ (forall client,
        gaia_client_of new_client env = Ok (Some client)
        <-> (url <> "" /\ key <> "" /\ new_client url key = Ok tt
             /\ client = {| base_url := url; api_key := key;
                            model := getenv env "GAIANET_MODEL" "default" |}))
  /\ (forall e,
        gaia_client_of new_client env = Raise e
        <-> (url <> "" /\ key <> "" /\ new_client url key = Raise e
             /\ exn_cls e <> ValueError))
  /\ (forall data timestamp,
        chat_completion float_repr env rv None up data timestamp
        = ({| status := 500; payload := ErrorBody "GaiaNet not configured" |}, []))
  /\ (forall request_args,
        exists text,
          fst (generate float_repr env rv None up request_args) = [SseError text]
          /\ upstream_calls (snd (generate float_repr env rv None up request_args)) = []).
Proof.
  cbv zeta.
  assert (Hget : forall k d, getenv env k d = default d (env !! k))
    by (intros k d; unfold getenv; by destruct (env !! k)).
  rewrite !Hget. unfold gaia_client_of, SecureGaiaClient_init.
  generalize (default "" (env !! "GAIANET_BASE_URL")) as url.
  generalize (default "" (env !! "GAIANET_API_KEY")) as key.
  intros key url.
  split; [|split; [|split; [|split]]].
  - destruct (String.eqb_spec url "") as [Hu|Hu], (String.eqb_spec key "") as [Hk|Hk];
      cbn [orb exn_cls]; try (split; [auto|done]).
    destruct (new_client url key) as [[]|e] eqn:En; cbn [bind].
    + split; [done|]. intros [?|[?|(e & ? & _)]]; done.
    + destruct (exn_cls e) eqn:Ee; split; try done; try (by intros _; eauto).
      all: intros [?|[?|(e' & [= <-] & ?)]]; try done; congruence.
  - intros client.
    destruct (String.eqb_spec url "") as [Hu|Hu], (String.eqb_spec key "") as [Hk|Hk];
      cbn [orb exn_cls]; try (split; [done|by intros (? & ? & _)]).
    destruct (new_client url key) as [[]|e] eqn:En; cbn [bind].
    + split; [by intros [= <-]|by intros (_ & _ & _ & ->)].
    + split; [by destruct (exn_cls e)|by intros (_ & _ & ? & _)].
  - intros e.
    destruct (String.eqb_spec url "") as [Hu|Hu], (String.eqb_spec key "") as [Hk|Hk];
      cbn [orb exn_cls]; try (split; [done|by intros (? & ? & _)]).
    destruct (new_client url key) as [[]|e'] eqn:En; cbn [bind].
    + split; [done|by intros (_ & _ & ? & _)].
    + split.
      * destruct (exn_cls e') eqn:Ee; try done; intros [= <-]; repeat split; congruence.
      * intros (_ & _ & [= <-] & Hne). by destruct (exn_cls e').
  - done.
  - intros [args|e]; [|by eexists].
    unfold generate, generate_from.
    destruct (args_get args "message") as [msg|]; [destruct (String.eqb msg "")|];
      by eexists.
Qed.

(** ** The configuration check *)

Module ConfigFacts.
Import Config.

Section CheckFacts.

Variable urlparse : string -> result (string * string).
Variable getuid : option Z.

Ltac cases f :=
  unfold f, add_issue, add_warning; repeat case_match; cbn [issues warnings];
  rewrite ?app_nil_r, <- ?app_assoc; try done.

(** The first check raises exactly when [urlparse] does, on a URL that is
    not empty. *)
Lemma gaianet_raises self config e :
  validate_gaianet_config urlparse self config = Raise e
  <-> (getenv config "GAIANET_BASE_URL" "" <> ""
       /\ urlparse (getenv config "GAIANET_BASE_URL" "") = Raise e).
Proof.
  unfold validate_gaianet_config, validate_base_url.
  destruct (String.eqb_spec (getenv config "GAIANET_BASE_URL" "") "") as [Hu|Hu].
  - cbn [bind]. split; [done|by intros [? _]].
  - destruct (urlparse (getenv config "GAIANET_BASE_URL" "")) as [[scheme netloc]|e'];
      cbn [bind].
    + split; [|by intros [_ ?]]. by repeat case_match.
    + split; [by intros [= <-]|by intros [_ [= <-]]].
Qed.

(** Each check leaves the issues it found before in place and appends its
    own, which do not depend on what was there. *)
Lemma performance_issues self config :
  issues (validate_performance_config self config)
  = issues self ++ issues (validate_performance_config ConfigValidator_init config).
Proof. cases validate_performance_config. Qed.

Lemma security_issues self config :
  issues (validate_security_config self config)
  = issues self ++ issues (validate_security_config ConfigValidator_init config).
Proof. cases validate_security_config. Qed.

Lemma server_issues self config :
  issues (validate_server_config getuid self config)
  = issues self ++ issues (validate_server_config getuid ConfigValidator_init config).
Proof. cases validate_server_config. Qed.

Lemma production_issues self config :
  exists l, issues (snd (validate_production_specific self config)) = issues self ++ l.
Proof.
  unfold validate_production_specific, add_issue, add_warning.
  repeat case_match; cbn [snd issues];
    first [ exists []; by rewrite app_nil_r | by eexists ].
Qed.

Lemma gaianet_accepts config g :
  validate_gaianet_config urlparse ConfigValidator_init config = Ok g ->
  issues g = [] ->
  getenv config "GAIANET_BASE_URL" "" <> ""
  /\ getenv config "GAIANET_API_KEY" "" <> ""
  /\ 16 <= String.length (getenv config "GAIANET_API_KEY" "")
  /\ exists scheme netloc,
       urlparse (getenv config "GAIANET_BASE_URL" "") = Ok (scheme, netloc)
       /\ among scheme ["http"; "https"] = true
       /\ netloc <> "".
Proof.
  unfold validate_gaianet_config, validate_base_url, add_issue, add_warning.
  destruct (String.eqb_spec (getenv config "GAIANET_BASE_URL" "") "") as [|Hurl].
  { cbn [bind]. intros [= <-]. by repeat case_match. }
  destruct (urlparse (getenv config "GAIANET_BASE_URL" "")) as [[scheme netloc]|e'];
    [|done].
  cbn [bind].
  destruct (String.eqb_spec scheme "") as [|Hs]; cbn [orb bind].
  { intros [= <-]. by repeat case_match. }
  destruct (String.eqb_spec netloc "") as [|Hn]; cbn [bind].
  { intros [= <-]. by repeat case_match. }
  destruct (among scheme ["http"; "https"]) eqn:Ea; cbn [negb bind].
  2: { intros [= <-]. by repeat case_match. }
  destruct (String.eqb_spec (getenv config "GAIANET_API_KEY" "") "") as [|Hkey].
  { intros [= <-]. by repeat case_match. }
  destruct (among (getenv config "GAIANET_API_KEY" "") _).
  { intros [= <-]. by repeat case_match. }
  destruct (Nat.ltb_spec (String.length (getenv config "GAIANET_API_KEY" "")) 16).
  { intros [= <-]. by repeat case_match. }
  intros _ _. repeat split; try done. by exists scheme, netloc.
Qed.

Lemma security_accepts config :
  issues (validate_security_config ConfigValidator_init config) = [] ->
  (exists limit, py_int (getenv config "RATE_LIMIT_PER_HOUR" "100") = Ok limit
                 /\ (1 <= limit)%Z)
  /\ (exists max_len, py_int (getenv config "MAX_MESSAGE_LENGTH" "10000") = Ok max_len)
  /\ among (str_lower (getenv config "ENABLE_DATA_PRIVACY_FILTER" "true"))
       ["true"; "false"] = true.
Proof.
  unfold validate_security_config, add_issue, add_warning.
  destruct (py_int (getenv config "RATE_LIMIT_PER_HOUR" "100")) as [limit|];
    [|by repeat case_match].
  destruct (Z.ltb_spec limit 1); [by repeat case_match|].
  destruct (py_int (getenv config "MAX_MESSAGE_LENGTH" "10000")) as [max_len|];
    [|by repeat case_match].
  destruct (among (str_lower _) _); cbn [negb]; [|by repeat case_match].
  intros _. split; [by exists limit|]. split; [by exists max_len|done].
Qed.

Lemma server_accepts config :
  issues (validate_server_config getuid ConfigValidator_init config) = [] ->
  exists port, py_int (getenv config "SERVER_PORT" "8080") = Ok port
               /\ (port <= 65535)%Z.
Proof.
  unfold validate_server_config, add_issue, add_warning.
  destruct (py_int (getenv config "SERVER_PORT" "8080")) as [port|];
    [|by repeat case_match].
  destruct (Z.ltb_spec port 1024).
  - intros _. exists port. split; [done|lia].
  - destruct (Z.ltb_spec 65535 port); [by repeat case_match|].
    intros _. by exists port.
Qed.

Lemma py_int_raises x e : py_int x = Raise e -> exn_cls e = ValueError.
Proof. unfold py_int. destruct (int_literal x); [done|]. by intros [= <-]. Qed.

Lemma security_reports config self e :
  py_int (getenv config "RATE_LIMIT_PER_HOUR" "100") = Raise e ->
  In "RATE_LIMIT_PER_HOUR must be a valid integer"
     (issues (validate_security_config self config)).
Proof.
  intros H. rewrite security_issues. apply in_or_app. right.
  unfold validate_security_config. rewrite H.
  cases validate_security_config; cbn; tauto.
Qed.

(** The last check keeps the issues that are there. *)
Lemma production_keeps self config x :
  In x (issues self) -> In x (issues (snd (validate_production_specific self config))).
Proof.
  intros H. destruct (production_issues self config) as [l ->].
  apply in_or_app. by left.
Qed.

Lemma server_keeps self config x :
  In x (issues self) -> In x (issues (validate_server_config getuid self config)).
Proof. intros H. rewrite server_issues. apply in_or_app. by left. Qed.

(** The outcome of [validate_all], from those of its first and of its
    last check. *)
Lemma validate_all_unfold self config :
  validate_all urlparse getuid self config
  = match validate_gaianet_config urlparse ConfigValidator_init config with
    | Raise e => (Raise e, ConfigValidator_init)
    | Ok g =>
        match validate_production_specific
                (validate_server_config getuid
                   (validate_security_config
                      (validate_performance_config g config) config) config) config with
        | (Raise e, after) => (Raise e, after)
        | (Ok _, after) => (Ok (Nat.eqb (List.length (issues after)) 0), after)
        end
    end.
Proof. done. Qed.

(** The last check raises exactly when it runs and [int] raises. *)
Lemma production_raises self config e :
  fst (validate_production_specific self config) = Raise e
  <-> (config !! "FLASK_ENV" = Some "production"
       /\ py_int (getenv config "RATE_LIMIT_PER_HOUR" "100") = Raise e).
Proof.
  unfold validate_production_specific.
  destruct (config !! "FLASK_ENV") as [v|]; [|split; [done|by intros [? _]]].
  destruct (String.eqb_spec v "production") as [->|Hv].
  - destruct (py_int (getenv config "RATE_LIMIT_PER_HOUR" "100")) as [limit|e'];
      cbn [fst].
    + split; [done|by intros [_ ?]].
    + split; [by intros [= <-]|by intros [_ [= <-]]].
  - split; [done|]. intros [[= ?] _]. done.
Qed.

End CheckFacts.

Section FileFacts.

Lemma lstrip_app_fixed (t r : text) : t <> [] -> lstrip t = t -> lstrip (t ++ r) = t ++ r.
Proof.
  destruct t as [|c t]; [done|]. intros _ H. apply lstrip_head in H.
  cbn [app lstrip]. by rewrite H.
Qed.

Lemma split_eq_app (k v : text) :
  occurs ["="%char] k = false -> split_eq (k ++ "="%char :: v) = Some (k, v).
Proof.
  induction k as [|c k IH]; [done|]. cbn [occurs prefix_of app split_eq].
  rewrite andb_true_r, (Ascii.eqb_sym "=" c).
  destruct (Ascii.eqb c "="); [done|]. cbn [orb]. intros H. by rewrite (IH H).
Qed.

Lemma strip_env_line (key value : string) :
  key <> "" -> strip key = key -> strip value = value ->
  chars (strip (env_line key value)) = chars key ++ "="%char :: chars value.
Proof.
  intros Hne Hk Hv.
  pose proof (strip_stripped key) as [Hk1 Hk2]. rewrite Hk in Hk1, Hk2.
  pose proof (strip_stripped value) as [Hv1 Hv2]. rewrite Hv in Hv1, Hv2.
  assert (Hkne : chars key <> []) by by destruct key.
  unfold strip, env_line. rewrite chars_str, !chars_append.
  change (chars "=") with ["="%char]. change (chars (String "010" "")) with ["010"%char].
  rewrite (lstrip_app_fixed _ _ Hkne Hk1).
  rewrite !rev_app_distr. cbn [rev app lstrip].
  change (is_space "010") with true. cbv iota.
  rewrite <- app_assoc. cbn [app].
  assert (lstrip (rev (chars value) ++ "="%char :: rev (chars key))
          = rev (chars value) ++ "="%char :: rev (chars key)) as ->.
  { destruct (chars value) as [|c v] eqn:E using rev_ind; [done|].
    rewrite rev_app_distr in *. cbn [rev app] in *. apply lstrip_head. by apply lstrip_head in Hv2. }
  rewrite rev_app_distr. cbn [rev]. rewrite !rev_involutive, <- app_assoc. done.
Qed.

End FileFacts.

End ConfigFacts.

(** X19. [validate_all] raises in two cases and no other: when
    [GAIANET_BASE_URL] is not empty and [urlparse] raises on it, and
    when, that check passed, [FLASK_ENV] is [production] and
    [int(RATE_LIMIT_PER_HOUR)] raises.  Both calls are outside any [try],
    and the exception is the one they raise.  In the first case nothing
    has been recorded; in the second the validator has by then recorded
    the issue that the limit is no integer, which the caller never gets
    to report.  When [validate_all] returns, its answer is true exactly
    when no issue was recorded, whatever the validator held before the
    call. *)
Theorem validate_all_raises (urlparse : string -> result (string * string))
    (getuid : option Z) (self : Config.ConfigValidator) (config : gmap string string)
    (e : exn) :
  let url := getenv config "GAIANET_BASE_URL" "" in
  let out := Config.validate_all urlparse getuid self config in
  (fst out = Raise e
   <-> ((url <> "" /\ urlparse url = Raise e)
        \/ ((url = "" \/ exists parts, urlparse url = Ok parts)
            /\ config !! "FLASK_ENV" = Some "production"
            /\ py_int (getenv config "RATE_LIMIT_PER_HOUR" "100") = Raise e)))
  /\ (url <> "" -> urlparse url = Raise e ->
      out = (Raise e, Config.ConfigValidator_init))
  /\ ((url = "" \/ exists parts, urlparse url = Ok parts) ->
      fst out = Raise e ->
      exn_cls e = ValueError
      /\ In "RATE_LIMIT_PER_HOUR must be a valid integer" (Config.issues (snd out)))
  /\ (forall b, fst out = Ok b -> (b = true <-> Config.issues (snd out) = []))
  /\ out = Config.validate_all urlparse getuid Config.ConfigValidator_init config.
Proof.
  cbv zeta. rewrite !ConfigFacts.validate_all_unfold.
  pose proof (ConfigFacts.gaianet_raises urlparse Config.ConfigValidator_init config)
    as Hraise.
  destruct (Config.validate_gaianet_config urlparse Config.ConfigValidator_init config)
    as [g|e0] eqn:Eg.
  - assert (Hparsed : getenv config "GAIANET_BASE_URL" "" = ""
                      \/ exists parts,
                           urlparse (getenv config "GAIANET_BASE_URL" "") = Ok parts).
    { destruct (String.eqb_spec (getenv config "GAIANET_BASE_URL" "") "") as [|Hu];
        [by left|]. right.
      destruct (urlparse (getenv config "GAIANET_BASE_URL" "")) as [parts|e'] eqn:Eu;
        [by eexists|].
      pose proof (proj2 (Hraise e') (conj Hu eq_refl)) as Habs. discriminate Habs. }
    assert (Hnot : ~ (getenv config "GAIANET_BASE_URL" "" <> ""
                      /\ urlparse (getenv config "GAIANET_BASE_URL" "") = Raise e)).
    { intros H. by apply Hraise in H. }
    set (before := Config.validate_server_config getuid _ config).
    pose proof (ConfigFacts.production_raises before config e) as Hprod.
    pose proof (ConfigFacts.production_keeps before config
                  "RATE_LIMIT_PER_HOUR must be a valid integer") as Hkeep.
    destruct (Config.validate_production_specific before config) as [[[]|e1] after];
      cbn [fst snd] in *.
    + split; [split; [done|]|].
      { intros [H|(_ & H)]; [by destruct Hnot|].
        pose proof (proj2 Hprod H) as Habs. discriminate Habs. }
      split; [by intros Hu Hr; destruct Hnot|]. split; [done|]. split; [|done].
      intros b [= <-]. rewrite Nat.eqb_eq. apply List.length_zero_iff_nil.
    + split; [split|].
      { intros [= <-]. right. split; [done|]. exact (proj1 Hprod eq_refl). }
      { intros [H|(_ & H)]; [by destruct Hnot|].
        pose proof (proj2 Hprod H) as [= <-]. done. }
      split; [by intros Hu Hr; destruct Hnot|]. split; [|done].
      intros _ [= <-]. destruct (proj1 Hprod eq_refl) as [_ Hint].
      split; [exact (ConfigFacts.py_int_raises _ _ Hint)|].
      apply Hkeep, ConfigFacts.server_keeps.
      exact (ConfigFacts.security_reports config _ _ Hint).
  - destruct (proj1 (Hraise e0) eq_refl) as [Hu Eu]. cbn [fst snd].
    split; [split|].
    { intros [= <-]. by left. }
    { intros [[_ H]|([H|[parts H]] & _)]; congruence. }
    split; [intros _ H; congruence|].
    split; [intros [H|[parts H]]; congruence|done].
Qed.

(** X20. A configuration that [validate_all] accepts passes the checks
    that the backend makes of its environment when it starts and when it
    serves: [urlparse] accepts the URL, with scheme [http] or [https] and
    a host; the constructor of the client gets past its own test and is
    what the call of the provider's constructor, with that URL and a key
    of at least 16 characters, makes it; the request validator is built;
    the rate limit is an integer of at least 1, so that the check before
    each request never raises; the privacy switch reads true or false;
    and the port is an integer of at most 65535. *)
Theorem accepted_config_passes_startup (urlparse : string -> result (string * string))
    (getuid : option Z) (self : Config.ConfigValidator) (config : gmap string string) :
  fst (Config.validate_all urlparse getuid self config) = Ok true ->
  let url := getenv config "GAIANET_BASE_URL" "" in
  let key := getenv config "GAIANET_API_KEY" "" in
  (exists scheme netloc,
      urlparse url = Ok (scheme, netloc)
      /\ (scheme = "http" \/ scheme = "https") /\ netloc <> "")
  /\ url <> "" /\ 16 <= String.length key
  /\ (forall new_client,
        SecureGaiaClient_init new_client config
        = (_ <- new_client url key;;
           Ok {| base_url := url; api_key := key;
                 model := getenv config "GAIANET_MODEL" "default" |}))
  /\ (exists rv, RequestValidator_init config = Ok rv)
  /\ (exists limit, effective_limit config 100 = Ok limit /\ (1 <= limit)%Z)
  /\ (forall now m ip, exists out, security_checks config now m ip = Ok out)
  /\ (str_lower (getenv config "ENABLE_DATA_PRIVACY_FILTER" "true") = "true"
      \/ str_lower (getenv config "ENABLE_DATA_PRIVACY_FILTER" "true") = "false")
  /\ (exists port, py_int (getenv config "SERVER_PORT" "8080") = Ok port
                   /\ (port <= 65535)%Z).
Proof.
  rewrite ConfigFacts.validate_all_unfold. intros H. cbv zeta.
  destruct (Config.validate_gaianet_config urlparse Config.ConfigValidator_init config)
    as [g|e0] eqn:Eg; [|done].
  set (p := Config.validate_performance_config g config) in *.
  set (s := Config.validate_security_config p config) in *.
  set (v := Config.validate_server_config getuid s config) in *.
  destruct (ConfigFacts.production_issues v config) as [l Hl].
  assert (Hnil : Config.issues (snd (Config.validate_production_specific v config)) = []).
  { destruct (Config.validate_production_specific v config) as [[[]|e] after];
      [|done]. cbn [fst snd] in *. injection H as H. apply Nat.eqb_eq in H.
    by destruct (Config.issues after). }
  rewrite Hl in Hnil. subst v s p.
  rewrite ConfigFacts.server_issues, ConfigFacts.security_issues,
    ConfigFacts.performance_issues in Hnil.
  repeat (apply app_eq_nil in Hnil as [Hnil ?]).
  pose proof (ConfigFacts.gaianet_accepts urlparse config g Eg Hnil)
    as (Hurl & Hkey & Hlen & scheme & netloc & Hparse & Hscheme & Hnet).
  match goal with Hs : Config.issues (Config.validate_security_config _ _) = [] |- _ =>
    pose proof (ConfigFacts.security_accepts config Hs)
      as ((limit & Hlimit & Hpos) & (max_len & Hmax) & Hpriv) end.
  match goal with Hs : Config.issues (Config.validate_server_config _ _ _) = [] |- _ =>
    pose proof (ConfigFacts.server_accepts getuid config Hs) as Hport end.
  assert (Heff : effective_limit config 100 = Ok limit) by exact Hlimit.
  split; [|split; [done|split; [done|split; [|split; [|split; [|split; [|split]]]]]]].
  - exists scheme, netloc. repeat split; try done.
    unfold Config.among in Hscheme. cbn [existsb] in Hscheme.
    destruct (String.eqb_spec scheme "http"); [by left|].
    destruct (String.eqb_spec scheme "https"); [by right|done].
  - intros new_client. unfold SecureGaiaClient_init.
    unfold getenv in *.
    destruct (config !! "GAIANET_BASE_URL") as [url|]; [|done].
    destruct (config !! "GAIANET_API_KEY") as [key|]; [|done].
    cbn [default from_option id].
    apply String.eqb_neq in Hurl as Hu. apply String.eqb_neq in Hkey as Hk.
    by rewrite Hu, Hk.
  - unfold RequestValidator_init. rewrite Hmax. by eexists.
  - by exists limit.
  - intros now m ip. unfold security_checks.
    destruct (is_blocked m ip); [by eexists|].
    unfold check_rate_limit. rewrite Heff. cbn [bind].
    destruct (Z.leb _ _); cbn [bind block_ip negb]; by eexists.
  - unfold Config.among in Hpriv. cbn [existsb] in Hpriv.
    destruct (String.eqb_spec (str_lower (getenv config "ENABLE_DATA_PRIVACY_FILTER" "true"))
                "true"); [by left|].
    destruct (String.eqb_spec (str_lower (getenv config "ENABLE_DATA_PRIVACY_FILTER" "true"))
                "false"); [by right|done].
  - exact Hport.
Qed.

Lemma accepted_config_passes_startup_witness :
  Config.validate_all (fun _ => Ok ("https", "node.example")) (Some 1000%Z)
    Config.ConfigValidator_init
    {[ "GAIANET_BASE_URL" := "https://node.example";
       "GAIANET_API_KEY" := "0123456789abcdef0123" ]}
  = (Ok true,
     {| Config.issues := [];
        Config.warnings := ["GAIANET_MODEL not set, will use default"] |})
  /\ effective_limit {[ "GAIANET_BASE_URL" := "https://node.example";
                        "GAIANET_API_KEY" := "0123456789abcdef0123" ]} 100
     = Ok 100%Z.
Proof.
  assert (H : Config.validate_all (fun _ => Ok ("https", "node.example")) (Some 1000%Z)
                Config.ConfigValidator_init
                {[ "GAIANET_BASE_URL" := "https://node.example";
                   "GAIANET_API_KEY" := "0123456789abcdef0123" ]}
              = (Ok true,
                 {| Config.issues := [];
                    Config.warnings := ["GAIANET_MODEL not set, will use default"] |}))
    by (vm_compute; reflexivity).
  split; [exact H|].
  destruct (accepted_config_passes_startup _ _ _ _ (f_equal fst H))
    as (_ & _ & _ & _ & _ & (limit & Hl & _) & _).
  rewrite Hl. vm_compute in Hl. injection Hl as <-. reflexivity.
Defined.

(** X21. A line of the file that reads [key=value], with a key that is
    not empty, holds no [=], does not start with [#] and has no white
    space at either end, and a value without white space at either end,
    gives that value for that key, whatever came before in the file: the
    last assignment of a key wins.  Blank lines and lines that start with
    [#], after white space, change nothing. *)
Theorem env_line_round_trip (lines : list string) (key value : string) :
  Config.env_key key -> strip value = value ->
  Config.load_env_file (lines ++ [Config.env_line key value]) !! key = Some value
  /\ (forall other,
        other <> key ->
        Config.load_env_file (lines ++ [Config.env_line key value]) !! other
        = Config.load_env_file lines !! other)
  /\ (forall line,
        strip line = "" \/ prefix_of (chars "#") (chars (strip line)) = true ->
        Config.load_env_file (lines ++ [line]) = Config.load_env_file lines).
Proof.
  intros (Hne & Heq & Hhash & Hk) Hv.
  assert (Hline : Config.load_env_line (Config.load_env_file lines)
                    (Config.env_line key value)
                  = <[key := value]> (Config.load_env_file lines)).
  { unfold Config.load_env_line.
    rewrite (ConfigFacts.strip_env_line key value Hne Hk Hv).
    rewrite ConfigFacts.split_eq_app by exact Heq.
    rewrite !str_chars, Hk, Hv.
    destruct (chars key) as [|c k] eqn:E; [by destruct key|]. cbn [app].
    change (chars "#") with ["#"%char] in Hhash.
    destruct c as [[] [] [] [] [] [] [] []]; try reflexivity.
    vm_compute in Hhash. discriminate Hhash. }
  unfold Config.load_env_file in *. rewrite !fold_left_app. cbn [fold_left].
  split; [|split].
  - by rewrite Hline, lookup_insert_eq.
  - intros other Ho. by rewrite Hline, lookup_insert_ne.
  - intros line Hl. rewrite fold_left_app. cbn [fold_left].
    unfold Config.load_env_line.
    destruct Hl as [->|Hl]; [done|].
    destruct (chars (strip line)) as [|c t]; [done|].
    change (chars "#") with ["#"%char] in Hl.
    cbn [prefix_of] in Hl. rewrite andb_true_r in Hl.
    apply Ascii.eqb_eq in Hl as <-. done.
Qed.

Lemma env_line_round_trip_witness :
  Config.load_env_file
    ["# limits"; "RATE_LIMIT_PER_HOUR = 5 "; Config.env_line "RATE_LIMIT_PER_HOUR" "50"]
  !! "RATE_LIMIT_PER_HOUR" = Some "50".
Proof.
  refine (proj1 (env_line_round_trip ["# limits"; "RATE_LIMIT_PER_HOUR = 5 "]
                   "RATE_LIMIT_PER_HOUR" "50" _ _)).
  - repeat split; try (vm_compute; reflexivity). discriminate.
  - vm_compute; reflexivity.
Defined.
